(** * CloudTrace span registrar (package trace): model and properties

    A shallow embedding of [trace/trace.go]: span and trace identifiers,
    the span factory with its sub-span walker, attribute recording,
    [Finish] with its bounded-try send, and the batch-writer loop.

    Conventions.
    - A [uint64] is a [Z] kept in [0, 2^64) by [wrap64]; an [int64] is a [Z]
      kept in [-2^63, 2^63) by [wrapInt64].
    - A [time.Time] is a [Z]; [0] is the zero time ([IsZero]).
    - Code that reads the clock, the random sources or the log runs in the
      monad [M], a state monad over [World] whose failure is a Go panic or,
      for [NewSpanID], a pseudo-random supply too short for the loop.
    - A [*Span] receiver is passed in and handed back; [details] is kept by
      value inside the span.  The only reader of [parent] is [initDetails],
      which runs while the child is being built.

    The source file also holds package config, which names the Prometheus
    metric for a GCP metric: [Module config] is its model, and
    [Module config_properties] what is proved of it.  There a function that
    may panic returns an [option], and a Go map is a [gmap] read through
    [valueOf]. *)

From Stdlib Require Import ZArith Zdivisibility List Sorted String Ascii Bool Lia.
From stdpp Require Import gmap strings.
Import ListNotations.

Local Open Scope string_scope.
Local Open Scope Z_scope.

(** ** Machine integers *)

Definition wrap64 (x : Z) : Z := x mod 2 ^ 64.

Definition wrapInt64 (x : Z) : Z := (x + 2 ^ 63) mod 2 ^ 64 - 2 ^ 63.

Definition isU64 (x : Z) : Prop := 0 <= x < 2 ^ 64.

(** ** Identifier codec

    Modelled from the spec: [spans.HexSpanID], [spans.ROSpan] and its methods
    belong to package gcp-spans of go-lager-internal, which is not under src/.
    [HexSpanID] renders a 64-bit span ID as 16 lowercase hex digits,
    zero-padded. *)

Definition hexDigit (d : Z) : ascii :=
  match d with
  | 0 => "0" | 1 => "1" | 2 => "2" | 3 => "3" | 4 => "4" | 5 => "5"
  | 6 => "6" | 7 => "7" | 8 => "8" | 9 => "9" | 10 => "a" | 11 => "b"
  | 12 => "c" | 13 => "d" | 14 => "e" | _ => "f"
  end%char.

Fixpoint hexN (n : nat) (x : Z) (acc : string) : string :=
  match n with
  | O => acc
  | S n' => hexN n' (x / 16) (String (hexDigit (x mod 16)) acc)
  end.

Definition HexSpanID (spanID : Z) : string := hexN 16 spanID "".

Arguments HexSpanID : simpl never.

(** The value of one hex digit as [strconv.ParseUint] reads it in base 16:
    either letter case is accepted. *)
Definition hexVal (c : ascii) : option Z :=
  let n := Z.of_N (N_of_ascii c) in
  if (48 <=? n) && (n <=? 57) then Some (n - 48)
  else if (97 <=? n) && (n <=? 102) then Some (n - 87)
  else if (65 <=? n) && (n <=? 70) then Some (n - 55)
  else None.

Definition isLowerHex (c : ascii) : bool :=
  let n := Z.of_N (N_of_ascii c) in
  ((48 <=? n) && (n <=? 57)) || ((97 <=? n) && (n <=? 102)).

Fixpoint hexValue (s : string) (acc : Z) : option Z :=
  match s with
  | EmptyString => Some acc
  | String c s' =>
      match hexVal c with
      | Some d => hexValue s' (16 * acc + d)
      | None => None
      end
  end.

(** [strconv.ParseUint(s, 16, 64)]: the value and whether an error came with
    it.  A syntax error gives 0, a value out of range gives the maximum. *)
Definition ParseUint16 (s : string) : Z * bool :=
  match s with
  | EmptyString => (0, true)
  | _ =>
      match hexValue s 0 with
      | None => (0, true)
      | Some n => if n <? 2 ^ 64 then (n, false) else (2 ^ 64 - 1, true)
      end
  end.

Fixpoint allChars (p : ascii -> bool) (s : string) : bool :=
  match s with
  | EmptyString => true
  | String c s' => p c && allChars p s'
  end.

(** ** Data model *)

Definition Time := Z.
Definition Duration := Z.

Definition IsZero (t : Time) : bool := t =? 0.

(** [spans.ROSpan]: project, trace ID, span ID. *)
Record ROSpan := mkROSpan {
  proj : string;
  traceID : string;
  spanID : Z
}.

Definition emptyROSpan : ROSpan := mkROSpan "" "" 0.

Definition NewROSpan (project : string) : ROSpan := mkROSpan project "" 0.

Definition SetSpanID (r : ROSpan) (id : Z) : ROSpan :=
  mkROSpan (proj r) (traceID r) id.

(** Modelled from the spec: the writer builds [details.name] as
    ["{path}/{spanPath}"] with [path = "projects/{project}"] and the result
    is [projects/{project}/traces/{trace}/spans/{span}], so the span path is
    [traces/{trace}/spans/{span}]. *)
Definition GetSpanPath (r : ROSpan) : string :=
  "traces/" +:+ traceID r +:+ "/spans/" +:+ HexSpanID (spanID r).

Definition GetTracePath (r : ROSpan) : string :=
  "projects/" +:+ proj r +:+ "/traces/" +:+ traceID r.

(** Modelled from the spec: a trace ID is valid iff it has exactly 32
    characters, all hex; a zero span ID is the sentinel for no span.
    [Import] refuses anything else. *)
Definition isHex (c : ascii) : bool :=
  match hexVal c with Some _ => true | None => false end.

Definition validTraceID (t : string) : bool :=
  (Z.of_nat (String.length t) =? 32) && allChars isHex t.

Definition ROSpan_Import (r : ROSpan) (t : string) (id : Z) : option ROSpan :=
  if validTraceID t && negb (id =? 0) then Some (mkROSpan (proj r) t id)
  else None.

(** [ct2.AttributeValue]. *)
Record AttributeValue := mkAV {
  StringValue : option string;
  IntValue : Z;
  BoolValue : bool
}.

Definition zeroAV : AttributeValue := mkAV None 0 false.

(** [ct2.Status]. *)
Record Status := mkStatus {
  Code : Z;
  Message : string
}.

(** [ct2.Span], the record sent to the backend.  [DisplayName], [Attributes]
    and [Status] are pointers in the source, [None] when nil. *)
Record Ct2Span := mkCt2Span {
  Name : string;
  SpanId : string;
  ParentSpanId : string;
  DisplayName : option string;
  StartTime : string;
  EndTime : string;
  SpanKind : string;
  Attributes : option (gmap string AttributeValue);
  StatusOf : option Status;
  SameProcessAsParentSpan : bool;
  ChildSpanCount : Z
}.

Definition emptyCt2Span : Ct2Span :=
  mkCt2Span "" "" "" None "" "" "" None None false 0.

(** [Span].  The mutex [mu] only serialises [NewSubSpan] calls and the write
    of [end]; the model is sequential and leaves it out. *)
#[warnings="-register-all"]
Inductive Span := mkSpan {
  ro : ROSpan;
  ch : option nat;
  start : Time;
  end_ : Time;
  parent : option Span;
  details : option Ct2Span;
  spanInc : Z;
  kidSpan : Z
}.

Definition GetSpanID (s : Span) : Z := spanID (ro s).
Definition GetTraceID (s : Span) : string := traceID (ro s).

(** The [spans.Factory] values the package hands out: a [*Span], or the
    empty [spans.ROSpan{}] where a call was refused. *)
Inductive Factory :=
  | FSpan (s : Span)
  | FROSpan (r : ROSpan).

(** ** The world a span lives in *)

Inductive Level := LWarn | LFail | LTrace | LExit.

(** A channel of spans, as a sender finds it: the buffer and its capacity
    (zero for an unbuffered channel), whether the channel is closed, how
    many receivers are blocked in [<-c], and what the receivers have been
    given so far, oldest first. *)
Record Chan := mkChan {
  buf : list Span;
  cap : nat;
  closed : bool;
  parked : nat;
  recvd : list Span
}.

(** - [clock]: the last reading of [time.Now];
    - [argv0]: [os.Args[0]];
    - [crand]: what the reads of [crypto/rand] will give, [None] for a
      failed read (an exhausted supply fails too);
    - [mrand]: what [math/rand.Uint64] will give;
    - [warned]: whether [warnOnce] has fired;
    - [logged]: the lager lines written so far, oldest first;
    - [chans]: the channels, by handle;
    - [dropped]: the counter behind [spanDropped]. *)
Record World := mkWorld {
  clock : Time;
  argv0 : string;
  crand : list (option Z);
  mrand : list Z;
  warned : bool;
  logged : list (Level * string);
  chans : gmap nat Chan;
  dropped : Z
}.

Definition M (A : Type) : Type := World -> option (A * World).

Definition ret {A : Type} (a : A) : M A := fun w => Some (a, w).

Definition bind {A B : Type} (m : M A) (k : A -> M B) : M B :=
  fun w => match m w with
           | Some (a, w') => k a w'
           | None => None
           end.

Definition panic {A : Type} : M A := fun _ => None.

Notation "'let*' x ':=' m 'in' k" := (bind m (fun x => k))
  (at level 10, x pattern, m at level 100, k at level 200).

(** [lager.<Level>().MMap(msg, ...)]: one more line in the log. *)
Definition addLog (l : Level) (msg : string) (w : World) : World :=
  mkWorld (clock w) (argv0 w) (crand w) (mrand w) (warned w)
    (logged w ++ [(l, msg)]) (chans w) (dropped w).

Definition lager (l : Level) (msg : string) : M unit :=
  fun w => Some (tt, addLog l msg w).

(** [time.Now()], [dt] after the previous reading. *)
Definition tick (dt : N) (w : World) : World :=
  mkWorld (clock w + Z.of_N dt) (argv0 w) (crand w) (mrand w) (warned w)
    (logged w) (chans w) (dropped w).

Definition time_Now (dt : N) : M Time :=
  fun w => Some (clock w + Z.of_N dt, tick dt w).

Definition os_Args0 : M string := fun w => Some (argv0 w, w).

Definition spanDropped : M unit :=
  fun w => Some (tt, mkWorld (clock w) (argv0 w) (crand w) (mrand w)
                       (warned w) (logged w) (chans w) (dropped w + 1)).

(** [binary.Read(crand.Reader, ...)]. *)
Definition crand_Read : M (option Z) :=
  fun w => match crand w with
           | [] => Some (None, w)
           | r :: rest =>
               Some (r, mkWorld (clock w) (argv0 w) rest (mrand w)
                          (warned w) (logged w) (chans w) (dropped w))
           end.

Definition warnOnce_Do (msg : string) : M unit :=
  fun w => if warned w then Some (tt, w)
           else Some (tt, mkWorld (clock w) (argv0 w) (crand w) (mrand w)
                            true (logged w ++ [(LWarn, msg)]) (chans w)
                            (dropped w)).

(** ** ID generator *)

(** [for 0 == spanID { spanID = oldSpanID + mrand.Uint64() }] over the
    draws still to come; [None] when they run out first. *)
Fixpoint NewSpanID_loop (oldSpanID spanID : Z) (draws : list Z)
  : option (Z * list Z) :=
  if spanID =? 0 then
    match draws with
    | [] => None
    | d :: rest => NewSpanID_loop oldSpanID (wrap64 (oldSpanID + wrap64 d)) rest
    end
  else Some (spanID, draws).

Definition NewSpanID (oldSpanID : Z) : M Z :=
  let* r := crand_Read in
  let* _ := match r with
            | None =>
                warnOnce_Do "Error reading random bytes for new trace/span ID"
            | Some _ => ret tt
            end in
  fun w =>
    match NewSpanID_loop oldSpanID
            (match r with Some v => wrap64 v | None => 0 end) (mrand w) with
    | None => None
    | Some (spanID, rest) =>
        Some (spanID, mkWorld (clock w) (argv0 w) (crand w) rest (warned w)
                        (logged w) (chans w) (dropped w))
    end.

Definition NewTraceID (oldTraceID : string) : M string :=
  let* one := NewSpanID 0 in
  let* two := NewSpanID 0 in
  if Z.of_nat (String.length oldTraceID) =? 32 then
    let add1 := fst (ParseUint16 (substring 0 16 oldTraceID)) in
    let one := wrap64 (one + add1) in
    let add2 := fst (ParseUint16 (substring 16 16 oldTraceID)) in
    let two := wrap64 (two + add2) in
    let two := if (one =? 0) && (two =? 0) then wrap64 (two - add2)
               else two in
    ret (HexSpanID one +:+ HexSpanID two)
  else ret (HexSpanID one +:+ HexSpanID two).

(** ** Channels *)

Definition setChan (h : nat) (q : Chan) (w : World) : World :=
  mkWorld (clock w) (argv0 w) (crand w) (mrand w) (warned w) (logged w)
    (<[h := q]> (chans w)) (dropped w).

(** [select { case c <- sp: default: }].  A nil channel is never ready and
    a closed one panics.  On an open one the send goes through if a
    receiver is blocked in [<-c], which is then handed the span and goes
    on, or else if the buffer has room, which an unbuffered channel never
    has; otherwise the [default] branch is taken. *)
Definition trySend (c : option nat) (sp : Span) : M bool :=
  fun w =>
    match c with
    | None => Some (false, w)
    | Some h =>
        match chans w !! h with
        | None => Some (false, w)
        | Some q =>
            if closed q then None
            else if (0 <? parked q)%nat then
              Some (true,
                    setChan h
                      (mkChan (buf q) (cap q) false (parked q - 1)
                         (recvd q ++ [sp])) w)
            else if (length (buf q) <? cap q)%nat then
              Some (true,
                    setChan h
                      (mkChan (buf q ++ [sp]) (cap q) false (parked q)
                         (recvd q)) w)
            else Some (false, w)
        end
    end.

Definition factoryID (f : Factory) : Z :=
  match f with
  | FSpan s => GetSpanID s
  | FROSpan r => spanID r
  end.

(** The walk of child IDs in the spec's words: start from the parent's span
    ID, add the stride on every call, and add it once more whenever the sum
    rolls to zero. *)
Definition walkStep (inc kid : Z) : Z :=
  let k := wrap64 (kid + inc) in
  if k =? 0 then wrap64 (k + inc) else k.

Fixpoint walk (inc kid : Z) (n : nat) : list Z :=
  match n with
  | O => []
  | S n' => walkStep inc kid :: walk inc (walkStep inc kid) n'
  end.

(** [Registrar]: the project, the number of runners started on the queue
    and not yet waited for, and the queue. *)
Record Registrar := mkRegistrar {
  reg_proj : string;
  reg_runners : nat;
  reg_queue : option nat
}.

(** [close(c)]: a closed channel panics; the receivers blocked in [<-c]
    are woken and the buffer stays for later receives. *)
Definition closeChan (h : nat) : M unit :=
  fun w =>
    match chans w !! h with
    | None => None
    | Some q =>
        if closed q then None
        else Some (tt, setChan h (mkChan (buf q) (cap q) true O (recvd q)) w)
    end.

(** [<-r.dones] in [Halt].  A runner sends on [dones] only when its receive
    from the queue answers [!ok] (trace.go:366-369), which a closed channel
    does once its buffer is empty: so when this receive returns the runners
    have been given all that the queue held.  The runners are taken to be
    in their loop, as [startRegistrar] starts them; what they do with the
    spans they read, and log of it, is the part of [writeSpans]. *)
Definition awaitDone (h : nat) : M unit :=
  fun w =>
    match chans w !! h with
    | None => None
    | Some q =>
        Some (tt, setChan h (mkChan [] (cap q) (closed q) (parked q)
                               (recvd q ++ buf q)) w)
    end.

(** [for ; 0 < r.runners; r.runners-- { _ = <-r.dones }]: what is left of
    [r.runners]. *)
Fixpoint awaitRunners (runners : nat) (h : nat) : M nat :=
  match runners with
  | O => ret O
  | S n => let* _ := awaitDone h in awaitRunners n h
  end.

(** [Halt]: nothing on a registrar whose queue is nil; otherwise the queue
    is closed, [r.queue] becomes nil and the runners are waited for. *)
Definition Halt (r : Registrar) : M Registrar :=
  match reg_queue r with
  | None => ret r
  | Some h =>
      let* _ := closeChan h in
      let* runners := awaitRunners (reg_runners r) h in
      ret (mkRegistrar (reg_proj r) runners None)
  end.

(** ** Batch writer *)

(** What one pass of the [select] in [writeSpans] can yield: a span read
    from the queue (with [len(queue)] after the read), the queue found
    closed, or the timer firing. *)
Inductive Event :=
  | Received (sp : Span) (queueLen : Z)
  | QueueClosed
  | TimedOut.

(** How the [BatchWrite] of a pass ends, should the pass make one. *)
Inductive Rpc := RpcOk | RpcTimeout | RpcFail.

(** The state of one writer between passes of its loop, with what it has
    done so far: [written] the batches given to [BatchWrite], [replied] the
    sentinels sent back, [created] the outcomes counted by [spanCreated],
    [recorded] the queue lengths given to the capacity gauge. *)
Record Writer := mkWriter {
  batch : list Ct2Span;
  timerMade : bool;
  timeoutOn : bool;
  written : list (string * list Ct2Span);
  replied : list (nat * Span);
  created : list string;
  recorded : list Z;
  traced : list (Level * string);
  done : bool
}.

Definition newWriter : Writer :=
  mkWriter [] false false [] [] [] [] [] false.

Definition trace (msg : string) (l : Level) (t : Writer) : Writer :=
  mkWriter (batch t) (timerMade t) (timeoutOn t) (written t) (replied t)
    (created t) (recorded t) (traced t ++ [(l, msg)]) (done t).

Definition reply (c : nat) (sp : Span) (t : Writer) : Writer :=
  mkWriter (batch t) (timerMade t) (timeoutOn t) (written t)
    (replied t ++ [(c, sp)]) (created t) (recorded t) (traced t) (done t).

(** The head of the loop: arm the timer if it is idle and spans wait. *)
Definition armTimer (t : Writer) : Writer :=
  if negb (timeoutOn t) && (0 <? length (batch t))%nat then
    trace "Reset span writer timeout" LTrace
      (mkWriter (batch t) true true (written t) (replied t) (created t)
         (recorded t) (traced t) (done t))
  else t.

(** The tail of the loop once a flush is due: write the batch if it has
    spans, then answer the sentinel of [WaitForIdleRunners].  Stopping the
    timer leaves it idle either way; the line traced when a tick had to be
    drained first is left out. *)
Definition flush (path : string) (rpc : Rpc) (replySpan : option Span)
    (t : Writer) : Writer :=
  let t :=
    match batch t with
    | [] => trace "No spans to write" LTrace t
    | _ =>
        let t := trace "Writing batch of spans" LTrace
                   (mkWriter (batch t) (timerMade t) false (written t)
                      (replied t) (created t) (recorded t) (traced t)
                      (done t)) in
        let t := mkWriter (batch t) (timerMade t) (timeoutOn t)
                   (written t ++ [(path, batch t)]) (replied t) (created t)
                   (recorded t) (traced t) (done t) in
        let t :=
          match rpc with
          | RpcOk =>
              mkWriter (batch t) (timerMade t) (timeoutOn t) (written t)
                (replied t) (created t ++ ["ok"]) (recorded t) (traced t)
                (done t)
          | RpcTimeout =>
              mkWriter (batch t) (timerMade t) (timeoutOn t) (written t)
                (replied t) (created t ++ ["timeout"]) (recorded t)
                (traced t) (done t)
          | RpcFail =>
              trace "Failed to create span batch" LFail
                (mkWriter (batch t) (timerMade t) (timeoutOn t) (written t)
                   (replied t) (created t ++ ["fail"]) (recorded t)
                   (traced t) (done t))
          end in
        mkWriter [] (timerMade t) (timeoutOn t) (written t) (replied t)
          (created t) (recorded t) (traced t) (done t)
    end in
  match replySpan with
  | Some sp =>
      match ch sp with
      | Some c => reply c sp t
      | None => t
      end
  | None => t
  end.

(** One pass of the loop of [writeSpans]; [None] is a nil dereference.  A
    writer that has returned stays as it is, and so does one for which the
    event cannot arise (the timer firing while it is not armed). *)
Definition writeSpans_pass (queue : nat) (path : string) (maxSpans : Z)
    (ev : Event) (rpc : Rpc) (t : Writer) : option Writer :=
  if done t then Some t
  else
    let t := armTimer t in
    let tail (full : bool) (replySpan : option Span) (t : Writer) :=
      if negb full && (Z.of_nat (length (batch t)) <? maxSpans) then
        trace "Span batch waiting for more spans" LTrace t
      else flush path rpc replySpan t in
    match ev with
    | QueueClosed =>
        Some (mkWriter (batch t) (timerMade t) (timeoutOn t) (written t)
                (replied t) (created t) (recorded t) (traced t) true)
    | Received sp queueLen =>
        let t := mkWriter (batch t) (timerMade t) (timeoutOn t) (written t)
                   (replied t) (created t) (recorded t ++ [queueLen])
                   (traced t) (done t) in
        if GetSpanID sp =? 0 then
          match ch sp with
          | Some c =>
              if negb (c =? queue)%nat then
                if spanInc sp =? 1 then Some (reply c sp t)
                else Some (tail true (Some sp)
                             (trace "Flush span batch" LTrace t))
              else Some (tail true None (trace "Flush span batch" LTrace t))
          | None => Some (tail true None (trace "Flush span batch" LTrace t))
          end
        else
          match details sp with
          | None => None
          | Some d =>
              match DisplayName d with
              | None => None
              | Some _ =>
                  let t := trace "Add span to batch" LTrace t in
                  let d := mkCt2Span (path +:+ "/" +:+ GetSpanPath (ro sp))
                             (SpanId d) (ParentSpanId d) (DisplayName d)
                             (StartTime d) (EndTime d) (SpanKind d)
                             (Attributes d) (StatusOf d)
                             (SameProcessAsParentSpan d) (ChildSpanCount d) in
                  Some (tail false None
                          (mkWriter (batch t ++ [d]) (timerMade t)
                             (timeoutOn t) (written t) (replied t)
                             (created t) (recorded t) (traced t) (done t)))
              end
          end
    | TimedOut =>
        if timeoutOn t then
          let t := trace "Span batch timed out" LTrace
                     (mkWriter (batch t) (timerMade t) false (written t)
                        (replied t) (created t) (recorded t) (traced t)
                        (done t)) in
          match batch t with
          | [] => Some (trace "Span batch empty after timeout?!" LTrace t)
          | _ => Some (tail true None t)
          end
        else Some t
    end.

(** The loop over the events and RPC outcomes it meets. *)
Fixpoint writeSpans (queue : nat) (path : string) (maxSpans : Z)
    (evs : list (Event * Rpc)) (t : Writer) : option Writer :=
  match evs with
  | [] => Some t
  | (ev, rpc) :: rest =>
      match writeSpans_pass queue path maxSpans ev rpc t with
      | None => None
      | Some t' => writeSpans queue path maxSpans rest t'
      end
  end.

(** [startRegistrar] gives every writer [path := "projects/" + project]. *)
Definition registrarPath (project : string) : string :=
  "projects/" +:+ project.

(** The details a writer appends for a span it has read: those of the
    span, with the name filled in. *)
Definition named (path : string) (sp : Span) (d : Ct2Span) : Ct2Span :=
  mkCt2Span (path +:+ "/" +:+ GetSpanPath (ro sp)) (SpanId d)
    (ParentSpanId d) (DisplayName d) (StartTime d) (EndTime d) (SpanKind d)
    (Attributes d) (StatusOf d) (SameProcessAsParentSpan d)
    (ChildSpanCount d).

(** What the spans read before the queue closes should add to the batches:
    the named details of those with a nonzero span ID, in the order read. *)
Fixpoint appended (path : string) (evs : list (Event * Rpc))
  : list Ct2Span :=
  match evs with
  | [] => []
  | (QueueClosed, _) :: _ => []
  | (TimedOut, _) :: rest => appended path rest
  | (Received sp _, _) :: rest =>
      if GetSpanID sp =? 0 then appended path rest
      else
        match details sp with
        | Some d => named path sp d :: appended path rest
        | None => appended path rest
        end
  end.

(** A span as [Finish] sends it: with details and a display name, unless it
    is a sentinel. *)
Definition sendable (e : Event * Rpc) : Prop :=
  match fst e with
  | Received sp _ =>
      GetSpanID sp <> 0 ->
      exists d n, details sp = Some d /\ DisplayName d = Some n
  | _ => True
  end.

(** All the details a writer has taken so far: those it has written, batch
    after batch, then those in the batch it is filling. *)
Definition taken (t : Writer) : list Ct2Span :=
  (concat (map snd (written t)) ++ batch t)%list.

(** [t'] has taken what [t] had, is as done as [t] was, and has written
    batches to [path] only, none of them empty, if [t] had. *)
Definition sameTaken (path : string) (t t' : Writer) : Prop :=
  taken t' = taken t /\ done t' = done t /\
  (Forall (fun b => fst b = path /\ snd b <> []) (written t) ->
   Forall (fun b => fst b = path /\ snd b <> []) (written t')).

(** * Package config: metric names *)

Module config.

(** [strings.Split(s, sep)] for a separator of one byte: the pieces
    between the separators, one more than there are separators. *)
Fixpoint Split (sep : ascii) (s : string) : list string :=
  match s with
  | EmptyString => [""]
  | String c s' =>
      if Ascii.eqb c sep then "" :: Split sep s'
      else
        match Split sep s' with
        | p :: ps => String c p :: ps
        | [] => [String c ""]
        end
  end.

(** [strings.Join(parts, sep)]. *)
Fixpoint Join (parts : list string) (sep : string) : string :=
  match parts with
  | [] => ""
  | [p] => p
  | p :: ps => p +:+ sep +:+ Join ps sep
  end.

(** [s[n:]], [None] where the slice is out of range. *)
Definition sliceFrom (n : nat) (s : string) : option string :=
  if (n <=? String.length s)%nat
  then Some (substring n (String.length s - n) s)
  else None.

(** A lookup in a Go [map[string]string]: the empty string for a key that
    is not there. *)
Definition valueOf (m : gmap string string) (k : string) : string :=
  match m !! k with
  | Some v => v
  | None => ""
  end.

(** The loop of [subSystem], from [e] down; [None] is a panic. *)
Fixpoint subSystem_loop (path : string) (parts : list string)
    (subs : gmap string string) (e : nat) : option (string * string) :=
  match e with
  | S (S e' as e1) =>
      let prefix := Join (firstn e1 parts) "/" +:+ "/" in
      let subsys := valueOf subs prefix in
      if negb (String.eqb subsys "") then
        match sliceFrom (String.length prefix) path with
        | None => None
        | Some EmptyString => None
        | Some (String c _ as suff) =>
            Some (subsys, if Ascii.eqb c "/" then suff else "/" +:+ suff)
        end
      else subSystem_loop path parts subs e1
  | _ => Some ("", "")
  end.

Definition subSystem (path : string) (subs : gmap string string)
  : option (string * string) :=
  let parts := Split "/" path in
  subSystem_loop path parts subs (length parts).

(** [strings.HasPrefix] and [strings.HasSuffix]. *)
Definition HasPrefix (s pre : string) : bool :=
  (String.length pre <=? String.length s)%nat &&
  String.eqb (substring 0 (String.length pre) s) pre.

Definition HasSuffix (s suf : string) : bool :=
  (String.length suf <=? String.length s)%nat &&
  String.eqb
    (substring (String.length s - String.length suf) (String.length suf) s)
    suf.

(** The prefix the loop of [subSystem] tries at [e], and what the loop
    returns when it stops there. *)
Definition prefixAt (path : string) (e : nat) : string :=
  Join (firstn e (Split "/" path)) "/" +:+ "/".

Definition resultAt (path : string) (subs : gmap string string) (e : nat)
  : option (string * string) :=
  match sliceFrom (String.length (prefixAt path e)) path with
  | None => None
  | Some EmptyString => None
  | Some (String c _ as suff) =>
      Some (valueOf subs (prefixAt path e),
            if Ascii.eqb c "/" then suff else "/" +:+ suff)
  end.

(** The inner loop of [uniqueKeyPrefixes], from [e] down: whether some
    shorter prefix of the key is a key as well. *)
Fixpoint shorterKey (parts : list string) (m : gmap string string)
    (e : nat) : bool :=
  match e with
  | S (S e' as e1) =>
      let shorter := Join (firstn e1 parts) "/" +:+ "/" in
      match m !! shorter with
      | Some _ => true
      | None => shorterKey parts m e1
      end
  | _ => false
  end.

(** [uniqueKeyPrefixes]; [order] is the order in which [range] visits the
    keys of the map, which Go leaves open. *)
Definition uniqueKeyPrefixes (m : gmap string string) (order : list string)
  : list string :=
  List.filter
    (fun pref =>
       let parts := Split "/" pref in
       negb (shorterKey parts m (length parts - 1)))
    order.

(** [notAllowed.ReplaceAllString(s, "_")] for the expression
    [[^a-zA-Z0-9_]+]: every maximal run of bytes outside the class becomes
    one underscore.  The allowed characters are ASCII and every byte of a
    longer UTF-8 sequence, or of a broken one, is outside the class, so the
    runs of runes the library finds are the runs of bytes. *)
Definition allowed (c : ascii) : bool :=
  let n := Z.of_N (N_of_ascii c) in
  ((97 <=? n) && (n <=? 122)) || ((65 <=? n) && (n <=? 90)) ||
  ((48 <=? n) && (n <=? 57)) || (n =? 95).

Fixpoint replaceRuns (s : string) (inRun : bool) : string :=
  match s with
  | EmptyString => ""
  | String c s' =>
      if allowed c then String c (replaceRuns s' false)
      else if inRun then replaceRuns s' true
      else String "_" (replaceRuns s' true)
  end.

Definition ReplaceAllString (s : string) : string := replaceRuns s false.

(** [strings.Contains(s, c)] for a substring of one byte. *)
Fixpoint ContainsByte (s : string) (c : ascii) : bool :=
  match s with
  | EmptyString => false
  | String d s' => Ascii.eqb d c || ContainsByte s' c
  end.

Record Selector := {
  sel_Prefix : list string;
  sel_Suffix : list string;
  sel_Only : string;
  sel_Not : string;
  sel_Unit : string
}.

(** [keys] is filled in by [LoadConfig] from [longestKeysFirst]. *)
Record SuffixConf := {
  For : Selector;
  Replace : gmap string string;
  keys : list string
}.

(** The fields of [Configuration] that naming a metric reads. *)
Record Configuration := {
  System : string;
  Subsystem : gmap string string;
  Suffix : list SuffixConf
}.

(** [MDType] is [MD.Type], the only field of the descriptor the matcher
    reads once [mon.MetricAbbrs] has given [Kind], [Typ] and [Unit]. *)
Record MetricMatcher := {
  conf : Configuration;
  MDType : string;
  SubSys : string;
  Name : string;
  Kind : ascii;
  Typ : ascii;
  Unit : string
}.

Definition withName (mm : MetricMatcher) (name : string) : MetricMatcher :=
  {| conf := conf mm; MDType := MDType mm; SubSys := SubSys mm;
     Name := name; Kind := Kind mm; Typ := Typ mm; Unit := Unit mm |}.

Definition withSubSys (mm : MetricMatcher) (subsys : string)
  : MetricMatcher :=
  {| conf := conf mm; MDType := MDType mm; SubSys := subsys;
     Name := Name mm; Kind := Kind mm; Typ := Typ mm; Unit := Unit mm |}.

(** [name] made to start with a slash, as [computeName] does after a
    replacement; [None] is the panic of [name[0]] on an empty name. *)
Definition slashFirst (name : string) : option string :=
  match name with
  | EmptyString => None
  | String c _ => Some (if Ascii.eqb c "/" then name else "/" +:+ name)
  end.

(** The inner loop of [computeName]: the first key that is a suffix of the
    name is replaced, and the loop ends. *)
Fixpoint replaceSuffix (name : string) (repl : gmap string string)
    (ks : list string) : option string :=
  match ks with
  | [] => Some name
  | k :: ks' =>
      if HasSuffix name k then
        slashFirst
          (substring 0 (String.length name - String.length k) name
           +:+ valueOf repl k)
      else replaceSuffix name repl ks'
  end.

(** What [longestKeysFirst] leaves in [keys]: no key before a longer
    one. *)
Definition longestFirst (ks : list string) : Prop :=
  StronglySorted
    (fun a b => (String.length b <= String.length a)%nat) ks.

(** [PromName]. *)
Definition PromName (mm : MetricMatcher) : option string :=
  match sliceFrom 1 (Name mm) with
  | None => None
  | Some rest => Some (System (conf mm) +:+ "_" +:+ SubSys mm +:+ "_" +:+ rest)
  end.

Definition nonEmpty (v : string) : bool := negb (String.eqb "" v).

Section Matcher.

(** [strings.TrimSpace] is library code and [mon.Contains] is not under
    src/: both are taken as they come. *)
Variable TrimSpace : string -> string.
Variable Contains : string -> ascii -> ascii -> bool.

(** The loop of [commaSeparated] over [items], which it overwrites as it
    goes: [i] is the index read, [o] the index written, [n] the number of
    items still to read. *)
Fixpoint compact (items : list string) (i o n : nat)
  : list string * nat :=
  match n with
  | O => (items, o)
  | S n' =>
      match items !! i with
      | None => (items, o)
      | Some v0 =>
          let v := TrimSpace v0 in
          if negb (String.eqb "" v)
          then compact (<[o := v]> items) (S i) (S o) n'
          else compact items (S i) o n'
      end
  end.

(** [commaSeparated]; [None] is the nil slice. *)
Definition commaSeparated (str : string) (nilForSingle : bool)
  : option (list string) :=
  if negb (ContainsByte str ",") then
    if nilForSingle then None
    else
      let str := TrimSpace str in
      if String.eqb "" str then Some [] else Some [str]
  else
    let items := Split "," str in
    let '(items', o) := compact items 0 0 (length items) in
    Some (firstn o items').

(** [matches]. *)
Definition matches (mm : MetricMatcher) (s : Selector) : bool :=
  if (0 <? length (sel_Prefix s))%nat &&
     negb (existsb (fun p => HasPrefix (MDType mm) p) (sel_Prefix s))
  then false
  else if (0 <? length (sel_Suffix s))%nat &&
          negb (existsb (fun x => HasSuffix (Name mm) x) (sel_Suffix s))
  then false
  else if negb (String.eqb "" (sel_Only s)) &&
          negb (Contains (sel_Only s) (Kind mm) (Typ mm))
  then false
  else if negb (String.eqb "" (sel_Not s)) &&
          Contains (sel_Not s) (Kind mm) (Typ mm)
  then false
  else
    let units := match commaSeparated (sel_Unit s) false with
                 | Some l => l
                 | None => []
                 end in
    if (0 <? length units)%nat &&
       negb (existsb (fun u => String.eqb u (Unit mm)) units)
    then false
    else true.

(** The outer loop of [computeName], rule by rule. *)
Fixpoint computeName_rules (mm : MetricMatcher) (rules : list SuffixConf)
  : option MetricMatcher :=
  match rules with
  | [] => Some mm
  | s :: rest =>
      if negb (matches mm (For s)) then computeName_rules mm rest
      else
        match replaceSuffix (Name mm) (Replace s) (keys s) with
        | None => None
        | Some name => computeName_rules (withName mm name) rest
        end
  end.

(** [computeName]; [None] is a panic. *)
Definition computeName (mm : MetricMatcher) : option MetricMatcher :=
  match computeName_rules mm (Suffix (conf mm)) with
  | None => None
  | Some mm1 =>
      match sliceFrom 1 (Name mm1) with
      | None => None
      | Some rest =>
          Some (withSubSys (withName mm1 ("/" +:+ ReplaceAllString rest))
                  (ReplaceAllString (SubSys mm1)))
      end
  end.

(** [MatchMetric], given what [mon.MetricAbbrs] makes of the descriptor:
    [Some None] is the nil matcher, [None] a panic. *)
Definition MatchMetric (c : Configuration) (mdType : string)
    (kind typ : ascii) (unit : string) : option (option MetricMatcher) :=
  match subSystem mdType (Subsystem c) with
  | None => None
  | Some (subsys, name) =>
      if String.eqb "" subsys then Some None
      else
        match computeName {| conf := c; MDType := mdType; SubSys := subsys;
                             Name := name; Kind := kind; Typ := typ;
                             Unit := unit |} with
        | None => None
        | Some mm => Some (Some mm)
        end
  end.

End Matcher.

(** [GcpPrefixes]. *)
Definition GcpPrefixes (c : Configuration) (order : list string)
  : list string :=
  uniqueKeyPrefixes (Subsystem c) order.

(** ** A sample configuration *)

(** Stand-ins for the two functions taken as they come: white space as
    [strings.TrimSpace] removes it from ASCII text, and the [Contains] of
    the package's older version (either byte occurs in the set). *)
Definition isSpace (c : ascii) : bool :=
  let n := Z.of_N (N_of_ascii c) in
  (n =? 32) || ((9 <=? n) && (n <=? 13)).

Fixpoint trimLeft (s : string) : string :=
  match s with
  | EmptyString => ""
  | String c s' => if isSpace c then trimLeft s' else s
  end.

Fixpoint trimRight (s : string) : string :=
  match s with
  | EmptyString => ""
  | String c s' =>
      match trimRight s' with
      | EmptyString => if isSpace c then "" else String c ""
      | t => String c t
      end
  end.

Definition asciiTrimSpace (s : string) : string := trimRight (trimLeft s).

Definition containsEither (set : string) (k t : ascii) : bool :=
  ContainsByte set k || ContainsByte set t.

Definition sampleSubsystem : gmap string string :=
  <["bigquery.googleapis.com/query/" := "bq query"]>
    (<["bigquery.googleapis.com/" := "bigquery"]> ∅).

Definition sampleOrder : list string :=
  ["bigquery.googleapis.com/query/"; "bigquery.googleapis.com/"].

Definition sampleReplace : gmap string string :=
  <["/count" := "_total"]> (<["t" := "ts"]> ∅).

(** A rule that replaces a whole name by nothing. *)
Definition emptyingReplace : gmap string string := <["/count" := ""]> ∅.

Definition sampleSelector : Selector :=
  {| sel_Prefix := ["bigquery."]; sel_Suffix := []; sel_Only := "";
     sel_Not := ""; sel_Unit := "1, By" |}.

Definition sampleSuffixConf : SuffixConf :=
  {| For := sampleSelector; Replace := sampleReplace;
     keys := ["/count"; "t"] |}.

Definition sampleConfiguration : Configuration :=
  {| System := "gcp"; Subsystem := sampleSubsystem;
     Suffix := [sampleSuffixConf] |}.

Definition sampleType : string := "bigquery.googleapis.com/query/scan/count".

(** What [MatchMetric] makes of [sampleType], a cumulative integer metric
    of unit [1]. *)
Definition sampleMatcher : MetricMatcher :=
  {| conf := sampleConfiguration; MDType := sampleType;
     SubSys := "bq_query"; Name := "/scan_total";
     Kind := "C"; Typ := "I"; Unit := "1" |}.

End config.

(** * Package trace, continued *)

(** ** Span construction *)

(** The format [ZuluTime] is applied by the Go library; the rendering is a
    parameter of the model. *)
Section Registrar.

Variable TimeAsString : Time -> string.

Definition newSpan (roSpan : ROSpan) (c : option nat) : Span :=
  mkSpan roSpan c 0 0 None None 0 0.

Definition NewFactory (project : string) (queue : nat) : Span :=
  newSpan (NewROSpan project) (Some queue).

Definition withDetails (s : Span) (d : Ct2Span) : Span :=
  mkSpan (ro s) (ch s) (start s) (end_ s) (parent s) (Some d)
    (spanInc s) (kidSpan s).

Definition initDetails (s : Span) : Span :=
  let d := mkCt2Span "" (HexSpanID (GetSpanID s)) "" None "" "" "" None None
             false 0 in
  let d := if negb (IsZero (start s)) then
             mkCt2Span (Name d) (SpanId d) (ParentSpanId d) (DisplayName d)
               (TimeAsString (start s)) (EndTime d) (SpanKind d)
               (Attributes d) (StatusOf d) (SameProcessAsParentSpan d)
               (ChildSpanCount d)
           else d in
  let d := match parent s with
           | Some p =>
               mkCt2Span (Name d) (SpanId d) (HexSpanID (GetSpanID p))
                 (DisplayName d) (StartTime d) (EndTime d) (SpanKind d)
                 (Attributes d) (StatusOf d) (SameProcessAsParentSpan d)
                 (ChildSpanCount d)
           | None => d
           end in
  withDetails s d.

(** [logIfEmpty]: true, with a failure logged, for an empty or finished
    factory and, if [orImported], for an imported one.  The line for a
    finished factory reads [s.details.DisplayName]. *)
Definition logIfEmpty (s : Span) (orImported : bool) : M bool :=
  if GetSpanID s =? 0 then
    let* _ := lager LFail "Disallowed method called on empty spans.Factory" in
    ret true
  else if negb (IsZero (end_ s)) then
    match details s with
    | None => panic
    | Some _ =>
        let* _ := lager LFail
                    "Disallowed method called on Finish()ed spans.Factory" in
        ret true
    end
  else if orImported && IsZero (start s) then
    let* _ := lager LFail
                "Disallowed method called on Import()ed spans.Factory" in
    ret true
  else ret false.

Definition GetStart (s : Span) : Time := start s.

Definition GetDuration (s : Span) : Duration :=
  if IsZero (end_ s) then -1000000000 else end_ s - start s.

Definition Import (s : Span) (t : string) (id : Z) : option Span :=
  match ROSpan_Import (ro s) t id with
  | None => None
  | Some r => Some (newSpan r (ch s))
  end.

Definition NewTrace (dt : N) (s : Span) : M Span :=
  let* t := NewTraceID (GetTraceID s) in
  let* id := NewSpanID (GetSpanID s) in
  match ROSpan_Import (ro s) t id with
  | None =>
      let* _ := lager LFail "Impossibly got invalid trace/span ID" in
      ret (newSpan emptyROSpan (ch s))
  | Some r =>
      let sp := newSpan r (ch s) in
      let* now := time_Now dt in
      ret (initDetails
             (mkSpan (ro sp) (ch sp) now (end_ sp) (parent sp) (details sp)
                (spanInc sp) (kidSpan sp)))
  end.

(** [NewSubSpan]: the child it returns and the parent as it leaves it. *)
Definition NewSubSpan (dt : N) (s : Span) : M (Factory * Span) :=
  let* refused := if GetSpanID s =? 0 then logIfEmpty s false
                  else ret false in
  if refused then ret (FROSpan emptyROSpan, s)
  else
    let* s1 :=
      if kidSpan s =? 0 then
        let* r := NewSpanID 0 in
        ret (mkSpan (ro s) (ch s) (start s) (end_ s) (parent s) (details s)
               (Z.lor 1 r) (GetSpanID s))
      else ret s in
    let k := wrap64 (kidSpan s1 + spanInc s1) in
    let k := if k =? 0 then wrap64 (k + spanInc s1) else k in
    let d :=
      match details s1 with
      | Some d =>
          if IsZero (end_ s1) then
            Some (mkCt2Span (Name d) (SpanId d) (ParentSpanId d)
                    (DisplayName d) (StartTime d) (EndTime d) (SpanKind d)
                    (Attributes d) (StatusOf d) (SameProcessAsParentSpan d)
                    (wrapInt64 (ChildSpanCount d + 1)))
          else Some d
      | None => None
      end in
    let s2 := mkSpan (ro s1) (ch s1) (start s1) (end_ s1) (parent s1) d
                (spanInc s1) k in
    let kid := newSpan (SetSpanID (ro s2) k) (ch s2) in
    let* now := time_Now dt in
    let kid := initDetails
                 (mkSpan (ro kid) (ch kid) now (end_ kid) (Some s2)
                    (details kid) (spanInc kid) (kidSpan kid)) in
    let kid :=
      if negb (IsZero (start s2)) then
        match details kid with
        | Some d =>
            withDetails kid
              (mkCt2Span (Name d) (SpanId d) (ParentSpanId d) (DisplayName d)
                 (StartTime d) (EndTime d) (SpanKind d) (Attributes d)
                 (StatusOf d) true (ChildSpanCount d))
        | None => kid
        end
      else kid in
    ret (FSpan kid, s2).

Definition NewSpan (dt : N) (s : Span) : M (Factory * Span) :=
  if GetSpanID s =? 0 then
    let* t := NewTrace dt s in ret (FSpan t, s)
  else NewSubSpan dt s.

(** ** Mutators

    Each of the chainable mutators ends in [return s]: the span it gives
    back is the receiver as the call leaves it. *)

Definition setSpanKind (kind : string) (s : Span) : M Span :=
  let* refused := logIfEmpty s true in
  if refused then ret s
  else
    match details s with
    | None => panic
    | Some d =>
        ret (withDetails s
               (mkCt2Span (Name d) (SpanId d) (ParentSpanId d) (DisplayName d)
                  (StartTime d) (EndTime d) kind (Attributes d) (StatusOf d)
                  (SameProcessAsParentSpan d) (ChildSpanCount d)))
    end.

Definition SetIsServer : Span -> M Span := setSpanKind "SERVER".
Definition SetIsClient : Span -> M Span := setSpanKind "CLIENT".
Definition SetIsPublisher : Span -> M Span := setSpanKind "PRODUCER".
Definition SetIsSubscriber : Span -> M Span := setSpanKind "CONSUMER".

Definition SetDisplayName (desc : string) (s : Span) : M Span :=
  let* refused := logIfEmpty s true in
  if refused then ret s
  else
    match details s with
    | None => panic
    | Some d =>
        ret (withDetails s
               (mkCt2Span (Name d) (SpanId d) (ParentSpanId d)
                  (if String.eqb desc "" then None else Some desc)
                  (StartTime d) (EndTime d) (SpanKind d) (Attributes d)
                  (StatusOf d) (SameProcessAsParentSpan d)
                  (ChildSpanCount d)))
    end.

(** A Go [interface{}] argument, by the cases the type switch of
    [addAttribute] tells apart.  [VError] and [VStringer] carry what the
    value's [Error()] or [String()] returns, [VOther] the name of a type the
    switch does not know. *)
Inductive Value :=
  | VNil
  | VString (s : string)
  | VInt64 (i : Z)
  | VInt (i : Z)
  | VBool (b : bool)
  | VError (msg : string)
  | VStringer (str : string)
  | VOther (typeName : string).

Definition typeName (v : Value) : string :=
  match v with
  | VNil => "<nil>"
  | VString _ => "string"
  | VInt64 _ => "int64"
  | VInt _ => "int"
  | VBool _ => "bool"
  | VError _ => "error"
  | VStringer _ => "Stringer"
  | VOther t => t
  end.

(** The outcome of the type switch of [addAttribute]. *)
Inductive Converted :=
  | Skip
  | Invalid
  | Attr (av : AttributeValue).

Definition convert (val : Value) (noZero : bool) : Converted :=
  if noZero && match val with VNil => true | _ => false end then Skip
  else
    match val with
    | VString t => Attr (mkAV (Some t) 0 false)
    | VInt64 t => if noZero && (t =? 0) then Skip else Attr (mkAV None t false)
    | VInt t => if noZero && (t =? 0) then Skip else Attr (mkAV None t false)
    | VBool t => if noZero && negb t then Skip else Attr (mkAV None 0 t)
    | VError t => Attr (mkAV (Some t) 0 false)
    | VStringer t => Attr (mkAV (Some t) 0 false)
    | VNil | VOther _ => Invalid
    end.

(** [addAttribute]: the error it returns ([None] for nil) and the receiver
    as it leaves it. *)
Definition addAttribute (key : string) (val : Value) (noZero : bool)
    (s : Span) : M (option string * Span) :=
  if String.eqb key "" then
    ret (Some "AddAttribute(): 'key' must not be empty string", s)
  else
    match convert val noZero with
    | Skip => ret (None, s)
    | Invalid =>
        ret (Some ("AddAttribute(): Invalid value type (" +:+ typeName val
                     +:+ ")"), s)
    | Attr av =>
        match details s with
        | None => panic
        | Some d =>
            let m := match Attributes d with
                     | None => ∅
                     | Some m => m
                     end in
            ret (None,
                 withDetails s
                   (mkCt2Span (Name d) (SpanId d) (ParentSpanId d)
                      (DisplayName d) (StartTime d) (EndTime d) (SpanKind d)
                      (Some (<[key := av]> m)) (StatusOf d)
                      (SameProcessAsParentSpan d) (ChildSpanCount d)))
        end
    end.

Definition AddAttribute (key : string) (val : Value) (s : Span)
  : M (option string * Span) :=
  let* refused := logIfEmpty s true in
  if refused then ret (None, s)
  else addAttribute key val false s.

(** The loop of [AddPairs] over the arguments from index [i] on. *)
Fixpoint AddPairs_loop (pairs : list Value) (s : Span) : M Span :=
  match pairs with
  | [] => ret s
  | [_] =>
      let* _ := lager LFail
                  "Ignoring unpaired last arg to trace.Span AddPairs()" in
      ret s
  | VString key :: val :: rest =>
      let* r := addAttribute key val true s in
      let* _ := match fst r with
                | Some _ => lager LFail "Error adding attribute to Span"
                | None => ret tt
                end in
      AddPairs_loop rest (snd r)
  | _ :: _ :: rest =>
      let* _ := lager LFail "Non-string key passed to trace.Span AddPairs()" in
      AddPairs_loop rest s
  end.

Definition AddPairs (pairs : list Value) (s : Span) : M Span :=
  let* refused := logIfEmpty s true in
  if refused then ret s else AddPairs_loop pairs s.

Definition withStatus (s : Span) (d : Ct2Span) (st : Status) : Span :=
  withDetails s
    (mkCt2Span (Name d) (SpanId d) (ParentSpanId d) (DisplayName d)
       (StartTime d) (EndTime d) (SpanKind d) (Attributes d) (Some st)
       (SameProcessAsParentSpan d) (ChildSpanCount d)).

Definition SetStatusCode (code : Z) (s : Span) : M Span :=
  let* refused := logIfEmpty s true in
  if refused then ret s
  else
    match details s with
    | None => panic
    | Some d =>
        let st := match StatusOf d with
                  | None => mkStatus 0 ""
                  | Some st => st
                  end in
        ret (withStatus s d (mkStatus code (Message st)))
    end.

Definition SetStatusMessage (msg : string) (s : Span) : M Span :=
  let* refused := logIfEmpty s true in
  if refused then ret s
  else
    match details s with
    | None => panic
    | Some d =>
        let st := match StatusOf d with
                  | None => mkStatus 0 ""
                  | Some st => st
                  end in
        ret (withStatus s d (mkStatus (Code st) msg))
    end.

(** [Finish]: the duration it returns and the receiver as it leaves it. *)
Definition Finish (dt : N) (s : Span) : M (Duration * Span) :=
  let* refused := logIfEmpty s true in
  if refused then ret (0, s)
  else
    match details s with
    | None => panic
    | Some d =>
        let* s1 := match DisplayName d with
                   | None => let* a := os_Args0 in SetDisplayName a s
                   | Some _ => ret s
                   end in
        let* now := time_Now dt in
        match details s1 with
        | None => panic
        | Some d1 =>
            let s2 :=
              mkSpan (ro s1) (ch s1) (start s1) now (parent s1)
                (Some (mkCt2Span (Name d1) (SpanId d1) (ParentSpanId d1)
                         (DisplayName d1) (StartTime d1) (TimeAsString now)
                         (SpanKind d1) (Attributes d1) (StatusOf d1)
                         (SameProcessAsParentSpan d1) (ChildSpanCount d1)))
                (spanInc s1) (kidSpan s1) in
            let* sent := trySend (ch s2) s2 in
            let* _ := if sent then ret tt else spanDropped in
            ret (end_ s2 - start s2, s2)
        end
    end.

(** ** Calls on one span

    What a method returns: the receiver itself ([return s]), a new factory,
    an error, or a duration. *)
Inductive Ret :=
  | RetReceiver
  | RetFactory (f : Factory)
  | RetError (e : option string)
  | RetDuration (d : Duration).

Inductive Call :=
  | CNewSubSpan (dt : N)
  | CSetIsServer
  | CSetIsClient
  | CSetIsPublisher
  | CSetIsSubscriber
  | CSetDisplayName (desc : string)
  | CAddAttribute (key : string) (val : Value)
  | CAddPairs (pairs : list Value)
  | CSetStatusCode (code : Z)
  | CSetStatusMessage (msg : string)
  | CFinish (dt : N)
  | CWriterName (path : string).

Definition returning (r : Ret) (m : M Span) : M (Ret * Span) :=
  let* s := m in ret (r, s).

(** [CWriterName] is not a method: it is the store to [details.Name] that a
    writer makes through the details pointer a queued copy shares with the
    span it was copied from. *)
Definition call (c : Call) (s : Span) : M (Ret * Span) :=
  match c with
  | CNewSubSpan dt =>
      let* r := NewSubSpan dt s in ret (RetFactory (fst r), snd r)
  | CSetIsServer => returning RetReceiver (SetIsServer s)
  | CSetIsClient => returning RetReceiver (SetIsClient s)
  | CSetIsPublisher => returning RetReceiver (SetIsPublisher s)
  | CSetIsSubscriber => returning RetReceiver (SetIsSubscriber s)
  | CSetDisplayName desc => returning RetReceiver (SetDisplayName desc s)
  | CAddAttribute key val =>
      let* r := AddAttribute key val s in ret (RetError (fst r), snd r)
  | CAddPairs pairs => returning RetReceiver (AddPairs pairs s)
  | CSetStatusCode code => returning RetReceiver (SetStatusCode code s)
  | CSetStatusMessage msg => returning RetReceiver (SetStatusMessage msg s)
  | CFinish dt =>
      let* r := Finish dt s in ret (RetDuration (fst r), snd r)
  | CWriterName path =>
      match details s with
      | None => panic
      | Some d =>
          ret (RetReceiver,
               withDetails s
                 (mkCt2Span (path +:+ "/" +:+ GetSpanPath (ro s)) (SpanId d)
                    (ParentSpanId d) (DisplayName d) (StartTime d)
                    (EndTime d) (SpanKind d) (Attributes d) (StatusOf d)
                    (SameProcessAsParentSpan d) (ChildSpanCount d)))
      end
  end.

(** A sequence of calls on the same span: for each call the receiver as
    the call found it and what the call returned, and the receiver at the
    end. *)
Fixpoint calls (cs : list Call) (s : Span) : M (list (Span * Ret) * Span) :=
  match cs with
  | [] => ret ([], s)
  | c :: rest =>
      let* r := call c s in
      let* rs := calls rest (snd r) in
      ret ((s, fst r) :: fst rs, snd rs)
  end.

(** Whether an entry of such a history is a [NewSubSpan] that returned a
    child while the receiver's [end] was zero. *)
Definition countedChild (e : Span * Ret) : bool :=
  match snd e with
  | RetFactory (FSpan _) => IsZero (end_ (fst e))
  | _ => false
  end.

(** [n] successive [NewSubSpan] calls on one parent: the children, oldest
    first, and the parent as the last call leaves it. *)
Fixpoint NewSubSpans (dts : list N) (s : Span) : M (list Factory * Span) :=
  match dts with
  | [] => ret ([], s)
  | dt :: rest =>
      let* r := NewSubSpan dt s in
      let* rs := NewSubSpans rest (snd r) in
      ret (fst r :: fst rs, snd rs)
  end.

(** ** States of a span, and what the model assumes of them *)

(** Live: not empty, started, not finished. *)
Definition live (s : Span) : Prop :=
  GetSpanID s <> 0 /\ start s <> 0 /\ end_ s = 0.

(** What holds of every span the package builds: the 64-bit fields are in
    range, the stride is odd once the walker has started, and a span that
    was started or finished has its details record. *)
Definition wf (s : Span) : Prop :=
  isU64 (GetSpanID s) /\ isU64 (kidSpan s) /\ isU64 (spanInc s) /\
  (kidSpan s <> 0 -> Z.odd (spanInc s) = true) /\
  (start s <> 0 \/ end_ s <> 0 -> details s <> None).

(** The walker of [s] stands [m] strides from the span's own ID. *)
Definition strideOf (s : Span) (m : Z) : Prop :=
  kidSpan s = wrap64 (GetSpanID s + m * spanInc s).

(** The stride count that follows [m]: one more, or two more where one
    more would give the ID zero. *)
Definition nextStride (inc base m : Z) : Z :=
  if wrap64 (base + (m + 1) * inc) =? 0 then m + 2 else m + 1.

(** The walker has not gone through its whole period: its next stride
    count is below 2^64, where the walk is back at the span's own ID. *)
Definition withinPeriod (s : Span) : Prop :=
  kidSpan s = 0 \/
  exists m, 0 <= m /\ strideOf s m /\
            nextStride (spanInc s) (GetSpanID s) m < 2 ^ 64.

(** A draw that ends the loop of [NewSpanID]. *)
Definition goodDraw (oldSpanID d : Z) : bool :=
  negb (wrap64 (oldSpanID + wrap64 d) =? 0).

(** The reads of the cryptographic source that succeed with a nonzero
    value, counted from the next one up to the first that does not. *)
Fixpoint goodReads (rs : list (option Z)) : nat :=
  match rs with
  | Some v :: rest => if wrap64 v =? 0 then O else S (goodReads rest)
  | _ => O
  end.

(** The random sources have enough in store for [n] calls of
    [NewSpanID(0)]: the next [n] reads of the cryptographic source are good,
    or the pseudo-random one still has [n] nonzero draws. *)
Definition supplies (n : nat) (w : World) : Prop :=
  (n <= goodReads (crand w))%nat \/
  (n <= length (List.filter (goodDraw 0) (mrand w)))%nat.

(** [w'] differs from [w] at most in the random supplies, the warning latch
    and the log. *)
Definition sameButRandom (w w' : World) : Prop :=
  clock w' = clock w /\ argv0 w' = argv0 w /\ chans w' = chans w /\
  dropped w' = dropped w /\
  (logged w' = logged w \/ exists l, logged w' = (logged w ++ [l])%list).

(** The queue of a span: whether [Halt] has closed it, whether a receiver
    is blocked on it, and whether its buffer can take one more span.  A nil
    channel is not closed, has no receiver and no room. *)
Definition queueClosed (c : option nat) (w : World) : bool :=
  match c with
  | Some h =>
      match chans w !! h with
      | Some q => closed q
      | None => false
      end
  | None => false
  end.

Definition receiverParked (c : option nat) (w : World) : bool :=
  match c with
  | Some h =>
      match chans w !! h with
      | Some q => (0 <? parked q)%nat
      | None => false
      end
  | None => false
  end.

Definition hasRoom (c : option nat) (w : World) : bool :=
  match c with
  | Some h =>
      match chans w !! h with
      | Some q => (length (buf q) <? cap q)%nat
      | None => false
      end
  | None => false
  end.

(** What [logIfEmpty] answers, and the line it logs when it refuses. *)
Definition refused (s : Span) (orImported : bool) : bool :=
  (GetSpanID s =? 0) || negb (IsZero (end_ s)) ||
  (orImported && IsZero (start s)).

Definition refusalLine (s : Span) : string :=
  if GetSpanID s =? 0 then "Disallowed method called on empty spans.Factory"
  else if negb (IsZero (end_ s)) then
    "Disallowed method called on Finish()ed spans.Factory"
  else "Disallowed method called on Import()ed spans.Factory".

(** The parent as a [NewSubSpan] that issues the ID [k] with stride [inc]
    leaves it. *)
Definition afterSubSpan (s : Span) (inc k : Z) : Span :=
  mkSpan (ro s) (ch s) (start s) (end_ s) (parent s)
    (match details s with
     | Some d =>
         if IsZero (end_ s) then
           Some (mkCt2Span (Name d) (SpanId d) (ParentSpanId d)
                   (DisplayName d) (StartTime d) (EndTime d) (SpanKind d)
                   (Attributes d) (StatusOf d) (SameProcessAsParentSpan d)
                   (wrapInt64 (ChildSpanCount d + 1)))
         else Some d
     | None => None
     end)
    inc k.

(** The child that [NewSubSpan] builds at time [now] for a parent it leaves
    as [p], with the ID [k]. *)
Definition childOf (p : Span) (k : Z) (now : Time) : Span :=
  mkSpan (SetSpanID (ro p) k) (ch p) now 0 (Some p)
    (Some (mkCt2Span "" (HexSpanID k) (HexSpanID (GetSpanID p)) None
             (if negb (IsZero now) then TimeAsString now else "") "" ""
             None None (negb (IsZero (start p))) 0))
    0 0.

(** The mutators of the factory interface, and what each returns when it
    refuses the call. *)
Definition isMutator (c : Call) : bool :=
  match c with
  | CNewSubSpan _ | CFinish _ | CWriterName _ => false
  | _ => true
  end.

Definition refusedReturn (c : Call) : Ret :=
  match c with
  | CAddAttribute _ _ => RetError None
  | _ => RetReceiver
  end.

(** The values [AddPairs] drops without a word: nil, a zero [int] or
    [int64], and false. *)
Definition isZeroValue (v : Value) : bool :=
  match v with
  | VNil => true
  | VInt64 i | VInt i => i =? 0
  | VBool b => negb b
  | _ => false
  end.

(** The span [s], whose details are [d], with one more attribute. *)
Definition withAttribute (s : Span) (d : Ct2Span) (key : string)
    (av : AttributeValue) : Span :=
  withDetails s
    (mkCt2Span (Name d) (SpanId d) (ParentSpanId d) (DisplayName d)
       (StartTime d) (EndTime d) (SpanKind d)
       (Some (<[key := av]> (match Attributes d with
                             | None => ∅
                             | Some m => m
                             end)))
       (StatusOf d) (SameProcessAsParentSpan d) (ChildSpanCount d)).

(** [s'] is [s] but for what its details record holds. *)
Definition sameButDetails (s s' : Span) : Prop :=
  ro s' = ro s /\ ch s' = ch s /\ start s' = start s /\
  end_ s' = end_ s /\ parent s' = parent s /\ spanInc s' = spanInc s /\
  kidSpan s' = kidSpan s /\ (details s = None <-> details s' = None).

(** Whether a factory is a span, as opposed to the empty [ROSpan]. *)
Definition isSpan (f : Factory) : bool :=
  match f with
  | FSpan _ => true
  | FROSpan _ => false
  end.

(** [s'] has its details if [s] has, with the same child count. *)
Definition keepsCount (s s' : Span) : Prop :=
  forall d, details s = Some d ->
            exists d', details s' = Some d' /\
                       ChildSpanCount d' = ChildSpanCount d.

Definition isInt64 (x : Z) : Prop := - 2 ^ 63 <= x < 2 ^ 63.

(** The stride counts the walk passes through, starting [m] strides from
    [base]: one more on every call, two more where the next would be zero. *)
Fixpoint walkIdx (inc base m : Z) (n : nat) : list Z :=
  match n with
  | O => []
  | S n' =>
      let m1 := if wrap64 (base + (m + 1) * inc) =? 0 then m + 2 else m + 1 in
      m1 :: walkIdx inc base m1 n'
  end.

(** Strictly increasing stride counts within [(lo, hi]]. *)
Definition Incr (lo hi : Z) (l : list Z) : Prop :=
  StronglySorted Z.lt l /\ Forall (fun i => lo < i <= hi) l.

(** ** Sample spans and worlds *)

Definition sampleZulu (when : Time) : string := "2006-01-02T15:04:05Z".

Definition sampleRO : ROSpan :=
  mkROSpan "proj" "0123456789abcdef0123456789abcdef" 5.

Definition sampleDetails : Ct2Span :=
  mkCt2Span "" "0000000000000005" "" None "2006-01-02T15:04:05Z" "" ""
    None None false 0.

(** A live span, a finished one, and one imported from a header. *)
Definition sampleLive : Span :=
  mkSpan sampleRO (Some O) 100 0 None (Some sampleDetails) 0 0.

Definition sampleFinished : Span :=
  mkSpan sampleRO (Some O) 100 120 None
    (Some (mkCt2Span "" "0000000000000005" "" (Some "server")
             "2006-01-02T15:04:05Z" "2006-01-02T15:04:05Z" "" None None
             false 0))
    0 0.

Definition sampleImported : Span :=
  mkSpan (mkROSpan "proj" "0123456789abcdef0123456789abcdef" (2 ^ 64 - 1))
    (Some O) 0 0 None None 0 0.

(** The imported span after 2^64 - 2 sub-spans with the stride 1: its
    walker has gone round the whole 64-bit space. *)
Definition sampleWrapped : Span :=
  mkSpan (mkROSpan "proj" "0123456789abcdef0123456789abcdef" (2 ^ 64 - 1))
    (Some O) 0 0 None None 1 (2 ^ 64 - 2).

(** A sentinel of [WaitForIdleRunners], whose replies go to channel 1. *)
Definition sampleSentinel : Span :=
  mkSpan emptyROSpan (Some 1%nat) 0 0 None None 0 0.

(** A world whose queue, channel 0, has room for four spans. *)
Definition sampleWorld : World :=
  mkWorld 150 "server" [Some 1; Some 9; Some 11] [3; 5] false []
    {[ O := mkChan [] 4 false 0 [] ]} 0.

Definition sampleRegistrar : Registrar := mkRegistrar "proj" 2 (Some O).

(** The same world once [Halt] has closed the queue. *)
Definition haltedWorld : World :=
  mkWorld 150 "server" [Some 1; Some 9; Some 11] [3; 5] false []
    {[ O := mkChan [] 4 true 0 [] ]} 0.



Definition unbufferedWorld : World :=
  mkWorld 150 "server" [Some 1; Some 9; Some 11] [3; 5] false []
    {[ O := mkChan [] 0 false 1 [] ]} 0.

(** ** More of the package: drivers and observations *)

(** [Registrar.NewFactory] on the registrar as it is: after [Halt] its
    queue is nil, and so is the channel of the factories it makes. *)
Definition Registrar_NewFactory (r : Registrar) : Span :=
  newSpan (NewROSpan (reg_proj r)) (reg_queue r).


(** The world after a read of the cryptographic source that leaves
    [rest]. *)
Definition afterRead (rest : list (option Z)) (w : World) : World :=
  mkWorld (clock w) (argv0 w) rest (mrand w) (warned w) (logged w)
    (chans w) (dropped w).

(** The warnings among the lines of a log. *)
Definition warnings (l : list (Level * string)) : list (Level * string) :=
  List.filter (fun e => match fst e with LWarn => true | _ => false end) l.

(** The attribute map of a details record, empty while the pointer is
    nil. *)
Definition attrsOf (d : Ct2Span) : gmap string AttributeValue :=
  match Attributes d with
  | None => ∅
  | Some m => m
  end.

(** What the arguments of an [AddPairs] call leave under [key], given what
    was there: the value of the last pair with that key whose value is
    neither dropped nor refused. *)
Fixpoint pairValue (key : string) (pairs : list Value)
    (acc : option AttributeValue) : option AttributeValue :=
  match pairs with
  | VString k :: val :: rest =>
      pairValue key rest
        (if negb (String.eqb k "") && String.eqb k key then
           match convert val true with
           | Attr av => Some av
           | _ => acc
           end
         else acc)
  | _ :: _ :: rest => pairValue key rest acc
  | _ => acc
  end.

(** Two details records that differ at most in their attributes. *)
Definition sameButAttributes (d d' : Ct2Span) : Prop :=
  Name d' = Name d /\ SpanId d' = SpanId d /\
  ParentSpanId d' = ParentSpanId d /\ DisplayName d' = DisplayName d /\
  StartTime d' = StartTime d /\ EndTime d' = EndTime d /\
  SpanKind d' = SpanKind d /\ StatusOf d' = StatusOf d /\
  SameProcessAsParentSpan d' = SameProcessAsParentSpan d /\
  ChildSpanCount d' = ChildSpanCount d.

(** The most spans a writer with batch size [maxSpans] puts in one
    write: a batch size below 1 still lets one span through. *)
Definition batchLimit (maxSpans : Z) : Z := Z.max 1 maxSpans.

(** The failure lines of a trace, and the writes counted as failed. *)
Definition failLines (l : list (Level * string)) : nat :=
  length (List.filter
            (fun e => match fst e with LFail => true | _ => false end) l).

Definition failOutcomes (l : list string) : nat :=
  length (List.filter (String.eqb "fail") l).

(** What a writer keeps true from one pass of its loop to the next: the
    timer runs only over a batch that has spans, the batch stays below the
    limit and the batches written were within it, every write was counted
    once, as failed where it was logged as failed, and the loop has never
    found the batch empty at a timeout. *)
Definition writerInv (maxSpans : Z) (t : Writer) : Prop :=
  (timeoutOn t = true -> batch t <> [] /\ timerMade t = true) /\
  Z.of_nat (length (batch t)) < batchLimit maxSpans /\
  Forall (fun b => 0 < Z.of_nat (length (snd b)) <= batchLimit maxSpans)
    (written t) /\
  length (created t) = length (written t) /\
  failLines (traced t) = failOutcomes (created t) /\
  ~ List.In (LTrace, "Span batch empty after timeout?!") (traced t).

(** The same in the middle of a pass, when the span just appended may have
    filled the batch. *)
Definition writerMid (maxSpans : Z) (t : Writer) : Prop :=
  (timeoutOn t = true -> batch t <> [] /\ timerMade t = true) /\
  Z.of_nat (length (batch t)) <= batchLimit maxSpans /\
  Forall (fun b => 0 < Z.of_nat (length (snd b)) <= batchLimit maxSpans)
    (written t) /\
  length (created t) = length (written t) /\
  failLines (traced t) = failOutcomes (created t) /\
  ~ List.In (LTrace, "Span batch empty after timeout?!") (traced t).

(** Whether a received span is a sentinel that asks for an answer: its
    span ID is zero and its channel is not the queue itself. *)
Definition asksReply (queue : nat) (sp : Span) : bool :=
  (GetSpanID sp =? 0) &&
  match ch sp with
  | Some c => negb (c =? queue)%nat
  | None => false
  end.

(** The answers a writer owes for what it has read before the queue
    closes: one to each such sentinel, on the sentinel's channel, in the
    order read. *)
Fixpoint replies (queue : nat) (evs : list (Event * Rpc))
  : list (nat * Span) :=
  match evs with
  | [] => []
  | (QueueClosed, _) :: _ => []
  | (TimedOut, _) :: rest => replies queue rest
  | (Received sp _, _) :: rest =>
      if asksReply queue sp then
        match ch sp with
        | Some c => (c, sp) :: replies queue rest
        | None => replies queue rest
        end
      else replies queue rest
  end.

(** Whether the events hold no close of the queue. *)
Definition staysOpen (evs : list (Event * Rpc)) : bool :=
  forallb (fun e => match fst e with QueueClosed => false | _ => true end)
    evs.

(** ** Configuration from the environment *)

(** [strconv.ParseInt(s, 10, 32)], library code: an optional sign, then
    decimal digits and nothing else, for a value that fits 32 bits; [None]
    where the library reports an error. *)
Definition isDigit (c : ascii) : bool :=
  let n := Z.of_N (N_of_ascii c) in (48 <=? n) && (n <=? 57).

Fixpoint decimalValue (s : string) (acc : Z) : option Z :=
  match s with
  | EmptyString => Some acc
  | String c s' =>
      if isDigit c then
        decimalValue s' (10 * acc + (Z.of_N (N_of_ascii c) - 48))
      else None
  end.

Definition ParseInt10_32 (s : string) : option Z :=
  match s with
  | EmptyString => None
  | String c rest =>
      let neg := Ascii.eqb c "-" in
      let digits := if Ascii.eqb c "+" || neg then rest else s in
      match digits with
      | EmptyString => None
      | _ =>
          match decimalValue digits 0 with
          | None => None
          | Some n =>
              if neg then (if n <=? 2 ^ 31 then Some (- n) else None)
              else if n <? 2 ^ 31 then Some n
              else None
          end
      end
  end.

(** What a function that returns an [int] but may end the process through
    [lager.Exit] comes to. *)
Inductive Exits :=
  | Returned (i : Z)
  | Exit (msg : string).

(** [EnvInteger], over the environment as a map: [os.Getenv] gives the
    empty string for a variable that is not set. *)
Definition EnvInteger (tacit : Z) (envvar : string)
    (env : gmap string string) : Exits :=
  if String.eqb envvar "" then
    Exit "Empty environment variable name passed to EnvInteger()"
  else
    let val := match env !! envvar with
               | Some v => v
               | None => ""
               end in
    if String.eqb val "" then Returned tacit
    else
      match ParseInt10_32 val with
      | None => Exit "Invalid integer value"
      | Some i => Returned i
      end.

(** A number in [n] decimal digits, with leading zeros. *)
Fixpoint decN (n : nat) (x : Z) (acc : string) : string :=
  match n with
  | O => acc
  | S n' =>
      decN n' (x / 10)
        (String (ascii_of_N (Z.to_N (48 + x mod 10))) acc)
  end.

(** * Properties *)

(** ** Machine integers *)

Lemma wrap64_range (x : Z) : isU64 (wrap64 x).
Proof. unfold isU64, wrap64. apply Z.mod_pos_bound. lia. Qed.

Lemma wrap64_small (x : Z) : isU64 x -> wrap64 x = x.
Proof. unfold isU64, wrap64. intros H. apply Z.mod_small. exact H. Qed.

Lemma wrap64_add_l (a b : Z) : wrap64 (wrap64 a + b) = wrap64 (a + b).
Proof. unfold wrap64. apply Zplus_mod_idemp_l. Qed.

Lemma wrap64_add_r (a b : Z) : wrap64 (a + wrap64 b) = wrap64 (a + b).
Proof. unfold wrap64. apply Zplus_mod_idemp_r. Qed.

Lemma wrap64_zero_iff (x : Z) : wrap64 x = 0 <-> (2 ^ 64 | x).
Proof.
  unfold wrap64. split.
  - intros H. apply Z.mod_divide; [lia | exact H].
  - intros H. apply Z.mod_divide in H; [exact H | lia].
Qed.

Lemma wrap64_eq_iff (a b : Z) : wrap64 a = wrap64 b <-> (2 ^ 64 | a - b).
Proof.
  unfold wrap64. split; intros H.
  - apply Z.mod_divide; [lia |].
    rewrite Zminus_mod, H, Z.sub_diag. reflexivity.
  - destruct H as [q Hq].
    replace a with (b + q * 2 ^ 64) by lia.
    apply Z_mod_plus_full.
Qed.

Lemma odd_coprime_two64 (inc : Z) :
  Z.odd inc = true -> Z.gcd (2 ^ 64) inc = 1.
Proof.
  intros Hodd. apply (Z.coprime_pow_l 2 inc 64); [lia |].
  apply Z.coprime_Bezout.
  apply Z.odd_spec in Hodd. destruct Hodd as [q Hq].
  exists (- q), 1. lia.
Qed.

(** An odd stride is invertible modulo 2^64: a multiple of it that is 0
    modulo 2^64 is a multiple of 2^64 itself. *)
Lemma odd_stride_divide (inc d : Z) :
  Z.odd inc = true -> (2 ^ 64 | d * inc) -> (2 ^ 64 | d).
Proof.
  intros Hodd Hdiv. apply Z.gauss with (m := inc).
  - rewrite Z.mul_comm. exact Hdiv.
  - apply odd_coprime_two64. exact Hodd.
Qed.

Lemma odd_stride_nonzero (inc d : Z) :
  Z.odd inc = true -> 0 < d < 2 ^ 64 -> wrap64 (d * inc) <> 0.
Proof.
  intros Hodd Hd H. apply wrap64_zero_iff in H.
  apply odd_stride_divide in H; [| exact Hodd].
  destruct H as [q Hq]. nia.
Qed.

Lemma lor_one (r : Z) :
  0 <= r -> Z.lor 1 r = if Z.odd r then r else r + 1.
Proof.
  intros Hr. destruct r as [| p | p]; [reflexivity | | lia].
  destruct p; reflexivity.
Qed.

Lemma lor_one_odd (r : Z) : 0 <= r -> Z.odd (Z.lor 1 r) = true.
Proof.
  intros Hr. rewrite lor_one by exact Hr.
  destruct (Z.odd r) eqn:E; [exact E |].
  rewrite Z.odd_add. rewrite E. reflexivity.
Qed.

Lemma lor_one_range (r : Z) : isU64 r -> isU64 (Z.lor 1 r).
Proof.
  unfold isU64. intros Hr. rewrite lor_one by lia.
  destruct (Z.odd r) eqn:E; [exact Hr |].
  assert (r <> 2 ^ 64 - 1) by (intros ->; discriminate E).
  lia.
Qed.


(** ** The sub-span walker *)

Lemma walkStep_stride (inc base m : Z) :
  walkStep inc (wrap64 (base + m * inc)) =
  wrap64 (base + (if wrap64 (base + (m + 1) * inc) =? 0 then m + 2
                  else m + 1) * inc).
Proof.
  unfold walkStep. rewrite wrap64_add_l.
  replace (base + m * inc + inc) with (base + (m + 1) * inc) by lia.
  destruct (wrap64 (base + (m + 1) * inc) =? 0); [| reflexivity].
  rewrite wrap64_add_l. f_equal. lia.
Qed.

Lemma walk_strides (inc base : Z) (n : nat) :
  forall m,
    walk inc (wrap64 (base + m * inc)) n =
    map (fun i => wrap64 (base + i * inc)) (walkIdx inc base m n).
Proof.
  induction n as [| n IH]; intros m; [reflexivity |].
  cbn [walk walkIdx map]. rewrite walkStep_stride. f_equal. apply IH.
Qed.

Lemma walkStep_nonzero (inc kid : Z) :
  Z.odd inc = true -> walkStep inc kid <> 0.
Proof.
  intros Hodd. unfold walkStep.
  destruct (wrap64 (kid + inc) =? 0) eqn:E.
  - apply Z.eqb_eq in E. rewrite E. cbn [Z.add].
    replace inc with (1 * inc) by lia.
    apply odd_stride_nonzero; [exact Hodd | lia].
  - apply Z.eqb_neq in E. exact E.
Qed.

Lemma walkStep_range (inc kid : Z) : isU64 (walkStep inc kid).
Proof.
  unfold walkStep. destruct (wrap64 (kid + inc) =? 0); apply wrap64_range.
Qed.

(** Two stride counts less than a period apart give different IDs. *)
Lemma strides_differ (inc base i j : Z) :
  Z.odd inc = true -> i < j -> j - i < 2 ^ 64 ->
  wrap64 (base + i * inc) <> wrap64 (base + j * inc).
Proof.
  intros Hodd Hij Hper H. symmetry in H. apply wrap64_eq_iff in H.
  replace (base + j * inc - (base + i * inc)) with ((j - i) * inc) in H
    by lia.
  apply odd_stride_divide in H; [| exact Hodd].
  destruct H as [q Hq]. nia.
Qed.

Ltac weaken H :=
  eapply List.Forall_impl; [| exact H]; cbn; intros; lia.

(** Past a zero at stride [z], the walk meets no zero for a whole period:
    it advances by single strides. *)
Lemma walkIdx_after_zero (inc base z : Z) (n : nat) :
  Z.odd inc = true -> wrap64 (base + z * inc) = 0 ->
  forall m, z < m -> m + Z.of_nat n < z + 2 ^ 64 ->
            Incr m (m + Z.of_nat n) (walkIdx inc base m n).
Proof.
  intros Hodd Hz. induction n as [| n IH]; intros m Hm Hn.
  - split; constructor.
  - cbn [walkIdx].
    destruct (wrap64 (base + (m + 1) * inc) =? 0) eqn:E.
    + exfalso. apply Z.eqb_eq in E.
      apply (strides_differ inc base z (m + 1) Hodd); [lia | lia |].
      rewrite Hz, E. reflexivity.
    + destruct (IH (m + 1)) as [Hs Hb]; [lia | lia |].
      split.
      * constructor; [exact Hs |].
        weaken Hb.
      * constructor; [lia |].
        weaken Hb.
Qed.

(** Fewer than 2^64 steps of the walk skip at most one zero. *)
Lemma walkIdx_incr (inc base : Z) (n : nat) :
  Z.odd inc = true -> Z.of_nat n < 2 ^ 64 ->
  forall m, Incr m (m + Z.of_nat n + 1) (walkIdx inc base m n).
Proof.
  intros Hodd. induction n as [| n IH]; intros Hn m.
  - split; constructor.
  - cbn [walkIdx].
    destruct (wrap64 (base + (m + 1) * inc) =? 0) eqn:E.
    + apply Z.eqb_eq in E.
      destruct (walkIdx_after_zero inc base (m + 1) n Hodd E (m + 2))
        as [Hs Hb]; [lia | lia |].
      split.
      * constructor; [exact Hs |].
        weaken Hb.
      * constructor; [lia |].
        weaken Hb.
    + destruct (IH ltac:(lia) (m + 1)) as [Hs Hb].
      split.
      * constructor; [exact Hs |].
        weaken Hb.
      * constructor; [lia |].
        weaken Hb.
Qed.

Lemma incr_strides_NoDup (inc base lo hi : Z) (l : list Z) :
  Z.odd inc = true -> hi - lo <= 2 ^ 64 -> Incr lo hi l ->
  List.NoDup (map (fun i => wrap64 (base + i * inc)) l).
Proof.
  intros Hodd Hper [Hs Hb]. induction Hs as [| i l Hs IH Hlt].
  - constructor.
  - apply Forall_cons_iff in Hb as [Hi Hb].
    cbn [map]. apply List.NoDup_cons_iff. split; [| exact (IH Hb)].
    intros Hin. apply in_map_iff in Hin as [j [Hj Hjin]].
    rewrite List.Forall_forall in Hlt, Hb.
    specialize (Hlt j Hjin). specialize (Hb j Hjin).
    symmetry in Hj. revert Hj.
    apply strides_differ; [exact Hodd | lia | lia].
Qed.

(** The walk of the spec hands out pairwise distinct, nonzero IDs for any
    number of steps below 2^64. *)
Lemma walk_distinct (inc kid : Z) (n : nat) :
  Z.odd inc = true -> isU64 kid -> Z.of_nat n < 2 ^ 64 ->
  List.NoDup (walk inc kid n) /\
  Forall (fun id => id <> 0 /\ isU64 id) (walk inc kid n).
Proof.
  intros Hodd Hkid Hn. split.
  - replace kid with (wrap64 (kid + 0 * inc))
      by (rewrite Z.mul_0_l, Z.add_0_r; apply wrap64_small; exact Hkid).
    rewrite walk_strides.
    apply incr_strides_NoDup with (lo := 0) (hi := 0 + Z.of_nat n + 1);
      [exact Hodd | lia |].
    apply walkIdx_incr; [exact Hodd | exact Hn].
  - clear Hn Hkid. revert kid. induction n as [| n IH]; intros kid.
    + constructor.
    + cbn [walk]. constructor; [| apply IH].
      split; [apply walkStep_nonzero; exact Hodd | apply walkStep_range].
Qed.


(** ** Identifier codec *)

Lemma append_cons (c : ascii) (s t : string) :
  String c s +:+ t = String c (s +:+ t).
Proof. reflexivity. Qed.

Lemma append_nil_l (t : string) : "" +:+ t = t.
Proof. reflexivity. Qed.

Lemma append_nil_r (s : string) : s +:+ "" = s.
Proof.
  induction s as [| c s IH]; [reflexivity |].
  rewrite append_cons, IH. reflexivity.
Qed.

Lemma append_assoc (s t u : string) : (s +:+ t) +:+ u = s +:+ t +:+ u.
Proof.
  induction s as [| c s IH]; [reflexivity |].
  rewrite !append_cons, IH. reflexivity.
Qed.

Lemma length_append (s t : string) :
  String.length (s +:+ t) = (String.length s + String.length t)%nat.
Proof.
  induction s as [| c s IH]; [reflexivity |].
  rewrite append_cons. cbn [String.length]. rewrite IH. reflexivity.
Qed.

Lemma substring_zero_append (s t : string) :
  substring 0 (String.length s) (s +:+ t) = s.
Proof.
  induction s as [| c s IH].
  - cbn [String.length]. rewrite append_nil_l. destruct t; reflexivity.
  - rewrite append_cons. cbn [String.length substring]. rewrite IH.
    reflexivity.
Qed.

Lemma substring_whole (t : string) : substring 0 (String.length t) t = t.
Proof.
  induction t as [| c t IH]; [reflexivity |].
  cbn [String.length substring]. rewrite IH. reflexivity.
Qed.

Lemma substring_skip_append (s t : string) :
  substring (String.length s) (String.length t) (s +:+ t) = t.
Proof.
  induction s as [| c s IH].
  - rewrite append_nil_l. apply substring_whole.
  - rewrite append_cons. cbn [String.length substring]. exact IH.
Qed.

Lemma allChars_append (p : ascii -> bool) (s t : string) :
  allChars p (s +:+ t) = allChars p s && allChars p t.
Proof.
  induction s as [| c s IH]; [reflexivity |].
  rewrite append_cons. cbn [allChars]. rewrite IH.
  rewrite andb_assoc. reflexivity.
Qed.

Lemma hexN_acc (n : nat) :
  forall x acc, hexN n x acc = hexN n x "" +:+ acc.
Proof.
  induction n as [| n IH]; intros x acc; [reflexivity |].
  cbn [hexN]. rewrite IH. rewrite (IH _ (String _ "")).
  rewrite append_assoc. reflexivity.
Qed.

Lemma length_hexN (n : nat) :
  forall x, String.length (hexN n x "") = n.
Proof.
  induction n as [| n IH]; intros x; [reflexivity |].
  cbn [hexN]. rewrite hexN_acc, length_append, IH. cbn [String.length]. lia.
Qed.

Lemma hexDigit_lower (d : Z) : isLowerHex (hexDigit d) = true.
Proof.
  unfold hexDigit.
  repeat match goal with
         | |- context [match ?x with _ => _ end] => destruct x
         end; reflexivity.
Qed.

Lemma hexVal_hexDigit (d : Z) : 0 <= d < 16 -> hexVal (hexDigit d) = Some d.
Proof.
  intros H.
  assert (d = 0 \/ d = 1 \/ d = 2 \/ d = 3 \/ d = 4 \/ d = 5 \/ d = 6 \/
          d = 7 \/ d = 8 \/ d = 9 \/ d = 10 \/ d = 11 \/ d = 12 \/
          d = 13 \/ d = 14 \/ d = 15) as Hd by lia.
  repeat (destruct Hd as [-> | Hd]; [reflexivity |]).
  subst d. reflexivity.
Qed.

Lemma isLowerHex_isHex (c : ascii) : isLowerHex c = true -> isHex c = true.
Proof.
  unfold isLowerHex, isHex, hexVal. cbv zeta.
  destruct ((48 <=? Z.of_N (N_of_ascii c)) && (Z.of_N (N_of_ascii c) <=? 57));
    [reflexivity |].
  destruct ((97 <=? Z.of_N (N_of_ascii c)) && (Z.of_N (N_of_ascii c) <=? 102));
    [reflexivity | discriminate].
Qed.

Lemma allChars_impl (p q : ascii -> bool) (s : string) :
  (forall c, p c = true -> q c = true) ->
  allChars p s = true -> allChars q s = true.
Proof.
  intros Hpq. induction s as [| c s IH]; [reflexivity |].
  cbn [allChars]. intros H. apply andb_true_iff in H as [Hc Hs].
  rewrite (Hpq c Hc), (IH Hs). reflexivity.
Qed.

Lemma hexN_lower (n : nat) :
  forall x, allChars isLowerHex (hexN n x "") = true.
Proof.
  induction n as [| n IH]; intros x; [reflexivity |].
  cbn [hexN]. rewrite hexN_acc, allChars_append, IH. cbn [allChars].
  rewrite hexDigit_lower. reflexivity.
Qed.

Lemma hexValue_append (s t : string) :
  forall v, hexValue (s +:+ t) v =
            match hexValue s v with
            | Some v' => hexValue t v'
            | None => None
            end.
Proof.
  induction s as [| c s IH]; intros v; [reflexivity |].
  rewrite append_cons. cbn [hexValue].
  destruct (hexVal c); [apply IH | reflexivity].
Qed.

Lemma hexValue_hexN (n : nat) :
  forall x v, 0 <= x ->
              hexValue (hexN n x "") v =
              Some (v * 16 ^ Z.of_nat n + x mod 16 ^ Z.of_nat n).
Proof.
  induction n as [| n IH]; intros x v Hx.
  - cbn [hexN hexValue Z.of_nat]. rewrite Z.pow_0_r, Z.mod_1_r. f_equal. lia.
  - cbn [hexN]. rewrite hexN_acc, hexValue_append.
    rewrite IH by (apply Z.div_pos; lia).
    cbn [hexValue]. rewrite hexVal_hexDigit by (apply Z.mod_pos_bound; lia).
    f_equal. rewrite Nat2Z.inj_succ, Z.pow_succ_r by lia.
    rewrite (Z.rem_mul_r x 16 (16 ^ Z.of_nat n)) by lia. lia.
Qed.

Lemma HexSpanID_length (x : Z) : String.length (HexSpanID x) = 16%nat.
Proof. apply length_hexN. Qed.

Lemma HexSpanID_lower (x : Z) : allChars isLowerHex (HexSpanID x) = true.
Proof. apply hexN_lower. Qed.

Lemma HexSpanID_value (x v : Z) :
  isU64 x -> hexValue (HexSpanID x) v = Some (v * 2 ^ 64 + x).
Proof.
  intros Hx. unfold HexSpanID. rewrite hexValue_hexN by (destruct Hx; lia).
  change (16 ^ Z.of_nat 16) with (2 ^ 64).
  rewrite Z.mod_small by exact Hx. reflexivity.
Qed.

(** Parsing the rendering of a span ID gives the ID back. *)
Lemma ParseUint16_HexSpanID (x : Z) :
  isU64 x -> ParseUint16 (HexSpanID x) = (x, false).
Proof.
  intros Hx. unfold ParseUint16.
  rewrite HexSpanID_value by exact Hx.
  replace (0 * 2 ^ 64 + x) with x by lia.
  destruct (HexSpanID x) eqn:E.
  - pose proof (HexSpanID_length x) as L. rewrite E in L. discriminate L.
  - destruct Hx as [H0 H1].
    apply Z.ltb_lt in H1. rewrite H1. reflexivity.
Qed.

Lemma ParseUint16_range (s : string) : isU64 (fst (ParseUint16 s)).
Proof.
  unfold ParseUint16, isU64. destruct s; [cbn; lia |].
  destruct (hexValue (String a s) 0) as [n |] eqn:E; [| cbn; lia].
  destruct (n <? 2 ^ 64) eqn:L; cbn [fst]; [| lia].
  apply Z.ltb_lt in L. split; [| exact L].
  assert (forall t v m, 0 <= v -> hexValue t v = Some m -> 0 <= m) as Hpos.
  { clear. induction t as [| c t IH]; intros v m Hv H.
    - cbn in H. injection H as <-. exact Hv.
    - cbn [hexValue] in H. destruct (hexVal c) as [d |] eqn:Ed; [| discriminate].
      apply (IH (16 * v + d)); [| exact H].
      unfold hexVal in Ed. cbv zeta in Ed.
      repeat match type of Ed with
             | (if ?b then _ else _) = _ => destruct b eqn:?
             end; try discriminate; injection Ed as <-; lia. }
  apply (Hpos (String a s) 0 n); [lia | exact E].
Qed.


(** ** ID generator *)

Lemma NewSpanID_loop_nonzero (oldSpanID : Z) (draws : list Z) :
  forall spanID id rest,
    isU64 spanID ->
    NewSpanID_loop oldSpanID spanID draws = Some (id, rest) ->
    id <> 0 /\ isU64 id.
Proof.
  induction draws as [| d draws IH]; intros spanID id rest Hr H.
  - cbn [NewSpanID_loop] in H. destruct (spanID =? 0) eqn:E; [discriminate |].
    injection H as <- <-. apply Z.eqb_neq in E. split; assumption.
  - cbn [NewSpanID_loop] in H. destruct (spanID =? 0) eqn:E.
    + eapply IH; [| exact H]. apply wrap64_range.
    + injection H as <- <-. apply Z.eqb_neq in E. split; assumption.
Qed.

Lemma NewSpanID_loop_done (oldSpanID spanID : Z) (draws : list Z) :
  spanID <> 0 -> NewSpanID_loop oldSpanID spanID draws = Some (spanID, draws).
Proof.
  intros H. apply Z.eqb_neq in H.
  destruct draws; cbn [NewSpanID_loop]; rewrite H; reflexivity.
Qed.

(** The loop ends at the first good draw, and uses up no other good one. *)
Lemma NewSpanID_loop_returns (oldSpanID : Z) (draws : list Z) (n : nat) :
  (S n <= length (List.filter (goodDraw oldSpanID) draws))%nat ->
  forall spanID,
  exists id rest,
    NewSpanID_loop oldSpanID spanID draws = Some (id, rest) /\
    (n <= length (List.filter (goodDraw oldSpanID) rest))%nat.
Proof.
  induction draws as [| d draws IH]; intros Hn spanID.
  - cbn in Hn. lia.
  - destruct (Z.eq_dec spanID 0) as [-> | Hnz].
    + cbn [NewSpanID_loop]. change (0 =? 0) with true. cbv iota.
      cbn [List.filter] in Hn. destruct (goodDraw oldSpanID d) eqn:G.
      * unfold goodDraw in G. apply negb_true_iff, Z.eqb_neq in G.
        rewrite NewSpanID_loop_done by exact G.
        eexists _, _. split; [reflexivity |]. cbn [length] in Hn. lia.
      * apply IH. exact Hn.
    + rewrite NewSpanID_loop_done by exact Hnz.
      eexists _, _. split; [reflexivity | lia].
Qed.

Lemma NewSpanID_spec (oldSpanID : Z) (w : World) (id : Z) (w' : World) :
  NewSpanID oldSpanID w = Some (id, w') ->
  id <> 0 /\ isU64 id /\ sameButRandom w w'.
Proof.
  unfold NewSpanID, bind, crand_Read, warnOnce_Do, ret. intros H.
  destruct (crand w) as [| [v |] rest] eqn:Ec; cbn in H.
  - destruct (warned w);
      match type of H with
      | match NewSpanID_loop ?o ?s ?d with _ => _ end = _ =>
          destruct (NewSpanID_loop o s d) as [[i r] |] eqn:El
      end; try discriminate; injection H as <- <-;
      (apply NewSpanID_loop_nonzero in El as [? ?]; [| unfold isU64; lia]);
      (split; [assumption | split; [assumption |]]);
      unfold sameButRandom; cbn; repeat split; eauto.
  - match type of H with
    | match NewSpanID_loop ?o ?s ?d with _ => _ end = _ =>
        destruct (NewSpanID_loop o s d) as [[i r] |] eqn:El
    end; try discriminate. injection H as <- <-.
    apply NewSpanID_loop_nonzero in El as [? ?]; [| apply wrap64_range].
    split; [assumption | split; [assumption |]].
    unfold sameButRandom; cbn; repeat split; eauto.
  - destruct (warned w);
      match type of H with
      | match NewSpanID_loop ?o ?s ?d with _ => _ end = _ =>
          destruct (NewSpanID_loop o s d) as [[i r] |] eqn:El
      end; try discriminate; injection H as <- <-;
      (apply NewSpanID_loop_nonzero in El as [? ?]; [| unfold isU64; lia]);
      (split; [assumption | split; [assumption |]]);
      unfold sameButRandom; cbn; repeat split; eauto.
Qed.

(** With enough in store, [NewSpanID(0)] returns, and leaves enough for the
    calls still to come. *)
Lemma NewSpanID_returns (n : nat) (w : World) :
  supplies (S n) w ->
  exists id w', NewSpanID 0 w = Some (id, w') /\ supplies n w'.
Proof.
  unfold supplies. intros [Hc | Hm].
  - destruct (crand w) as [| [v |] rest] eqn:Ec; cbn [goodReads] in Hc;
      try lia.
    destruct (wrap64 v =? 0) eqn:Ev; [lia |]. apply Z.eqb_neq in Ev.
    unfold NewSpanID, bind, crand_Read, ret. rewrite Ec. cbn.
    rewrite NewSpanID_loop_done by exact Ev.
    eexists _, _. split; [reflexivity |]. left. cbn. lia.
  - unfold NewSpanID, bind, crand_Read, warnOnce_Do, ret.
    destruct (crand w) as [| [v |] rest] eqn:Ec; cbn.
    + destruct (NewSpanID_loop_returns 0 (mrand w) n Hm 0)
        as [id [r [El Hr]]].
      destruct (warned w); cbn; rewrite El; eexists _, _;
        (split; [reflexivity | right; cbn; exact Hr]).
    + destruct (NewSpanID_loop_returns 0 (mrand w) n Hm (wrap64 v))
        as [id [r [El Hr]]].
      rewrite El. eexists _, _. split; [reflexivity | right; cbn; exact Hr].
    + destruct (NewSpanID_loop_returns 0 (mrand w) n Hm 0)
        as [id [r [El Hr]]].
      destruct (warned w); cbn; rewrite El; eexists _, _;
        (split; [reflexivity | right; cbn; exact Hr]).
Qed.


(** Two span IDs, not both zero, render as a trace ID: 32 lowercase hex
    digits whose value is the 128-bit number with the first ID as its high
    half, and that number is not zero. *)
Lemma rendered_traceID (hi lo : Z) :
  isU64 hi -> isU64 lo -> hi <> 0 \/ lo <> 0 ->
  String.length (HexSpanID hi +:+ HexSpanID lo) = 32%nat /\
  allChars isLowerHex (HexSpanID hi +:+ HexSpanID lo) = true /\
  hexValue (HexSpanID hi +:+ HexSpanID lo) 0 = Some (hi * 2 ^ 64 + lo) /\
  0 < hi * 2 ^ 64 + lo < 2 ^ 128.
Proof.
  intros Hhi Hlo Hnz. split; [| split; [| split; [| split]]].
  - rewrite length_append, !HexSpanID_length. reflexivity.
  - rewrite allChars_append, !HexSpanID_lower. reflexivity.
  - rewrite hexValue_append, HexSpanID_value by exact Hhi.
    rewrite HexSpanID_value by exact Hlo. f_equal; lia.
  - unfold isU64 in *. nia.
  - unfold isU64 in *. nia.
Qed.

(** The halves of a rendered trace ID parse back to the two span IDs. *)
Lemma traceID_halves (hi lo : Z) :
  isU64 hi -> isU64 lo ->
  fst (ParseUint16 (substring 0 16 (HexSpanID hi +:+ HexSpanID lo))) = hi /\
  fst (ParseUint16 (substring 16 16 (HexSpanID hi +:+ HexSpanID lo))) = lo.
Proof.
  intros Hhi Hlo. split.
  - replace (substring 0 16 (HexSpanID hi +:+ HexSpanID lo))
      with (substring 0 (String.length (HexSpanID hi))
              (HexSpanID hi +:+ HexSpanID lo))
      by (rewrite HexSpanID_length; reflexivity).
    rewrite substring_zero_append.
    rewrite ParseUint16_HexSpanID by exact Hhi. reflexivity.
  - replace (substring 16 16 (HexSpanID hi +:+ HexSpanID lo))
      with (substring (String.length (HexSpanID hi))
              (String.length (HexSpanID lo)) (HexSpanID hi +:+ HexSpanID lo))
      by (rewrite !HexSpanID_length; reflexivity).
    rewrite substring_skip_append.
    rewrite ParseUint16_HexSpanID by exact Hlo. reflexivity.
Qed.

(** C7. For every input string, [NewTraceID] returns (given random sources
    that let [NewSpanID] return twice) a string of 32 lowercase hex digits
    whose 128-bit value is not zero.  For an input of length 32 the result is
    the rendering of [one + hi] followed by that of [two + lo], where [one]
    and [two] are the two fresh span IDs in the order drawn and [hi], [lo]
    what [ParseUint] reads in the input's first and last 16 characters (its
    two span IDs, when the input is itself a rendered trace ID); only when
    both sums are zero is the low half [two] alone.  Any other input leaves
    the fresh IDs as they are. *)
Theorem NewTraceID_32_hex_nonzero (oldTraceID : string) (w : World) :
  supplies 2 w ->
  exists one two w1 w' t,
    NewSpanID 0 w = Some (one, w1) /\ NewSpanID 0 w1 = Some (two, w') /\
    NewTraceID oldTraceID w = Some (t, w') /\
    String.length t = 32%nat /\
    allChars isLowerHex t = true /\
    (exists v, hexValue t 0 = Some v /\ 0 < v < 2 ^ 128) /\
    (String.length oldTraceID = 32%nat ->
     let hi := fst (ParseUint16 (substring 0 16 oldTraceID)) in
     let lo := fst (ParseUint16 (substring 16 16 oldTraceID)) in
     t = HexSpanID (wrap64 (one + hi)) +:+
         HexSpanID (if (wrap64 (one + hi) =? 0) && (wrap64 (two + lo) =? 0)
                    then two else wrap64 (two + lo))) /\
    (String.length oldTraceID <> 32%nat ->
     t = HexSpanID one +:+ HexSpanID two) /\
    (forall a b, isU64 a -> isU64 b ->
                 oldTraceID = HexSpanID a +:+ HexSpanID b ->
                 fst (ParseUint16 (substring 0 16 oldTraceID)) = a /\
                 fst (ParseUint16 (substring 16 16 oldTraceID)) = b).
Proof.
  intros Hs.
  destruct (NewSpanID_returns 1 w Hs) as [one [w1 [H1 Hs1]]].
  destruct (NewSpanID_returns 0 w1 Hs1) as [two [w' [H2 _]]].
  destruct (NewSpanID_spec _ _ _ _ H1) as [Hone [Rone _]].
  destruct (NewSpanID_spec _ _ _ _ H2) as [Htwo [Rtwo _]].
  unfold NewTraceID, bind. rewrite H1, H2.
  set (hi := fst (ParseUint16 (substring 0 16 oldTraceID))).
  set (lo := fst (ParseUint16 (substring 16 16 oldTraceID))).
  assert (Hhalves : forall a b, isU64 a -> isU64 b ->
                 oldTraceID = HexSpanID a +:+ HexSpanID b -> hi = a /\ lo = b).
  { intros a b Ha Hb ->. apply traceID_halves; assumption. }
  destruct (Z.of_nat (String.length oldTraceID) =? 32) eqn:El.
  - apply Z.eqb_eq in El.
    set (two' := if (wrap64 (one + hi) =? 0) && (wrap64 (two + lo) =? 0)
                 then wrap64 (wrap64 (two + lo) - lo) else wrap64 (two + lo)).
    assert (Hfix : two' =
                   if (wrap64 (one + hi) =? 0) && (wrap64 (two + lo) =? 0)
                   then two else wrap64 (two + lo)).
    { unfold two'.
      destruct ((wrap64 (one + hi) =? 0) && (wrap64 (two + lo) =? 0)) eqn:E;
        [| reflexivity].
      apply andb_true_iff in E as [_ E]. apply Z.eqb_eq in E.
      rewrite E. transitivity (wrap64 two); [| apply wrap64_small; exact Rtwo].
      apply wrap64_eq_iff. apply wrap64_zero_iff in E.
      destruct E as [q Hq]. exists (- q). lia. }
    assert (Hnz : wrap64 (one + hi) <> 0 \/ two' <> 0).
    { rewrite Hfix.
      destruct (wrap64 (one + hi) =? 0) eqn:E1; cbn [andb].
      - destruct (wrap64 (two + lo) =? 0) eqn:E2; right;
          [exact Htwo | apply Z.eqb_neq in E2; exact E2].
      - left. apply Z.eqb_neq in E1. exact E1. }
    assert (Rtwo' : isU64 two').
    { rewrite Hfix. destruct (_ && _); [exact Rtwo | apply wrap64_range]. }
    destruct (rendered_traceID (wrap64 (one + hi)) two' (wrap64_range _)
                Rtwo' Hnz) as [L [A [V B]]].
    exists one, two, w1, w', (HexSpanID (wrap64 (one + hi)) +:+ HexSpanID two').
    repeat split; try assumption; try reflexivity.
    + exists (wrap64 (one + hi) * 2 ^ 64 + two'). split; assumption.
    + intros _. cbv zeta. rewrite <- Hfix. reflexivity.
    + intros Hne. exfalso. apply Hne. lia.
    + apply (Hhalves a b); assumption.
    + apply (Hhalves a b); assumption.
  - apply Z.eqb_neq in El.
    destruct (rendered_traceID one two Rone Rtwo (or_introl Hone))
      as [L [A [V B]]].
    exists one, two, w1, w', (HexSpanID one +:+ HexSpanID two).
    repeat split; try assumption; try reflexivity.
    + exists (one * 2 ^ 64 + two). split; assumption.
    + intros Hl. exfalso. apply El. rewrite Hl. reflexivity.
    + apply (Hhalves a b); assumption.
    + apply (Hhalves a b); assumption.
Qed.


(** ** The guard of the factory methods *)

Lemma logIfEmpty_allows (s : Span) (orImported : bool) (w : World) :
  refused s orImported = false -> logIfEmpty s orImported w = Some (false, w).
Proof.
  unfold refused, logIfEmpty. intros H.
  apply orb_false_iff in H as [H H3]. apply orb_false_iff in H as [H1 H2].
  rewrite H1, H2, H3. reflexivity.
Qed.

Lemma logIfEmpty_refuses (s : Span) (orImported : bool) (w : World) :
  refused s orImported = true ->
  (end_ s <> 0 -> details s <> None) ->
  logIfEmpty s orImported w = Some (true, addLog LFail (refusalLine s) w).
Proof.
  unfold refused, logIfEmpty, refusalLine. intros H Hd.
  destruct (GetSpanID s =? 0); [reflexivity |].
  destruct (negb (IsZero (end_ s))) eqn:E.
  - destruct (details s) eqn:D; [reflexivity |].
    exfalso. apply Hd; [| reflexivity].
    unfold IsZero in E. apply negb_true_iff, Z.eqb_neq in E. exact E.
  - cbn [orb] in H. rewrite H. reflexivity.
Qed.

Lemma live_not_refused (s : Span) (orImported : bool) :
  live s -> refused s orImported = false.
Proof.
  unfold live, refused, IsZero. intros [H1 [H2 H3]].
  apply Z.eqb_neq in H1, H2. rewrite H1, H2, H3.
  destruct orImported; reflexivity.
Qed.

Lemma not_live_refused (s : Span) :
  GetSpanID s = 0 \/ start s = 0 \/ end_ s <> 0 -> refused s true = true.
Proof.
  unfold refused, IsZero. intros [H | [H | H]].
  - rewrite H. reflexivity.
  - rewrite H. destruct (GetSpanID s =? 0), (end_ s =? 0); reflexivity.
  - apply Z.eqb_neq in H. rewrite H. destruct (GetSpanID s =? 0); reflexivity.
Qed.

Lemma refused_not_live (s : Span) :
  refused s true = false -> live s.
Proof.
  unfold refused, live, IsZero. intros H.
  apply orb_false_iff in H as [H H3]. apply orb_false_iff in H as [H1 H2].
  cbn [andb] in H3. apply negb_false_iff in H2.
  apply Z.eqb_neq in H1, H3. apply Z.eqb_eq in H2. auto.
Qed.

Lemma wf_finished_details (s : Span) :
  wf s -> end_ s <> 0 -> details s <> None.
Proof. intros [_ [_ [_ [_ H]]]] He. apply H. right. exact He. Qed.

Lemma wf_live_details (s : Span) :
  wf s -> live s -> exists d, details s = Some d.
Proof.
  intros [_ [_ [_ [_ H]]]] [_ [Hs _]].
  destruct (details s) as [d |] eqn:D; [exists d; reflexivity |].
  exfalso. apply H; [left; exact Hs | reflexivity].
Qed.


(** ** Calls on a finished span *)

(** C9, as amended.  Each of the nine mutators, called on a finished span,
    logs one failure and leaves the span as it was, its details record
    included.  The eight that return a factory return the receiver;
    [AddAttribute], whose result is an error, returns nil.  An empty and an
    imported span are refused in the same way, each with its own line in
    the log. *)
Theorem mutators_refuse_finished (c : Call) (s : Span) (w : World) :
  isMutator c = true -> wf s ->
  end_ s <> 0 \/ GetSpanID s = 0 \/ start s = 0 ->
  call c s w = Some (refusedReturn c, s, addLog LFail (refusalLine s) w).
Proof.
  intros Hm Hwf He.
  assert (Hlog : logIfEmpty s true w =
                 Some (true, addLog LFail (refusalLine s) w)).
  { apply logIfEmpty_refuses.
    - apply not_live_refused. tauto.
    - apply wf_finished_details. exact Hwf. }
  destruct c; try discriminate Hm; cbn [call refusedReturn];
    unfold returning, SetIsServer, SetIsClient, SetIsPublisher,
      SetIsSubscriber, setSpanKind, SetDisplayName, AddAttribute, AddPairs,
      SetStatusCode, SetStatusMessage, bind;
    rewrite Hlog; reflexivity.
Qed.

(** C10.  On a factory that is not live (empty, imported or finished),
    [AddAttribute] returns a nil error whatever the key and the value, logs
    one failure and leaves the span, and so its attribute map, as it was.
    A call that returns an error was made on a live span, with an empty key
    or a value of a type the switch does not know, and changed nothing; on a
    live span such a key or value does give an error. *)
Theorem AddAttribute_refused_nil_error (key : string) (val : Value)
    (s : Span) (w : World) :
  wf s ->
  (GetSpanID s = 0 \/ start s = 0 \/ end_ s <> 0 ->
   AddAttribute key val s w =
   Some (None, s, addLog LFail (refusalLine s) w)) /\
  (forall e s' w',
     AddAttribute key val s w = Some (Some e, s', w') ->
     live s /\ s' = s /\ w' = w /\
     (key = "" \/ convert val false = Invalid)) /\
  (live s -> key = "" \/ convert val false = Invalid ->
   exists e, AddAttribute key val s w = Some (Some e, s, w)).
Proof.
  intros Hwf. split; [| split].
  - intros Hn. unfold AddAttribute, bind.
    rewrite logIfEmpty_refuses; [reflexivity | |].
    + apply not_live_refused. exact Hn.
    + intros He. apply wf_finished_details; assumption.
  - intros e s' w' H. unfold AddAttribute, bind in H.
    destruct (refused s true) eqn:R.
    + rewrite logIfEmpty_refuses in H; [discriminate H | exact R |].
      intros He. apply wf_finished_details; assumption.
    + rewrite logIfEmpty_allows in H by exact R.
      cbn iota beta in H. unfold addAttribute, ret in H.
      destruct (String.eqb key "") eqn:K.
      * injection H as _ <- <-. apply String.eqb_eq in K.
        split; [apply refused_not_live; exact R | auto].
      * destruct (convert val false) eqn:C.
        -- discriminate H.
        -- injection H as _ <- <-.
           split; [apply refused_not_live; exact R | auto].
        -- destruct (details s); discriminate H.
  - intros Hl Hbad. unfold AddAttribute, bind.
    rewrite logIfEmpty_allows by (apply live_not_refused; exact Hl).
    cbn iota beta. unfold addAttribute, ret.
    destruct (String.eqb key "") eqn:K; [eexists; reflexivity |].
    destruct Hbad as [-> | C]; [discriminate K |].
    rewrite C. eexists; reflexivity.
Qed.

(** ** Finish *)

(** C6.  [Finish] on a span that is already finished logs one failure and
    returns a zero duration; the span is left as it was, and so are the
    channels and the drop counter: nothing is enqueued. *)
Theorem Finish_again (dt : N) (s : Span) (w : World) :
  wf s -> end_ s <> 0 ->
  exists w',
    Finish dt s w = Some (0, s, w') /\
    logged w' = (logged w ++ [(LFail, refusalLine s)])%list /\
    chans w' = chans w /\ dropped w' = dropped w /\ clock w' = clock w.
Proof.
  intros Hwf He. exists (addLog LFail (refusalLine s) w).
  split; [| repeat split].
  unfold Finish, bind.
  rewrite logIfEmpty_refuses; [reflexivity | |].
  - apply not_live_refused. right. right. exact He.
  - intros _. apply wf_finished_details; assumption.
Qed.

(** The send at the end of [Finish], on a queue that is not closed. *)
Lemma Finish_tail (dt : N) (sp : Span) (w : World) :
  queueClosed (ch sp) w = false ->
  exists w',
    bind (trySend (ch sp) sp)
      (fun sent => bind (if sent then ret tt else spanDropped)
                     (fun _ => ret (end_ sp - start sp, sp)))
      (tick dt w) = Some (end_ sp - start sp, sp, w') /\
    clock w' = clock w + Z.of_N dt /\ logged w' = logged w /\
    (forall h q,
       ch sp = Some h -> chans w !! h = Some q -> (0 < parked q)%nat ->
       chans w' =
       <[h := mkChan (buf q) (cap q) false (parked q - 1)
                (recvd q ++ [sp])]> (chans w) /\
       dropped w' = dropped w) /\
    (forall h q,
       ch sp = Some h -> chans w !! h = Some q -> parked q = O ->
       (length (buf q) < cap q)%nat ->
       chans w' =
       <[h := mkChan (buf q ++ [sp]) (cap q) false O (recvd q)]> (chans w) /\
       dropped w' = dropped w) /\
    (receiverParked (ch sp) w = false -> hasRoom (ch sp) w = false ->
     chans w' = chans w /\ dropped w' = dropped w + 1).
Proof.
  intros Hopen. unfold bind, trySend.
  unfold queueClosed, receiverParked, hasRoom in *.
  destruct (ch sp) as [h |]; cbn [chans tick].
  - destruct (chans w !! h) as [q |] eqn:Hq.
    + rewrite Hopen.
      destruct (0 <? parked q)%nat eqn:Park.
      * apply Nat.ltb_lt in Park.
        eexists. split; [reflexivity |]. cbn.
        split; [reflexivity |]. split; [reflexivity |].
        split; [| split].
        -- intros h0 q0 Eh Eq _. injection Eh as <-.
           rewrite Hq in Eq. injection Eq as <-. split; reflexivity.
        -- intros h0 q0 Eh Eq P0. injection Eh as <-.
           rewrite Hq in Eq. injection Eq as <-. lia.
        -- intros C. discriminate C.
      * apply Nat.ltb_ge in Park.
        destruct (length (buf q) <? cap q)%nat eqn:Room.
        -- eexists. split; [reflexivity |]. cbn.
           split; [reflexivity |]. split; [reflexivity |].
           split; [| split].
           ++ intros h0 q0 Eh Eq P0. injection Eh as <-.
              rewrite Hq in Eq. injection Eq as <-. lia.
           ++ intros h0 q0 Eh Eq P0 _. injection Eh as <-.
              rewrite Hq in Eq. injection Eq as <-. rewrite P0.
              split; reflexivity.
           ++ intros _ C. discriminate C.
        -- apply Nat.ltb_ge in Room.
           eexists. split; [reflexivity |]. cbn.
           split; [reflexivity |]. split; [reflexivity |].
           split; [| split].
           ++ intros h0 q0 Eh Eq P0. injection Eh as <-.
              rewrite Hq in Eq. injection Eq as <-. lia.
           ++ intros h0 q0 Eh Eq _ L. injection Eh as <-.
              rewrite Hq in Eq. injection Eq as <-. lia.
           ++ intros _ _. split; reflexivity.
    + eexists. split; [reflexivity |]. cbn.
      split; [reflexivity |]. split; [reflexivity |].
      split; [| split].
      * intros h0 q0 Eh Eq _. injection Eh as <-.
        rewrite Hq in Eq. discriminate Eq.
      * intros h0 q0 Eh Eq _ _. injection Eh as <-.
        rewrite Hq in Eq. discriminate Eq.
      * intros _ _. split; reflexivity.
  - eexists. split; [reflexivity |]. cbn.
    split; [reflexivity |]. split; [reflexivity |].
    split; [| split].
    + intros h0 q0 Eh. discriminate Eh.
    + intros h0 q0 Eh. discriminate Eh.
    + intros _ _. split; reflexivity.
Qed.

(** [Finish] on a live span whose queue has been closed: the send panics. *)
Lemma Finish_closed (dt : N) (s : Span) (w : World) (d : Ct2Span) :
  live s -> details s = Some d -> queueClosed (ch s) w = true ->
  Finish dt s w = None.
Proof.
  intros Hl Hd Hc.
  pose proof (live_not_refused s true Hl) as R.
  assert (Hsend : forall sp : Span,
    ch sp = ch s ->
    bind (trySend (ch sp) sp)
      (fun sent => bind (if sent then ret tt else spanDropped)
                     (fun _ => ret (end_ sp - start sp, sp)))
      (tick dt w) = None).
  { intros sp Hsp. unfold bind, trySend. rewrite Hsp.
    unfold queueClosed in Hc.
    destruct (ch s) as [h |]; [| discriminate Hc]. cbn [chans tick].
    destruct (chans w !! h) as [q |]; [| discriminate Hc].
    rewrite Hc. reflexivity. }
  unfold Finish, bind at 1. rewrite (logIfEmpty_allows s true w R).
  cbn iota beta. rewrite Hd. unfold bind at 1.
  destruct (DisplayName d) as [n |] eqn:Dn.
  - unfold ret at 1. cbn iota beta. unfold bind at 1, time_Now.
    cbn iota beta. rewrite Hd.
    match goal with
    | |- context [trySend (ch ?sp) ?sp] => apply (Hsend sp); reflexivity
    end.
  - unfold bind at 1, os_Args0, SetDisplayName. unfold bind at 1.
    rewrite (logIfEmpty_allows s true w R). cbn iota beta. rewrite Hd.
    unfold ret at 1. cbn iota beta. unfold bind at 1, time_Now.
    cbn iota beta. cbn [details withDetails].
    match goal with
    | |- context [trySend (ch ?sp) ?sp] => apply (Hsend sp); reflexivity
    end.
Qed.

(** C3, as amended.  While its queue has not been closed, [Finish] on a
    live span reads the clock once, stamps [end] and [EndTime] with it,
    gives a span without display name the name [SetDisplayName(os.Args[0])]
    gives (none, if [os.Args[0]] is the empty string), and tries to send
    the span, as it then is, on its queue.  If a runner is blocked
    receiving from the queue the span is handed to it, once; if none is
    and the buffer has room the span is appended to the buffer, once; in
    both cases nothing is counted as dropped.  With no runner waiting and
    no room (the buffer full, the queue unbuffered, or the channel nil)
    the channels stay as they were and the drop counter goes up by one.
    In each of these cases the call logs nothing and returns
    [end - start].  On a queue that [Halt] has closed the send panics. *)
Theorem Finish_live (dt : N) (s : Span) (w : World) (d : Ct2Span) :
  live s -> details s = Some d ->
  let now := clock w + Z.of_N dt in
  let name := match DisplayName d with
              | Some n => Some n
              | None => if String.eqb (argv0 w) "" then None
                        else Some (argv0 w)
              end in
  let s' := mkSpan (ro s) (ch s) (start s) now (parent s)
              (Some (mkCt2Span (Name d) (SpanId d) (ParentSpanId d) name
                       (StartTime d) (TimeAsString now) (SpanKind d)
                       (Attributes d) (StatusOf d)
                       (SameProcessAsParentSpan d) (ChildSpanCount d)))
              (spanInc s) (kidSpan s) in
  (queueClosed (ch s) w = true -> Finish dt s w = None) /\
  (queueClosed (ch s) w = false ->
   exists w',
    Finish dt s w = Some (now - start s, s', w') /\
    clock w' = now /\ logged w' = logged w /\
    (forall h q,
       ch s = Some h -> chans w !! h = Some q -> (0 < parked q)%nat ->
       chans w' =
       <[h := mkChan (buf q) (cap q) false (parked q - 1)
                (recvd q ++ [s'])]> (chans w) /\
       dropped w' = dropped w) /\
    (forall h q,
       ch s = Some h -> chans w !! h = Some q -> parked q = O ->
       (length (buf q) < cap q)%nat ->
       chans w' =
       <[h := mkChan (buf q ++ [s']) (cap q) false O (recvd q)]> (chans w) /\
       dropped w' = dropped w) /\
    (receiverParked (ch s) w = false -> hasRoom (ch s) w = false ->
     chans w' = chans w /\ dropped w' = dropped w + 1)).
Proof.
  intros Hl Hd now name s'.
  split; [exact (Finish_closed dt s w d Hl Hd) |]. intros Hopen.
  pose proof (live_not_refused s true Hl) as R.
  pose proof (Finish_tail dt s' w Hopen) as Hsend.
  change (ch s') with (ch s) in Hsend.
  change (end_ s' - start s') with (now - start s) in Hsend.
  unfold Finish, bind at 1. rewrite (logIfEmpty_allows s true w R).
  cbn iota beta. rewrite Hd. unfold bind at 1.
  destruct (DisplayName d) as [n |] eqn:Dn.
  - unfold ret at 1. cbn iota beta. unfold bind at 1, time_Now.
    cbn iota beta. rewrite Hd.
    destruct Hsend as [w' Hw'].
    exists w'. unfold s', name in *. rewrite Dn in *. exact Hw'.
  - unfold bind at 1, os_Args0, SetDisplayName. unfold bind at 1.
    rewrite (logIfEmpty_allows s true w R). cbn iota beta. rewrite Hd.
    unfold ret at 1. cbn iota beta. unfold bind at 1, time_Now.
    cbn iota beta. cbn [details withDetails].
    destruct Hsend as [w' Hw'].
    exists w'. unfold s', name in *. exact Hw'.
Qed.

(** ** Attributes *)

Lemma pairs_ind (A : Type) (P : list A -> Prop) :
  P [] -> (forall x, P [x]) -> (forall x y l, P l -> P (x :: y :: l)) ->
  forall l, P l.
Proof.
  intros H0 H1 H2.
  assert (forall l, P l /\ forall x, P (x :: l)) as H.
  { induction l as [| y l [IH1 IH2]].
    - split; [exact H0 | exact H1].
    - split; [apply IH2 |]. intros x. apply H2. exact IH1. }
  intros l. apply H.
Qed.

Lemma AddPairs_live (pairs : list Value) (s : Span) (w : World) :
  live s -> AddPairs pairs s w = AddPairs_loop pairs s w.
Proof.
  intros Hl. unfold AddPairs, bind.
  rewrite logIfEmpty_allows by (apply live_not_refused; exact Hl).
  reflexivity.
Qed.

Lemma withAttribute_live (s : Span) (d : Ct2Span) (key : string)
    (av : AttributeValue) :
  live s -> live (withAttribute s d key av).
Proof. intros H. exact H. Qed.

Lemma convert_zero (val : Value) :
  isZeroValue val = true -> convert val true = Skip.
Proof.
  destruct val; cbn; try discriminate; try reflexivity; intros ->;
    reflexivity.
Qed.

(** One pair at the head of the arguments of [AddPairs], on a span that has
    its details. *)
Lemma AddPairs_loop_pair (key : string) (val : Value) (rest : list Value)
    (s : Span) (d : Ct2Span) (w : World) :
  details s = Some d ->
  AddPairs_loop (VString key :: val :: rest) s w =
  if String.eqb key "" then
    AddPairs_loop rest s (addLog LFail "Error adding attribute to Span" w)
  else
    match convert val true with
    | Skip => AddPairs_loop rest s w
    | Invalid =>
        AddPairs_loop rest s (addLog LFail "Error adding attribute to Span" w)
    | Attr av => AddPairs_loop rest (withAttribute s d key av) w
    end.
Proof.
  intros Hd. cbn [AddPairs_loop]. unfold bind at 1. unfold addAttribute.
  destruct (String.eqb key ""); [reflexivity |].
  destruct (convert val true); [reflexivity | reflexivity |].
  rewrite Hd. reflexivity.
Qed.

Lemma AddPairs_loop_nonstring (key val : Value) (rest : list Value)
    (s : Span) (w : World) :
  (forall k, key <> VString k) ->
  AddPairs_loop (key :: val :: rest) s w =
  AddPairs_loop rest s
    (addLog LFail "Non-string key passed to trace.Span AddPairs()" w).
Proof.
  intros Hk. destruct key; try reflexivity. exfalso. eapply Hk. reflexivity.
Qed.

Lemma AddPairs_loop_single (x : Value) (s : Span) (w : World) :
  AddPairs_loop [x] s w =
  Some (s, addLog LFail
             "Ignoring unpaired last arg to trace.Span AddPairs()" w).
Proof. destruct x; reflexivity. Qed.

(** The loop of [AddPairs] never fails on a span that has its details, and
    touches nothing but the details. *)
Lemma AddPairs_loop_total (pairs : list Value) :
  forall s w,
    details s <> None ->
    exists s' w',
      AddPairs_loop pairs s w = Some (s', w') /\ sameButDetails s s' /\
      (forall d, details s = Some d ->
                 exists d', details s' = Some d' /\
                            ChildSpanCount d' = ChildSpanCount d).
Proof.
  induction pairs as [| x | x y rest IH] using pairs_ind; intros s w Hd.
  - exists s, w. split; [reflexivity |]. split.
    + unfold sameButDetails. tauto.
    + intros d ->. eauto.
  - eexists s, _. split; [apply AddPairs_loop_single |]. split.
    + unfold sameButDetails. tauto.
    + intros d ->. eauto.
  - destruct (details s) as [d |] eqn:D; [| contradiction].
    assert (Hsame : forall w1,
      exists s' w', AddPairs_loop rest s w1 = Some (s', w') /\
                    sameButDetails s s' /\
                    (forall d0, details s = Some d0 ->
                                exists d', details s' = Some d' /\
                                           ChildSpanCount d' =
                                           ChildSpanCount d0)).
    { intros w1. apply IH. rewrite D. discriminate. }
    destruct x as [| key | | | | | |];
      try (rewrite AddPairs_loop_nonstring by (intros k; discriminate);
           destruct (Hsame (addLog LFail
                      "Non-string key passed to trace.Span AddPairs()" w))
             as [s' [w' [H1 [H2 H3]]]];
           exists s', w'; rewrite D in H3; auto).
    rewrite (AddPairs_loop_pair key y rest s d w D).
    destruct (String.eqb key "").
    + destruct (Hsame (addLog LFail "Error adding attribute to Span" w))
        as [s' [w' [H1 [H2 H3]]]].
      exists s', w'. rewrite D in H3. auto.
    + destruct (convert y true) as [| | av].
      * destruct (Hsame w) as [s' [w' [H1 [H2 H3]]]].
        exists s', w'. rewrite D in H3. auto.
      * destruct (Hsame (addLog LFail "Error adding attribute to Span" w))
          as [s' [w' [H1 [H2 H3]]]].
        exists s', w'. rewrite D in H3. auto.
      * destruct (IH (withAttribute s d key av) w) as [s' [w' [H1 [H2 H3]]]];
          [discriminate |].
        exists s', w'. split; [exact H1 |]. split.
        -- unfold sameButDetails in *. cbn in H2.
           destruct H2 as [? [? [? [? [? [? [? H2]]]]]]].
           repeat (split; [assumption |]).
           split; [intros E; rewrite D in E; discriminate E |].
           intros E. apply H2 in E. discriminate E.
        -- intros d0 E. injection E as <-.
           destruct (H3 _ eq_refl) as [d' [E1 E2]]. exists d'. auto.
Qed.

(** C8, as amended: the key of a pair that is skipped or kept is not the
    empty string, and the zero is nil, false or of type [int] or [int64].
    On a live span [AddPairs] drops such a pair without logging and keeps a
    pair whose value is the empty string; an unpaired last argument logs a
    failure, whatever pairs precede it, and a key that is not a string logs
    a failure.  So does a pair whose key is the empty string, whatever its
    value, and a value of a type the switch of [addAttribute] does not
    know, a zero of another numeric type among them.  The call
    [AddPairs("a", 0, "b", false, "c", "", "d", "x")] records the two
    attributes c and d, with the values "" and "x", and logs nothing. *)
Theorem AddPairs_zero_skip (s : Span) (d : Ct2Span) (w : World) :
  live s -> details s = Some d ->
  (forall key val rest,
     key <> "" -> isZeroValue val = true ->
     AddPairs (VString key :: val :: rest) s w = AddPairs rest s w) /\
  (forall key rest,
     key <> "" ->
     AddPairs (VString key :: VString "" :: rest) s w =
     AddPairs rest (withAttribute s d key (mkAV (Some "") 0 false)) w) /\
  (forall pairs arg,
     Nat.even (length pairs) = true ->
     exists s' w',
       AddPairs pairs s w = Some (s', w') /\
       AddPairs (pairs ++ [arg]) s w =
       Some (s', addLog LFail
                   "Ignoring unpaired last arg to trace.Span AddPairs()" w')) /\
  (forall key val rest,
     (forall k, key <> VString k) ->
     AddPairs (key :: val :: rest) s w =
     AddPairs rest s
       (addLog LFail "Non-string key passed to trace.Span AddPairs()" w)) /\
  (forall val rest,
     AddPairs (VString "" :: val :: rest) s w =
     AddPairs rest s (addLog LFail "Error adding attribute to Span" w)) /\
  (forall key t rest,
     key <> "" ->
     AddPairs (VString key :: VOther t :: rest) s w =
     AddPairs rest s (addLog LFail "Error adding attribute to Span" w)) /\
  AddPairs [VString "a"; VInt 0; VString "b"; VBool false;
            VString "c"; VString ""; VString "d"; VString "x"] s w =
  Some (withDetails s
          (mkCt2Span (Name d) (SpanId d) (ParentSpanId d) (DisplayName d)
             (StartTime d) (EndTime d) (SpanKind d)
             (Some (<["d" := mkAV (Some "x") 0 false]>
                      (<["c" := mkAV (Some "") 0 false]>
                         (match Attributes d with
                          | None => ∅
                          | Some m => m
                          end))))
             (StatusOf d) (SameProcessAsParentSpan d) (ChildSpanCount d)),
        w).
Proof.
  intros Hl Hd. split; [| split; [| split; [| split; [| split; [| split]]]]].
  - intros key val rest Hk Hz. rewrite !AddPairs_live by exact Hl.
    rewrite (AddPairs_loop_pair key val rest s d w Hd).
    apply String.eqb_neq in Hk. rewrite Hk, (convert_zero val Hz).
    reflexivity.
  - intros key rest Hk.
    rewrite !AddPairs_live by (try apply withAttribute_live; exact Hl).
    rewrite (AddPairs_loop_pair key (VString "") rest s d w Hd).
    apply String.eqb_neq in Hk. rewrite Hk. reflexivity.
  - intros pairs arg Hev. rewrite !AddPairs_live by exact Hl.
    assert (Hs : details s <> None) by (rewrite Hd; discriminate).
    clear Hl Hd d. revert s w Hs Hev.
    induction pairs as [| x | x y rest IH] using pairs_ind;
      intros s w Hs Hev.
    + exists s, w. split; [reflexivity | apply AddPairs_loop_single].
    + discriminate Hev.
    + cbn [length Nat.even] in Hev.
      destruct (details s) as [d |] eqn:D; [| contradiction].
      assert (Hrest : forall s1 w1, sameButDetails s s1 ->
        exists s' w',
          AddPairs_loop rest s1 w1 = Some (s', w') /\
          AddPairs_loop (rest ++ [arg]) s1 w1 =
          Some (s', addLog LFail
                  "Ignoring unpaired last arg to trace.Span AddPairs()" w')).
      { intros s1 w1 Hsame. apply IH; [| exact Hev].
        destruct Hsame as [_ [_ [_ [_ [_ [_ [_ Hsame]]]]]]].
        intros E. apply Hsame in E. rewrite D in E. discriminate E. }
      assert (Hself : sameButDetails s s)
        by (unfold sameButDetails; tauto).
      change ((x :: y :: rest) ++ [arg])%list
        with (x :: y :: (rest ++ [arg]))%list.
      destruct x as [| key | | | | | |];
        try (rewrite !AddPairs_loop_nonstring by (intros k; discriminate);
             apply Hrest; exact Hself).
      rewrite !(AddPairs_loop_pair key y _ s d w D).
      destruct (String.eqb key ""); [apply Hrest; exact Hself |].
      destruct (convert y true) as [| | av];
        [apply Hrest; exact Hself | apply Hrest; exact Hself |].
      apply Hrest. unfold sameButDetails. cbn. rewrite D.
      repeat (split; [reflexivity |]). split; intros E; discriminate E.
  - intros key val rest Hk. rewrite !AddPairs_live by exact Hl.
    apply AddPairs_loop_nonstring. exact Hk.
  - intros val rest. rewrite !AddPairs_live by exact Hl.
    rewrite (AddPairs_loop_pair "" val rest s d w Hd). reflexivity.
  - intros key t rest Hk. rewrite !AddPairs_live by exact Hl.
    rewrite (AddPairs_loop_pair key (VOther t) rest s d w Hd).
    apply String.eqb_neq in Hk. rewrite Hk. reflexivity.
  - rewrite AddPairs_live by exact Hl.
    rewrite (AddPairs_loop_pair "a" (VInt 0) _ s d w Hd).
    cbn [String.eqb Ascii.eqb Bool.eqb convert andb isZeroValue].
    change (convert (VInt 0) true) with Skip. cbv iota.
    rewrite (AddPairs_loop_pair "b" (VBool false) _ s d w Hd).
    change (convert (VBool false) true) with Skip.
    change (String.eqb "b" "") with false. cbv iota.
    rewrite (AddPairs_loop_pair "c" (VString "") _ s d w Hd).
    change (String.eqb "c" "") with false.
    change (convert (VString "") true) with (Attr (mkAV (Some "") 0 false)).
    cbv iota.
    rewrite (AddPairs_loop_pair "d" (VString "x") []
               (withAttribute s d "c" (mkAV (Some "") 0 false)) _ w
               eq_refl).
    reflexivity.
Qed.


(** ** Sub-spans *)

Lemma NewSubSpan_empty (dt : N) (s : Span) (w : World) :
  GetSpanID s = 0 ->
  NewSubSpan dt s w =
  Some (FROSpan emptyROSpan, s, addLog LFail (refusalLine s) w).
Proof.
  intros H. unfold NewSubSpan, bind, logIfEmpty, refusalLine.
  rewrite H. reflexivity.
Qed.

(** [NewSubSpan] on a parent whose walker has started. *)
Lemma NewSubSpan_started (dt : N) (s : Span) (w : World) :
  GetSpanID s <> 0 -> kidSpan s <> 0 ->
  NewSubSpan dt s w =
  Some (FSpan (childOf
                 (afterSubSpan s (spanInc s)
                    (walkStep (spanInc s) (kidSpan s)))
                 (walkStep (spanInc s) (kidSpan s)) (clock w + Z.of_N dt)),
        afterSubSpan s (spanInc s) (walkStep (spanInc s) (kidSpan s)),
        tick dt w).
Proof.
  intros Hid Hkid. apply Z.eqb_neq in Hid, Hkid.
  unfold NewSubSpan, bind. rewrite Hid. unfold ret at 1. cbn iota beta.
  rewrite Hkid. unfold ret at 1. cbn iota beta.
  unfold time_Now, ret, childOf, initDetails, IsZero. cbn.
  destruct (start s =? 0), (clock w + Z.of_N dt =? 0); reflexivity.
Qed.

(** The first [NewSubSpan] on a parent: the stride is drawn, and made odd. *)
Lemma NewSubSpan_first (dt : N) (s : Span) (w : World) (r : Z) (w1 : World) :
  GetSpanID s <> 0 -> kidSpan s = 0 -> NewSpanID 0 w = Some (r, w1) ->
  NewSubSpan dt s w =
  Some (FSpan (childOf
                 (afterSubSpan s (Z.lor 1 r)
                    (walkStep (Z.lor 1 r) (GetSpanID s)))
                 (walkStep (Z.lor 1 r) (GetSpanID s))
                 (clock w1 + Z.of_N dt)),
        afterSubSpan s (Z.lor 1 r) (walkStep (Z.lor 1 r) (GetSpanID s)),
        tick dt w1).
Proof.
  intros Hid Hkid Hr. apply Z.eqb_neq in Hid.
  unfold NewSubSpan, bind. rewrite Hid. unfold ret at 1. cbn iota beta.
  rewrite Hkid. change (0 =? 0) with true. cbv iota. cbv beta. rewrite Hr.
  unfold ret at 1. cbn iota beta.
  unfold time_Now, ret, childOf, initDetails, IsZero. cbn.
  destruct (start s =? 0), (clock w1 + Z.of_N dt =? 0); reflexivity.
Qed.

Lemma last_cons (l : list Z) :
  forall x a, List.last (x :: l) a = List.last l x.
Proof.
  induction l as [| y l IH]; intros x a; [reflexivity |].
  change (List.last (x :: y :: l) a) with (List.last (y :: l) a).
  rewrite (IH y a), (IH y x). reflexivity.
Qed.

Lemma NewSubSpans_started (dts : list N) :
  forall s w,
    GetSpanID s <> 0 -> kidSpan s <> 0 -> Z.odd (spanInc s) = true ->
    exists kids s' w',
      NewSubSpans dts s w = Some (kids, s', w') /\
      map factoryID kids = walk (spanInc s) (kidSpan s) (length dts) /\
      Forall (fun f => isSpan f = true) kids /\
      GetSpanID s' = GetSpanID s /\ spanInc s' = spanInc s /\
      kidSpan s' = List.last (walk (spanInc s) (kidSpan s) (length dts))
                     (kidSpan s).
Proof.
  induction dts as [| dt dts IH]; intros s w Hid Hkid Hodd.
  - exists [], s, w. cbn. repeat split; constructor.
  - cbn [NewSubSpans]. unfold bind at 1.
    rewrite (NewSubSpan_started dt s w Hid Hkid). cbn iota beta.
    set (k := walkStep (spanInc s) (kidSpan s)).
    set (s1 := afterSubSpan s (spanInc s) k).
    destruct (IH s1 (tick dt w)) as [kids [s' [w' [H1 [H2 [H3 [H4 [H5 H6]]]]]]]].
    + exact Hid.
    + apply walkStep_nonzero. exact Hodd.
    + exact Hodd.
    + unfold bind. cbn [snd fst]. rewrite H1. cbn iota beta.
      eexists _, _, _. split; [reflexivity |].
      cbn [map fst snd factoryID length walk]. fold k.
      change (spanInc s1) with (spanInc s) in *.
      change (kidSpan s1) with k in *.
      change (GetSpanID s1) with (GetSpanID s) in *.
      split; [f_equal; exact H2 |].
      split; [constructor; [reflexivity | exact H3] |].
      split; [exact H4 |]. split; [exact H5 |].
      rewrite H6. symmetry. apply last_cons.
Qed.

(** C1.  On a parent with a nonzero span ID, [N] successive [NewSubSpan]
    calls, [N] below 2^64, return [N] children with pairwise distinct,
    nonzero span IDs.  The IDs are the walk of the spec: it starts from the
    parent's span ID (from the last ID issued, on a parent that has made
    sub-spans before), adds the stride on each call and adds it once more
    where the sum is zero.  The stride is the odd number [1 | NewSpanID(0)],
    drawn by the first call the parent ever sees and kept from then on. *)
Theorem NewSubSpans_distinct (dts : list N) (s : Span) (w : World) :
  wf s -> GetSpanID s <> 0 -> Z.of_nat (length dts) < 2 ^ 64 ->
  (kidSpan s = 0 -> supplies 1 w) ->
  exists kids s' w' inc,
    NewSubSpans dts s w = Some (kids, s', w') /\
    length kids = length dts /\
    Forall (fun f => isSpan f = true) kids /\
    List.NoDup (map factoryID kids) /\
    Forall (fun id => id <> 0 /\ isU64 id) (map factoryID kids) /\
    Z.odd inc = true /\
    map factoryID kids =
    walk inc (if kidSpan s =? 0 then GetSpanID s else kidSpan s)
      (length dts) /\
    (kidSpan s <> 0 -> inc = spanInc s) /\
    (kidSpan s = 0 ->
     exists r w1, NewSpanID 0 w = Some (r, w1) /\ inc = Z.lor 1 r) /\
    (dts <> [] -> spanInc s' = inc).
Proof.
  intros Hwf Hid Hn Hsup.
  destruct Hwf as [Rid [Rkid [Rinc [Hodd _]]]].
  assert (Hlen : forall (kids : list Factory) inc k n,
            map factoryID kids = walk inc k n -> length kids = n).
  { intros kids inc k n H. rewrite <- (length_map factoryID), H.
    clear. revert k. induction n; intros k; cbn; [reflexivity |].
    f_equal. apply IHn. }
  destruct (Z.eq_dec (kidSpan s) 0) as [Hfresh | Hstarted].
  - destruct (NewSpanID_returns 0 w (Hsup Hfresh)) as [r [w1 [Hr _]]].
    destruct (NewSpanID_spec _ _ _ _ Hr) as [_ [Rr _]].
    pose proof (lor_one_odd r ltac:(destruct Rr; lia)) as Hinc.
    rewrite Hfresh. change (0 =? 0) with true. cbv iota.
    destruct (walk_distinct (Z.lor 1 r) (GetSpanID s) (length dts) Hinc Rid Hn)
      as [Hnd Hnz].
    destruct dts as [| dt dts].
    + exists [], s, w, (Z.lor 1 r). cbn.
      repeat split; try constructor; try congruence. eauto.
    + cbn [NewSubSpans]. unfold bind at 1.
      rewrite (NewSubSpan_first dt s w r w1 Hid Hfresh Hr). cbn iota beta.
      set (k := walkStep (Z.lor 1 r) (GetSpanID s)) in *.
      set (s1 := afterSubSpan s (Z.lor 1 r) k).
      destruct (NewSubSpans_started dts s1 (tick dt w1))
        as [kids [s' [w' [H1 [H2 [H3 [H4 [H5 H6]]]]]]]].
      * exact Hid.
      * apply walkStep_nonzero. exact Hinc.
      * exact Hinc.
      * unfold bind. cbn [snd fst]. rewrite H1. cbn iota beta.
        change (spanInc s1) with (Z.lor 1 r) in *.
        change (kidSpan s1) with k in *.
        assert (Hids : map factoryID (FSpan (childOf s1 k
                         (clock w1 + Z.of_N dt)) :: kids) =
                       walk (Z.lor 1 r) (GetSpanID s) (length (dt :: dts))).
        { cbn [map length walk factoryID]. fold k. f_equal. exact H2. }
        exists (FSpan (childOf s1 k (clock w1 + Z.of_N dt)) :: kids), s', w',
          (Z.lor 1 r).
        split; [reflexivity |].
        split; [exact (Hlen _ _ _ _ Hids) |].
        split; [constructor; [reflexivity | exact H3] |].
        rewrite Hids.
        split; [exact Hnd |]. split; [exact Hnz |]. split; [exact Hinc |].
        split; [reflexivity |]. split; [intros C; contradiction |].
        split; [intros _; eauto |]. intros _. exact H5.
  - specialize (Hodd Hstarted).
    apply Z.eqb_neq in Hstarted as Hk. rewrite Hk.
    destruct (walk_distinct (spanInc s) (kidSpan s) (length dts) Hodd Rkid Hn)
      as [Hnd Hnz].
    destruct (NewSubSpans_started dts s w Hid Hstarted Hodd)
      as [kids [s' [w' [H1 [H2 [H3 [H4 [H5 H6]]]]]]]].
    exists kids, s', w', (spanInc s). split; [exact H1 |].
    split; [exact (Hlen _ _ _ _ H2) |]. split; [exact H3 |].
    rewrite H2. split; [exact Hnd |]. split; [exact Hnz |].
    split; [exact Hodd |]. split; [reflexivity |].
    split; [reflexivity |]. split; [intros C; contradiction |].
    intros _. exact H5.
Qed.


(** What a [NewSubSpan] that returns has done, read back from its result. *)
Lemma NewSubSpan_inv (dt : N) (s : Span) (w : World) (f : Factory)
    (s' : Span) (w' : World) :
  GetSpanID s <> 0 -> NewSubSpan dt s w = Some (f, s', w') ->
  exists inc k0 w1,
    (kidSpan s <> 0 /\ inc = spanInc s /\ k0 = kidSpan s /\ w1 = w \/
     kidSpan s = 0 /\ k0 = GetSpanID s /\
     exists r, NewSpanID 0 w = Some (r, w1) /\ inc = Z.lor 1 r) /\
    s' = afterSubSpan s inc (walkStep inc k0) /\
    f = FSpan (childOf s' (walkStep inc k0) (clock w1 + Z.of_N dt)) /\
    w' = tick dt w1.
Proof.
  intros Hid H. destruct (Z.eq_dec (kidSpan s) 0) as [Hk | Hk].
  - destruct (NewSpanID 0 w) as [[r w1] |] eqn:Hr.
    + rewrite (NewSubSpan_first dt s w r w1 Hid Hk Hr) in H.
      injection H as <- <- <-.
      exists (Z.lor 1 r), (GetSpanID s), w1.
      split; [right; eauto | auto].
    + exfalso. apply Z.eqb_neq in Hid.
      unfold NewSubSpan, bind in H. rewrite Hid in H.
      unfold ret at 1 in H. cbn iota beta in H. rewrite Hk in H.
      change (0 =? 0) with true in H. cbv iota beta in H.
      rewrite Hr in H. discriminate H.
  - rewrite (NewSubSpan_started dt s w Hid Hk) in H.
    injection H as <- <- <-.
    exists (spanInc s), (kidSpan s), w. split; [left; auto | auto].
Qed.

(** A child ID issued fewer than a period's strides from the parent's own ID
    differs from it. *)
Lemma child_differs (inc sid m : Z) :
  Z.odd inc = true -> isU64 sid -> 0 <= m ->
  nextStride inc sid m < 2 ^ 64 ->
  walkStep inc (wrap64 (sid + m * inc)) <> sid.
Proof.
  unfold nextStride. intros Hodd Hsid Hm Hper. rewrite walkStep_stride.
  rewrite <- (wrap64_small sid Hsid) at 3.
  replace sid with (sid + 0 * inc) at 3 by lia.
  intros H. symmetry in H. revert H.
  apply strides_differ; [exact Hodd | |];
    destruct (wrap64 (sid + (m + 1) * inc) =? 0); lia.
Qed.

(** C5, as amended.  On a non-empty parent [P] whose walker is within the
    period (in particular on one that has made fewer than 2^64 - 2
    sub-spans), [NewSubSpan] returns a child of the trace and project of
    [P] whose span ID is nonzero and is not that of [P], whose start is the
    clock reading the call takes, not before the start of [P], and whose
    details name the span ID of [P] in hex as the parent and say "same
    process" exactly when [P] has a start. *)
Theorem NewSubSpan_child (dt : N) (P : Span) (w : World) :
  wf P -> GetSpanID P <> 0 -> withinPeriod P -> start P <= clock w ->
  (kidSpan P = 0 -> supplies 1 w) ->
  exists kid P' w' d,
    NewSubSpan dt P w = Some (FSpan kid, P', w') /\
    traceID (ro kid) = traceID (ro P) /\ proj (ro kid) = proj (ro P) /\
    GetSpanID kid <> 0 /\ GetSpanID kid <> GetSpanID P /\
    start kid = clock w + Z.of_N dt /\ clock w' = start kid /\
    start P <= start kid /\
    details kid = Some d /\
    SpanId d = HexSpanID (GetSpanID kid) /\
    ParentSpanId d = HexSpanID (GetSpanID P) /\
    (SameProcessAsParentSpan d = true <-> start P <> 0).
Proof.
  intros Hwf Hid Hper Hclock Hsup.
  destruct Hwf as [Rid [Rkid [Rinc [Hodd _]]]].
  assert (Hsame : forall b : bool,
            negb (IsZero (start P)) = true <-> start P <> 0).
  { intros _. unfold IsZero. rewrite negb_true_iff. apply Z.eqb_neq. }
  destruct (Z.eq_dec (kidSpan P) 0) as [Hk | Hk].
  - destruct (NewSpanID_returns 0 w (Hsup Hk)) as [r [w1 [Hr _]]].
    destruct (NewSpanID_spec _ _ _ _ Hr) as [_ [Rr [Hc _]]].
    pose proof (lor_one_odd r ltac:(destruct Rr; lia)) as Hinc.
    rewrite (NewSubSpan_first dt P w r w1 Hid Hk Hr).
    eexists _, _, _, _. split; [reflexivity |].
    cbn [childOf ro start details traceID proj SetSpanID GetSpanID spanID
         afterSubSpan tick clock SpanId ParentSpanId
         SameProcessAsParentSpan].
    split; [reflexivity |]. split; [reflexivity |].
    split; [apply walkStep_nonzero; exact Hinc |].
    split.
    { pose proof (child_differs (Z.lor 1 r) (GetSpanID P) 0 Hinc Rid
                    ltac:(lia)
                    ltac:(unfold nextStride;
                          destruct (wrap64 (GetSpanID P + (0 + 1) * Z.lor 1 r)
                                    =? 0); lia)) as Hd.
      rewrite Z.mul_0_l, Z.add_0_r, (wrap64_small _ Rid) in Hd. exact Hd. }
    rewrite Hc.
    split; [reflexivity |]. split; [reflexivity |]. split; [lia |].
    split; [reflexivity |]. split; [reflexivity |]. split; [reflexivity |].
    apply (Hsame true).
  - specialize (Hodd Hk).
    rewrite (NewSubSpan_started dt P w Hid Hk).
    eexists _, _, _, _. split; [reflexivity |].
    cbn [childOf ro start details traceID proj SetSpanID GetSpanID spanID
         afterSubSpan tick clock SpanId ParentSpanId
         SameProcessAsParentSpan].
    split; [reflexivity |]. split; [reflexivity |].
    split; [apply walkStep_nonzero; exact Hodd |].
    split.
    { destruct Hper as [C | [m [Hm [Hs Hm2]]]]; [contradiction |].
      unfold strideOf in Hs. rewrite Hs.
      apply child_differs; [exact Hodd | exact Rid | exact Hm | exact Hm2]. }
    split; [reflexivity |]. split; [reflexivity |]. split; [lia |].
    split; [reflexivity |]. split; [reflexivity |]. split; [reflexivity |].
    apply (Hsame true).
Qed.


(** ** What a call leaves of the span *)

Lemma logIfEmpty_inv (s : Span) (b : bool) (w : World) (r : bool)
    (w1 : World) :
  logIfEmpty s b w = Some (r, w1) ->
  r = refused s b /\
  w1 = (if r then addLog LFail (refusalLine s) w else w).
Proof.
  unfold logIfEmpty, refused, refusalLine, bind, lager, ret.
  destruct (GetSpanID s =? 0).
  - intros H. injection H as <- <-. auto.
  - destruct (negb (IsZero (end_ s))).
    + destruct (details s); [| discriminate].
      intros H. injection H as <- <-. auto.
    + cbn [orb]. destruct (b && IsZero (start s));
        intros H; injection H as <- <-; auto.
Qed.

Lemma sameButDetails_refl (s : Span) : sameButDetails s s.
Proof. unfold sameButDetails. tauto. Qed.

Lemma keepsCount_refl (s : Span) : keepsCount s s.
Proof. intros d H. exists d. auto. Qed.

Lemma sameButDetails_withDetails (s : Span) (d d' : Ct2Span) :
  details s = Some d -> sameButDetails s (withDetails s d').
Proof.
  intros H. unfold sameButDetails. cbn. rewrite H.
  repeat (split; [reflexivity |]). split; intros E; discriminate E.
Qed.

Lemma keepsCount_withDetails (s : Span) (d d' : Ct2Span) :
  details s = Some d -> ChildSpanCount d' = ChildSpanCount d ->
  keepsCount s (withDetails s d').
Proof.
  intros H Hc d0 E. rewrite H in E. injection E as <-.
  exists d'. split; [reflexivity | exact Hc].
Qed.

Lemma keepsCount_trans (s1 s2 s3 : Span) :
  keepsCount s1 s2 -> keepsCount s2 s3 -> keepsCount s1 s3.
Proof.
  intros H12 H23 d E. destruct (H12 d E) as [d2 [E2 C2]].
  destruct (H23 d2 E2) as [d3 [E3 C3]]. exists d3. split; [exact E3 | lia].
Qed.

Lemma wf_sameButDetails (s s' : Span) :
  wf s -> sameButDetails s s' -> wf s'.
Proof.
  unfold wf, sameButDetails, GetSpanID.
  intros [H1 [H2 [H3 [H4 H5]]]] [E1 [E2 [E3 [E4 [E5 [E6 [E7 E8]]]]]]].
  rewrite E1, E3, E4, E6, E7. repeat (split; [assumption |]).
  intros H E. apply E8 in E. exact (H5 H E).
Qed.

Ltac run_guard H :=
  unfold returning, SetIsServer, SetIsClient, SetIsPublisher, SetIsSubscriber,
    setSpanKind, SetDisplayName, AddAttribute, AddPairs, SetStatusCode,
    SetStatusMessage, withStatus, bind in H;
  match type of H with
  | context [logIfEmpty ?s ?b ?w] =>
      let L := fresh "L" in
      destruct (logIfEmpty s b w) as [[[] ?] |] eqn:L;
      cbn iota beta in H; try discriminate H
  end.

(** A mutator that, once let through, stores into the details: it needs
    them, and keeps the child count they hold. *)
Ltac plain_mutator H :=
  run_guard H;
  [ unfold ret in H; injection H as <- <- <-; left;
    auto using sameButDetails_refl, keepsCount_refl
  | match type of H with
    | context [details ?s] =>
        let D := fresh "D" in
        destruct (details s) as [? |] eqn:D; [| discriminate H];
        unfold ret in H; injection H as <- <- <-; left;
        split; [eapply sameButDetails_withDetails; eassumption |];
        split; [eapply keepsCount_withDetails; [eassumption | reflexivity] |];
        reflexivity
    end ].

(** A mutator that returns has changed nothing but the details, kept the
    child count, and returned no new factory. *)
Lemma mutator_effect (c : Call) (s : Span) (w : World) (r : Ret) (s' : Span)
    (w' : World) :
  isMutator c = true -> call c s w = Some (r, s', w') ->
  sameButDetails s s' /\ keepsCount s s' /\ r = refusedReturn c \/
  sameButDetails s s' /\ keepsCount s s' /\
  exists e, r = RetError e.
Proof.
  intros Hm H.
  destruct c; try discriminate Hm; cbn [call refusedReturn] in *.
  - plain_mutator H.
  - plain_mutator H.
  - plain_mutator H.
  - plain_mutator H.
  - plain_mutator H.
  - run_guard H.
    + unfold ret in H. injection H as <- <- <-.
      left. auto using sameButDetails_refl, keepsCount_refl.
    + unfold addAttribute, ret in H.
      destruct (String.eqb key "").
      { injection H as <- <- <-. right.
        split; [apply sameButDetails_refl |].
        split; [apply keepsCount_refl | eauto]. }
      destruct (convert val false).
      * injection H as <- <- <-. left.
        auto using sameButDetails_refl, keepsCount_refl.
      * injection H as <- <- <-. right.
        split; [apply sameButDetails_refl |].
        split; [apply keepsCount_refl | eauto].
      * destruct (details s) as [d |] eqn:D; [| discriminate H].
        injection H as <- <- <-. left.
        split; [eapply sameButDetails_withDetails; eassumption |].
        split; [eapply keepsCount_withDetails; [eassumption | reflexivity] |].
        reflexivity.
  - run_guard H.
    + unfold ret in H. injection H as <- <- <-.
      left. auto using sameButDetails_refl, keepsCount_refl.
    + apply logIfEmpty_inv in L as [R ->].
      destruct (AddPairs_loop pairs s w) as [[s1 w1] |] eqn:E;
        [| discriminate H].
      unfold ret in H. injection H as <- <- <-.
      destruct (details s) as [d |] eqn:D.
      * destruct (AddPairs_loop_total pairs s w) as [s2 [w2 [E2 [S2 K2]]]];
          [rewrite D; discriminate |].
        rewrite E in E2. injection E2 as <- <-.
        left. split; [exact S2 |]. split; [| reflexivity].
        intros d0 E0. rewrite D in E0. injection E0 as <-. apply K2.
        exact D.
      * left. split; [| split; [intros d0 E0; rewrite D in E0; discriminate E0
                                | reflexivity]].
        clear R. revert s w s1 w1 E D.
        induction pairs as [| x | x y rest IH] using pairs_ind;
          intros s w s1 w1 E D.
        -- injection E as <- <-. apply sameButDetails_refl.
        -- rewrite AddPairs_loop_single in E. injection E as <- <-.
           apply sameButDetails_refl.
        -- destruct x as [| key | | | | | |];
             try (rewrite AddPairs_loop_nonstring in E
                    by (intros k; discriminate);
                  eapply IH; eassumption).
           cbn [AddPairs_loop] in E. unfold bind at 1 in E.
           unfold addAttribute in E.
           destruct (String.eqb key "").
           { unfold ret at 1 in E. cbn iota beta in E.
             unfold bind, lager in E. cbn [fst snd] in E.
             eapply IH; eassumption. }
           destruct (convert y true).
           ++ unfold ret at 1 in E. cbn iota beta in E.
              unfold bind, ret in E. cbn [fst snd] in E.
              eapply IH; eassumption.
           ++ unfold ret at 1 in E. cbn iota beta in E.
              unfold bind, lager in E. cbn [fst snd] in E.
              eapply IH; eassumption.
           ++ rewrite D in E. discriminate E.
  - plain_mutator H.
  - plain_mutator H.
Qed.


Lemma Finish_effect (dt : N) (s : Span) (w : World) (dur : Duration)
    (s' : Span) (w' : World) :
  Finish dt s w = Some (dur, s', w') ->
  ro s' = ro s /\ start s' = start s /\ spanInc s' = spanInc s /\
  kidSpan s' = kidSpan s /\ keepsCount s s' /\
  (details s = None <-> details s' = None) /\
  (end_ s' = end_ s \/ end_ s = 0 /\ details s' <> None).
Proof.
  intros H. unfold Finish, bind at 1 in H.
  destruct (logIfEmpty s true w) as [[[] w1] |] eqn:L; cbn iota beta in H;
    try discriminate H.
  - unfold ret in H. injection H as <- <- <-.
    repeat (split; [reflexivity |]).
    split; [apply keepsCount_refl |]. split; [tauto | left; reflexivity].
  - apply logIfEmpty_inv in L as [R ->]. symmetry in R.
    pose proof (refused_not_live s R) as [_ [_ He]].
    destruct (details s) as [d |] eqn:D; [| discriminate H].
    unfold bind at 1 in H.
    assert (Hn : exists n,
              match DisplayName d with
              | Some _ => ret s
              | None => bind os_Args0 (fun a => SetDisplayName a s)
              end w =
              Some (withDetails s
                      (mkCt2Span (Name d) (SpanId d) (ParentSpanId d) n
                         (StartTime d) (EndTime d) (SpanKind d)
                         (Attributes d) (StatusOf d)
                         (SameProcessAsParentSpan d) (ChildSpanCount d)), w)).
    { destruct (DisplayName d) as [n |] eqn:Dn.
      - exists (Some n). unfold ret, withDetails. do 2 f_equal.
        destruct s as [r0 c0 st0 e0 p0 d0 i0 k0]. cbn in *. subst d0.
        destruct d. cbn in *. subst. reflexivity.
      - eexists. unfold bind, os_Args0, SetDisplayName, bind.
        rewrite (logIfEmpty_allows s true w R). cbn iota beta. rewrite D.
        reflexivity. }
    destruct Hn as [n Hn]. rewrite Hn in H. cbn iota beta in H.
    unfold bind at 1, time_Now in H. cbn iota beta in H.
    cbn [details withDetails] in H. unfold bind at 1 in H.
    match type of H with
    | match trySend ?c ?sp ?w0 with _ => _ end = _ =>
        destruct (trySend c sp w0) as [[sent w2] |]; [| discriminate H]
    end.
    unfold bind in H.
    destruct sent; unfold ret, spanDropped in H; injection H as <- <- <-;
      cbn;
      (repeat (split; [reflexivity |]));
      (split; [intros d0 E; rewrite D in E; injection E as <-; eexists;
               split; reflexivity |]);
      (split; [split; intros E; discriminate E |]);
      right; (split; [exact He | discriminate]).
Qed.

Lemma wrapInt64_range (x : Z) : isInt64 (wrapInt64 x).
Proof.
  unfold isInt64, wrapInt64.
  pose proof (Z.mod_pos_bound (x + 2 ^ 63) (2 ^ 64) ltac:(lia)). lia.
Qed.

Lemma wrapInt64_small (x : Z) : isInt64 x -> wrapInt64 x = x.
Proof.
  unfold isInt64, wrapInt64. intros H. rewrite Z.mod_small by lia. lia.
Qed.

Lemma wrapInt64_add_l (a b : Z) : wrapInt64 (wrapInt64 a + b) = wrapInt64 (a + b).
Proof.
  unfold wrapInt64. f_equal.
  replace ((a + 2 ^ 63) mod 2 ^ 64 - 2 ^ 63 + b + 2 ^ 63)
    with ((a + 2 ^ 63) mod 2 ^ 64 + b) by lia.
  rewrite Zplus_mod_idemp_l. f_equal. lia.
Qed.

(** What any call leaves of the span: who it is, when it started, and its
    details if it had any; the child count moves exactly on a counted
    child. *)
Lemma call_effect (c : Call) (s : Span) (w : World) (r : Ret) (s' : Span)
    (w' : World) :
  call c s w = Some (r, s', w') ->
  ro s' = ro s /\ start s' = start s /\
  (details s = None <-> details s' = None) /\
  (end_ s' = end_ s \/ end_ s = 0 /\ details s' <> None) /\
  (forall d, details s = Some d ->
             exists d', details s' = Some d' /\
                        ChildSpanCount d' =
                        if countedChild (s, r)
                        then wrapInt64 (ChildSpanCount d + 1)
                        else ChildSpanCount d) /\
  (spanInc s' = spanInc s /\ kidSpan s' = kidSpan s \/
   exists dt, c = CNewSubSpan dt /\ GetSpanID s <> 0).
Proof.
  intros H. destruct (isMutator c) eqn:Hm.
  - assert (Hr : countedChild (s, r) = false).
    { destruct (mutator_effect c s w r s' w' Hm H)
        as [[_ [_ ->]] | [_ [_ [e ->]]]]; [destruct c |]; reflexivity. }
    assert (Hs : sameButDetails s s' /\ keepsCount s s').
    { destruct (mutator_effect c s w r s' w' Hm H)
        as [[? [? _]] | [? [? _]]]; auto. }
    destruct Hs as [[E1 [E2 [E3 [E4 [E5 [E6 [E7 E8]]]]]]] K].
    rewrite Hr. auto 10.
  - destruct c; try discriminate Hm; cbn [call] in H.
    + unfold bind in H.
      destruct (NewSubSpan dt s w) as [[[f s1] w1] |] eqn:E;
        [| discriminate H].
      unfold ret in H. cbn [fst snd] in H. injection H as <- <- <-.
      destruct (Z.eq_dec (GetSpanID s) 0) as [Hid | Hid].
      * rewrite (NewSubSpan_empty dt s w Hid) in E. injection E as <- <- <-.
        split; [reflexivity |]. split; [reflexivity |]. split; [tauto |].
        split; [left; reflexivity |]. split; [| left; auto].
        intros d D. exists d. auto.
      * destruct (NewSubSpan_inv dt s w f s1 w1 Hid E)
          as [inc [k0 [w0 [_ [-> [-> _]]]]]].
        cbn [afterSubSpan ro start end_ details].
        split; [reflexivity |]. split; [reflexivity |].
        split; [destruct (details s); [destruct (IsZero (end_ s)) |];
                split; intros C; discriminate C || reflexivity |].
        split; [left; reflexivity |]. split; [| right; eauto].
        intros d D. rewrite D. unfold countedChild. cbn [fst snd].
        destruct (IsZero (end_ s)); eexists; split; reflexivity.
    + unfold bind in H.
      destruct (Finish dt s w) as [[[dur s1] w1] |] eqn:E; [| discriminate H].
      unfold ret in H. cbn [fst snd] in H. injection H as <- <- <-.
      destruct (Finish_effect dt s w dur s1 w1 E)
        as [E1 [E2 [E3 [E4 [K [E5 E6]]]]]].
      change (countedChild (s, RetDuration dur)) with false. cbv iota.
      auto 10.
    + destruct (details s) as [d |] eqn:D; [| discriminate H].
      unfold ret in H. injection H as <- <- <-.
      cbn. split; [reflexivity |]. split; [reflexivity |].
      split; [split; intros C; discriminate C |].
      split; [left; reflexivity |]. split; [| left; auto].
      intros d0 E0. injection E0 as <-. eexists. split; reflexivity.
Qed.

(** Every call keeps a well-formed span well-formed. *)
Lemma call_wf (c : Call) (s : Span) (w : World) (r : Ret) (s' : Span)
    (w' : World) :
  wf s -> call c s w = Some (r, s', w') -> wf s'.
Proof.
  intros Hwf H.
  destruct (call_effect c s w r s' w' H) as [E1 [E2 [E3 [E4 [_ E5]]]]].
  destruct Hwf as [H1 [H2 [H3 [H4 H5]]]].
  unfold wf, GetSpanID in *. rewrite E1, E2.
  split; [exact H1 |].
  assert (Hdet : start s <> 0 \/ end_ s' <> 0 -> details s' <> None).
  { intros Hse Hn. destruct E4 as [E4 | [_ E4]]; [| exact (E4 Hn)].
    rewrite E4 in Hse. apply E3 in Hn. exact (H5 Hse Hn). }
  destruct E5 as [[E5 E6] | [dt [-> Hid]]].
  - rewrite E5, E6. auto.
  - cbn [call] in H. unfold bind in H.
    destruct (NewSubSpan dt s w) as [[[f s1] w1] |] eqn:E; [| discriminate H].
    unfold ret in H. cbn [fst snd] in H. injection H as <- <- <-.
    destruct (NewSubSpan_inv dt s w f s1 w1 Hid E)
      as [inc [k0 [w0 [Hc [-> [-> _]]]]]].
    cbn [afterSubSpan spanInc kidSpan] in *.
    split; [apply walkStep_range |].
    destruct Hc as [[Hk [-> [-> _]]] | [Hk [-> [r [Hr ->]]]]].
    + auto.
    + destruct (NewSpanID_spec _ _ _ _ Hr) as [_ [Rr _]].
      split; [apply lor_one_range; exact Rr |].
      split; [intros _; apply lor_one_odd; destruct Rr; lia | exact Hdet].
Qed.


Lemma calls_length (cs : list Call) :
  forall s w h s' w',
    calls cs s w = Some (h, s', w') -> length h = length cs.
Proof.
  induction cs as [| c cs IH]; intros s w h s' w' H.
  - injection H as <- <- <-. reflexivity.
  - cbn [calls] in H. unfold bind at 1 in H.
    destruct (call c s w) as [[[r s1] w1] |]; [| discriminate H].
    unfold bind in H. cbn [fst snd] in H.
    destruct (calls cs s1 w1) as [[[h1 s2] w2] |] eqn:E; [| discriminate H].
    unfold ret in H. cbn [fst snd] in H. injection H as <- <- <-.
    cbn [length]. f_equal. eapply IH. exact E.
Qed.

Lemma calls_wf (cs : list Call) :
  forall s w h s' w',
    wf s -> calls cs s w = Some (h, s', w') -> wf s'.
Proof.
  induction cs as [| c cs IH]; intros s w h s' w' Hwf H.
  - injection H as <- <- <-. exact Hwf.
  - cbn [calls] in H. unfold bind at 1 in H.
    destruct (call c s w) as [[[r s1] w1] |] eqn:Ec; [| discriminate H].
    unfold bind in H. cbn [fst snd] in H.
    destruct (calls cs s1 w1) as [[[h1 s2] w2] |] eqn:E; [| discriminate H].
    unfold ret in H. cbn [fst snd] in H. injection H as <- <- <-.
    eapply IH; [| exact E]. eapply call_wf; eassumption.
Qed.

(** C2.  Through any sequence of calls on a span that has its details, the
    details stay, and their child count moves by one, in the [int64] it is
    kept in, for each [NewSubSpan] that returned a child while the span's
    [end] was zero, and for nothing else: on a span built with a count of
    zero it is the number of such calls (for fewer than 2^63 calls).  A
    [NewSubSpan] on a span that is finished leaves the details as they
    are. *)
Theorem childSpanCount_counts (cs : list Call) :
  forall s w h s' w' d,
    details s = Some d -> isInt64 (ChildSpanCount d) ->
    calls cs s w = Some (h, s', w') ->
    exists d',
      details s' = Some d' /\
      ChildSpanCount d' =
      wrapInt64 (ChildSpanCount d +
                 Z.of_nat (length (List.filter countedChild h))) /\
      (ChildSpanCount d = 0 -> Z.of_nat (length cs) < 2 ^ 63 ->
       ChildSpanCount d' = Z.of_nat (length (List.filter countedChild h))) /\
      (forall dt f s1 w1,
         end_ s' <> 0 -> NewSubSpan dt s' w' = Some (f, s1, w1) ->
         details s1 = details s').
Proof.
  assert (Hmain : forall cs s w h s' w' d,
    details s = Some d -> isInt64 (ChildSpanCount d) ->
    calls cs s w = Some (h, s', w') ->
    exists d',
      details s' = Some d' /\
      ChildSpanCount d' =
      wrapInt64 (ChildSpanCount d +
                 Z.of_nat (length (List.filter countedChild h)))).
  { clear cs. induction cs as [| c cs IH]; intros s w h s' w' d D R H.
    - injection H as <- <- <-. exists d. split; [exact D |].
      cbn. rewrite Z.add_0_r. symmetry. apply wrapInt64_small. exact R.
    - cbn [calls] in H. unfold bind at 1 in H.
      destruct (call c s w) as [[[r s1] w1] |] eqn:Ec; [| discriminate H].
      unfold bind in H. cbn [fst snd] in H.
      destruct (calls cs s1 w1) as [[[h1 s2] w2] |] eqn:E; [| discriminate H].
      unfold ret in H. cbn [fst snd] in H. injection H as <- <- <-.
      destruct (call_effect c s w r s1 w1 Ec) as [_ [_ [_ [_ [K _]]]]].
      destruct (K d D) as [d1 [D1 C1]].
      assert (R1 : isInt64 (ChildSpanCount d1)).
      { rewrite C1. destruct (countedChild (s, r));
          [apply wrapInt64_range | exact R]. }
      destruct (IH s1 w1 h1 s2 w2 d1 D1 R1 E) as [d' [D' C']].
      exists d'. split; [exact D' |]. rewrite C', C1.
      cbn [List.filter]. destruct (countedChild (s, r)).
      + cbn [length]. rewrite wrapInt64_add_l. f_equal. lia.
      + reflexivity. }
  intros s w h s' w' d D R H.
  destruct (Hmain cs s w h s' w' d D R H) as [d' [D' C']].
  exists d'. split; [exact D' |]. split; [exact C' |]. split.
  - intros Z0 Hn. rewrite C', Z0. apply wrapInt64_small.
    pose proof (List.filter_length_le countedChild h) as Hle.
    rewrite (calls_length cs s w h s' w' H) in Hle.
    unfold isInt64. lia.
  - intros dt f s1 w1 He Hk.
    destruct (Z.eq_dec (GetSpanID s') 0) as [Hid | Hid].
    + rewrite (NewSubSpan_empty dt s' w' Hid) in Hk.
      injection Hk as <- <- <-. reflexivity.
    + destruct (NewSubSpan_inv dt s' w' f s1 w1 Hid Hk)
        as [inc [k0 [w0 [_ [-> _]]]]].
      cbn [afterSubSpan details]. rewrite D'.
      unfold IsZero. apply Z.eqb_neq in He. rewrite He. reflexivity.
Qed.


(** ** Batch writer *)

Lemma sameTaken_refl (path : string) (t : Writer) : sameTaken path t t.
Proof. unfold sameTaken. auto. Qed.

Lemma sameTaken_trans (path : string) (t1 t2 t3 : Writer) :
  sameTaken path t1 t2 -> sameTaken path t2 t3 -> sameTaken path t1 t3.
Proof.
  unfold sameTaken. intros [A1 [B1 C1]] [A2 [B2 C2]].
  split; [congruence |]. split; [congruence | auto].
Qed.

Lemma sameTaken_trace (path msg : string) (l : Level) (t : Writer) :
  sameTaken path t (trace msg l t).
Proof. unfold sameTaken, taken. cbn. auto. Qed.

Lemma sameTaken_reply (path : string) (c : nat) (sp : Span) (t : Writer) :
  sameTaken path t (reply c sp t).
Proof. unfold sameTaken, taken. cbn. auto. Qed.

Lemma sameTaken_armTimer (path : string) (t : Writer) :
  sameTaken path t (armTimer t).
Proof.
  unfold armTimer. destruct (negb (timeoutOn t) && _).
  - unfold sameTaken, taken. cbn. auto.
  - apply sameTaken_refl.
Qed.

Lemma sameTaken_flush (path : string) (rpc : Rpc) (replySpan : option Span)
    (t : Writer) :
  sameTaken path t (flush path rpc replySpan t).
Proof.
  unfold flush.
  match goal with
  | |- sameTaken _ _ (match replySpan with
                      | Some sp => match ch sp with
                                   | Some c => reply c sp ?t1
                                   | None => _
                                   end
                      | None => _
                      end) =>
      assert (H1 : sameTaken path t t1)
  end.
  { destruct (batch t) as [| d b] eqn:B.
    - apply sameTaken_trace.
    - unfold sameTaken, taken. destruct rpc; cbn; rewrite B;
        (split; [rewrite map_app, concat_app; cbn;
                 rewrite !app_nil_r; reflexivity |]);
        (split; [reflexivity |]);
        intros F; apply Forall_app; (split; [exact F |]);
        constructor; [split; [reflexivity | discriminate] | constructor
                     | split; [reflexivity | discriminate] | constructor
                     | split; [reflexivity | discriminate] | constructor]. }
  destruct replySpan as [sp |]; [| exact H1].
  destruct (ch sp) as [c |]; [| exact H1].
  eapply sameTaken_trans; [exact H1 | apply sameTaken_reply].
Qed.

(** One pass of the loop: what is taken grows by the named details of a
    span read with a nonzero ID, and by nothing else. *)
Lemma writeSpans_pass_taken (queue : nat) (path : string) (maxSpans : Z)
    (ev : Event) (rpc : Rpc) (t : Writer) :
  sendable (ev, rpc) -> done t = false ->
  exists t',
    writeSpans_pass queue path maxSpans ev rpc t = Some t' /\
    taken t' = (taken t ++ appended path [(ev, rpc)])%list /\
    done t' = match ev with QueueClosed => true | _ => false end /\
    (Forall (fun b => fst b = path /\ snd b <> []) (written t) ->
     Forall (fun b => fst b = path /\ snd b <> []) (written t')).
Proof.
  intros Hs Hd. unfold writeSpans_pass. rewrite Hd.
  pose proof (sameTaken_armTimer path t) as S0.
  pose proof S0 as [A0 [D0 F0]]. rewrite Hd in D0.
  set (t0 := armTimer t) in *.
  assert (Htail : forall full rs t1,
            sameTaken path t1
              (if negb full && (Z.of_nat (length (batch t1)) <? maxSpans)
               then trace "Span batch waiting for more spans" LTrace t1
               else flush path rpc rs t1)).
  { intros full rs t1. destruct (negb full && _);
      [apply sameTaken_trace | apply sameTaken_flush]. }
  cbv zeta. destruct ev as [sp n | |].
  - set (t1 := mkWriter (batch t0) (timerMade t0) (timeoutOn t0) (written t0)
                 (replied t0) (created t0) (recorded t0 ++ [n]) (traced t0)
                 (done t0)).
    assert (H1 : sameTaken path t t1) by exact S0.
    cbn [appended]. destruct (GetSpanID sp =? 0) eqn:Eid.
    + rewrite app_nil_r.
      assert (Hdone : forall t2, sameTaken path t t2 ->
                exists t', Some t2 = Some t' /\ taken t' = taken t /\
                           done t' = false /\
                           (Forall (fun b => fst b = path /\ snd b <> [])
                              (written t) ->
                            Forall (fun b => fst b = path /\ snd b <> [])
                              (written t'))).
      { intros t2 [A [D F]]. exists t2. rewrite D, Hd. auto. }
      destruct (ch sp) as [c |].
      * destruct (negb (c =? queue)%nat).
        -- destruct (spanInc sp =? 1); apply Hdone.
           ++ eapply sameTaken_trans; [exact H1 | apply sameTaken_reply].
           ++ eapply sameTaken_trans; [exact H1 |].
              eapply sameTaken_trans; [apply sameTaken_trace | apply Htail].
        -- apply Hdone. eapply sameTaken_trans; [exact H1 |].
           eapply sameTaken_trans; [apply sameTaken_trace | apply Htail].
      * apply Hdone. eapply sameTaken_trans; [exact H1 |].
        eapply sameTaken_trans; [apply sameTaken_trace | apply Htail].
    + apply Z.eqb_neq in Eid. destruct (Hs Eid) as [d [nm [Ed En]]].
      rewrite Ed, En.
      match goal with
      | |- exists t', Some (if _ then _ else flush _ _ _ ?t2) = _ /\ _ =>
          destruct (Htail false (@None Span) t2) as [A3 [D3 F3]]
      end.
      eexists. split; [reflexivity |]. split; [| split].
      * etransitivity; [exact A3 |]. rewrite <- A0.
        unfold taken, named, trace. cbn [batch written].
        rewrite En, app_assoc. reflexivity.
      * etransitivity; [exact D3 | exact D0].
      * intros F. apply F3. apply F0. exact F.
  - eexists. split; [reflexivity |]. cbn [appended].
    rewrite app_nil_r.
    split; [exact A0 |]. split; [reflexivity | exact F0].
  - cbn [appended]. rewrite app_nil_r.
    assert (Hdone : forall t2, sameTaken path t t2 ->
              exists t', Some t2 = Some t' /\ taken t' = taken t /\
                         done t' = false /\
                         (Forall (fun b => fst b = path /\ snd b <> [])
                            (written t) ->
                          Forall (fun b => fst b = path /\ snd b <> [])
                            (written t'))).
    { intros t2 [A [D F]]. exists t2. rewrite D, Hd. auto. }
    destruct (timeoutOn t0) eqn:Et.
    + set (t1 := trace "Span batch timed out" LTrace
                   (mkWriter (batch t0) (timerMade t0) false (written t0)
                      (replied t0) (created t0) (recorded t0) (traced t0)
                      (done t0))).
      assert (H1 : sameTaken path t t1) by exact S0.
      destruct (batch t1); apply Hdone.
      * eapply sameTaken_trans; [exact H1 | apply sameTaken_trace].
      * cbn [negb andb].
        eapply sameTaken_trans; [exact H1 | apply sameTaken_flush].
    + apply Hdone. exact S0.
Qed.


Lemma writeSpans_pass_done (queue : nat) (path : string) (maxSpans : Z)
    (ev : Event) (rpc : Rpc) (t : Writer) :
  done t = true -> writeSpans_pass queue path maxSpans ev rpc t = Some t.
Proof. intros H. unfold writeSpans_pass. rewrite H. reflexivity. Qed.

Lemma writeSpans_done (queue : nat) (path : string) (maxSpans : Z)
    (evs : list (Event * Rpc)) (t : Writer) :
  done t = true -> writeSpans queue path maxSpans evs t = Some t.
Proof.
  intros H. induction evs as [| [ev rpc] evs IH]; [reflexivity |].
  cbn [writeSpans]. rewrite writeSpans_pass_done by exact H. exact IH.
Qed.

Lemma writeSpans_taken (queue : nat) (path : string) (maxSpans : Z)
    (evs : list (Event * Rpc)) :
  Forall sendable evs ->
  forall t,
    done t = false ->
    exists t',
      writeSpans queue path maxSpans evs t = Some t' /\
      taken t' = (taken t ++ appended path evs)%list /\
      (Forall (fun b => fst b = path /\ snd b <> []) (written t) ->
       Forall (fun b => fst b = path /\ snd b <> []) (written t')).
Proof.
  induction 1 as [| [ev rpc] evs Hs _ IH]; intros t Hd.
  - exists t. cbn. rewrite app_nil_r. auto.
  - destruct (writeSpans_pass_taken queue path maxSpans ev rpc t Hs Hd)
      as [t1 [H1 [A1 [D1 F1]]]].
    cbn [writeSpans]. rewrite H1.
    destruct ev as [sp n | |].
    + destruct (IH t1 D1) as [t' [H' [A' F']]].
      exists t'. split; [exact H' |]. split; [| auto].
      rewrite A', A1, <- app_assoc. f_equal.
      cbn [appended]. destruct (GetSpanID sp =? 0); [reflexivity |].
      destruct (details sp); reflexivity.
    + exists t1. split; [apply writeSpans_done; exact D1 |].
      split; [exact A1 | exact F1].
    + destruct (IH t1 D1) as [t' [H' [A' F']]].
      exists t'. split; [exact H' |]. split; [| auto].
      rewrite A', A1, <- app_assoc. reflexivity.
Qed.

(** What is appended comes from a span that was read, has a nonzero ID and
    carries the details, and is named after it. *)
Lemma appended_from (path : string) (evs : list (Event * Rpc))
    (d : Ct2Span) :
  List.In d (appended path evs) ->
  exists sp n rpc d0,
    List.In (Received sp n, rpc) evs /\ GetSpanID sp <> 0 /\
    details sp = Some d0 /\ d = named path sp d0.
Proof.
  induction evs as [| [ev rpc] evs IH]; intros H; [destruct H |].
  assert (Hrest : List.In d (appended path evs) ->
            exists sp n rpc0 d0,
              List.In (Received sp n, rpc0) ((ev, rpc) :: evs) /\
              GetSpanID sp <> 0 /\ details sp = Some d0 /\
              d = named path sp d0).
  { intros Hin. destruct (IH Hin) as [sp [n [rpc0 [d0 [I R]]]]].
    exists sp, n, rpc0, d0. split; [right; exact I | exact R]. }
  destruct ev as [sp n | |]; cbn [appended] in H.
  - destruct (GetSpanID sp =? 0) eqn:E; [exact (Hrest H) |].
    destruct (details sp) as [d0 |] eqn:D; [| exact (Hrest H)].
    destruct H as [<- | H]; [| exact (Hrest H)].
    exists sp, n, rpc, d0. apply Z.eqb_neq in E.
    split; [left; reflexivity | auto].
  - destruct H.
  - exact (Hrest H).
Qed.

Lemma named_Name (project : string) (sp : Span) (d : Ct2Span) :
  Name (named (registrarPath project) sp d) =
  "projects/" +:+ project +:+ "/traces/" +:+ GetTraceID sp +:+ "/spans/"
    +:+ HexSpanID (GetSpanID sp).
Proof.
  unfold named, registrarPath, GetSpanPath, GetTraceID, GetSpanID.
  cbn [Name]. rewrite append_assoc. reflexivity.
Qed.

(** C4.  A writer that reads spans as [Finish] sends them never fails, and
    what it has taken at any point of its loop (the batches it has passed
    to [BatchWrite], in order, then the batch it is filling) is exactly the
    details of the spans it read with a nonzero span ID, in the order read,
    each with its name set to
    [projects/{project}/traces/{trace}/spans/{span}]: a span with a zero
    span ID is in no batch.  Every [BatchWrite] is made to the path of the
    registrar, with a batch that is not empty. *)
Theorem writeSpans_never_writes_sentinels (queue : nat) (project : string)
    (maxSpans : Z) (evs : list (Event * Rpc)) :
  Forall sendable evs ->
  exists t,
    writeSpans queue (registrarPath project) maxSpans evs newWriter = Some t /\
    taken t = appended (registrarPath project) evs /\
    Forall (fun b => fst b = registrarPath project /\ snd b <> [])
      (written t) /\
    (forall d,
       List.In d (taken t) ->
       exists sp n rpc d0,
         List.In (Received sp n, rpc) evs /\ GetSpanID sp <> 0 /\
         details sp = Some d0 /\ d = named (registrarPath project) sp d0 /\
         Name d = "projects/" +:+ project +:+ "/traces/" +:+ GetTraceID sp
                    +:+ "/spans/" +:+ HexSpanID (GetSpanID sp)) /\
    ((forall sp n rpc, List.In (Received sp n, rpc) evs -> GetSpanID sp = 0) ->
     written t = [] /\ batch t = []).
Proof.
  intros Hs.
  destruct (writeSpans_taken queue (registrarPath project) maxSpans evs Hs
              newWriter eq_refl) as [t [H [A F]]].
  exists t. split; [exact H |]. change (taken newWriter) with (@nil Ct2Span) in A.
  rewrite app_nil_l in A. split; [exact A |].
  split; [apply F; constructor |]. split.
  - intros d Hd. rewrite A in Hd.
    destruct (appended_from _ _ _ Hd) as [sp [n [rpc [d0 [I [Z0 [D ->]]]]]]].
    exists sp, n, rpc, d0. repeat (split; [assumption || reflexivity |]).
    apply named_Name.
  - intros Hall.
    assert (Hnil : taken t = []).
    { destruct (taken t) as [| d l] eqn:T; [reflexivity |].
      assert (Hin : List.In d (appended (registrarPath project) evs))
        by (rewrite <- A; left; reflexivity).
      destruct (appended_from _ _ _ Hin) as [sp [n [rpc [d0 [I [Z0 _]]]]]].
      exfalso. apply Z0. eapply Hall. exact I. }
    unfold taken in Hnil. apply app_eq_nil in Hnil as [Hw Hb].
    split; [| exact Hb].
    specialize (F ltac:(constructor)).
    destruct (written t) as [| [p b] ws]; [reflexivity |].
    exfalso. apply Forall_cons_iff in F as [[_ Fb] _]. cbn in Fb, Hw.
    apply app_eq_nil in Hw as [Hb0 _]. exact (Fb Hb0).
Qed.


(** ** The spans the package builds are well-formed *)

Lemma newSpan_wf (r : ROSpan) (c : option nat) :
  isU64 (spanID r) -> wf (newSpan r c).
Proof.
  intros H. unfold wf, newSpan, isU64. cbn.
  repeat split; try lia; try apply H; try contradiction;
    try (intros [C | C]; contradiction).
Qed.

Lemma childOf_wf (p : Span) (k : Z) (now : Time) :
  isU64 k -> wf (childOf p k now).
Proof.
  intros H. unfold wf, childOf, isU64. cbn.
  repeat split; try lia; try apply H; try contradiction;
    try (intros _; discriminate).
Qed.

Lemma childOf_live (p : Span) (k : Z) (now : Time) :
  k <> 0 -> now <> 0 -> live (childOf p k now).
Proof. intros Hk Hn. unfold live, childOf. cbn. auto. Qed.

(** The child of a [NewSubSpan] is live and well-formed, its count of
    children zero, once the clock has left the zero time. *)
Lemma NewSubSpan_kid (dt : N) (s : Span) (w : World) (kid s' : Span)
    (w' : World) :
  wf s -> 0 < clock w ->
  NewSubSpan dt s w = Some (FSpan kid, s', w') ->
  wf kid /\ live kid /\ kidSpan kid = 0 /\
  exists d, details kid = Some d /\ ChildSpanCount d = 0.
Proof.
  intros Hwf Hc H.
  destruct (Z.eq_dec (GetSpanID s) 0) as [Hid | Hid].
  - rewrite (NewSubSpan_empty dt s w Hid) in H. discriminate H.
  - destruct (NewSubSpan_inv dt s w _ s' w' Hid H)
      as [inc [k0 [w0 [Hk [-> [Hf _]]]]]].
    injection Hf as ->.
    assert (Hodd : Z.odd inc = true).
    { destruct Hk as [[Hk [-> _]] | [_ [_ [r [Hr ->]]]]].
      - destruct Hwf as [_ [_ [_ [Ho _]]]]. exact (Ho Hk).
      - destruct (NewSpanID_spec _ _ _ _ Hr) as [_ [Rr _]].
        apply lor_one_odd. destruct Rr; lia. }
    assert (Hclock : clock w0 = clock w).
    { destruct Hk as [[_ [_ [_ ->]]] | [_ [_ [r [Hr _]]]]]; [reflexivity |].
      destruct (NewSpanID_spec _ _ _ _ Hr) as [_ [_ [E _]]]. exact E. }
    split; [apply childOf_wf, walkStep_range |].
    split; [apply childOf_live;
            [apply walkStep_nonzero; exact Hodd | rewrite Hclock; lia] |].
    split; [reflexivity |]. eexists. split; reflexivity.
Qed.

Lemma last_map_strides (f : Z -> Z) (l : list Z) (x : Z) :
  List.last (map f l) (f x) = f (List.last l x).
Proof.
  revert x. induction l as [| y l IH]; intros x; [reflexivity |].
  destruct l as [| z l]; [reflexivity |].
  change (List.last (map f (y :: z :: l)) (f x))
    with (List.last (map f (z :: l)) (f x)).
  change (List.last (y :: z :: l) x) with (List.last (z :: l) x).
  apply IH.
Qed.

Lemma Incr_last (lo hi : Z) (l : list Z) :
  lo <= hi -> Incr lo hi l -> lo <= List.last l lo <= hi.
Proof.
  intros Hle [_ Hb]. destruct l as [| y l]; [cbn; lia |].
  rewrite List.Forall_forall in Hb.
  assert (Hin : List.In (List.last (y :: l) lo) (y :: l)).
  { clear. revert y. induction l as [| z l IH]; intros y; [left; reflexivity |].
    right. change (List.last (y :: z :: l) lo) with (List.last (z :: l) lo).
    apply IH. }
  specialize (Hb _ Hin). lia.
Qed.

(** After [n] steps from the parent's own ID the walk stands at most
    [n + 1] strides from it. *)
(** One more step of the walk adds the stride count that follows the
    last. *)
Lemma walkIdx_snoc (inc base : Z) (n : nat) :
  forall m,
    walkIdx inc base m (S n) =
    (walkIdx inc base m n ++
     [nextStride inc base (List.last (walkIdx inc base m n) m)])%list.
Proof.
  induction n as [| n IH]; intros m; [reflexivity |].
  change (walkIdx inc base m (S (S n)))
    with (nextStride inc base m
          :: walkIdx inc base (nextStride inc base m) (S n)).
  rewrite IH.
  change (walkIdx inc base m (S n))
    with (nextStride inc base m
          :: walkIdx inc base (nextStride inc base m) n).
  rewrite last_cons. reflexivity.
Qed.

(** After [n] steps, [n + 2] below 2^64, the walk stands at a stride count
    whose follower is still below 2^64. *)
Lemma walk_last_stride (inc sid : Z) (n : nat) :
  Z.odd inc = true -> isU64 sid -> Z.of_nat n + 2 < 2 ^ 64 ->
  exists m, 0 <= m <= Z.of_nat n + 1 /\
            List.last (walk inc sid n) sid = wrap64 (sid + m * inc) /\
            nextStride inc sid m < 2 ^ 64.
Proof.
  intros Hodd Hsid Hn.
  assert (E : sid = wrap64 (sid + 0 * inc))
    by (rewrite Z.mul_0_l, Z.add_0_r; symmetry; apply wrap64_small;
        exact Hsid).
  exists (List.last (walkIdx inc sid 0 n) 0). split; [| split].
  - apply (Incr_last 0 (0 + Z.of_nat n + 1)); [lia |].
    apply walkIdx_incr; [assumption | lia].
  - rewrite E at 1 2. rewrite walk_strides.
    apply (last_map_strides (fun i => wrap64 (sid + i * inc))).
  - destruct (walkIdx_incr inc sid (S n) Hodd ltac:(lia) 0) as [_ Hb].
    rewrite walkIdx_snoc in Hb. apply List.Forall_app in Hb.
    destruct Hb as [_ Hb]. apply List.Forall_inv in Hb. lia.
Qed.

(** A parent that has made fewer than 2^64 - 2 sub-spans is within the
    period. *)
Lemma NewSubSpans_withinPeriod (dts : list N) (s : Span) (w : World)
    (kids : list Factory) (s' : Span) (w' : World) :
  wf s -> GetSpanID s <> 0 -> kidSpan s = 0 ->
  Z.of_nat (length dts) + 2 < 2 ^ 64 ->
  NewSubSpans dts s w = Some (kids, s', w') ->
  withinPeriod s' /\ wf s' /\ GetSpanID s' = GetSpanID s.
Proof.
  intros Hwf Hid Hk Hn H. destruct dts as [| dt dts].
  - injection H as <- <- <-. split; [left; exact Hk | auto].
  - cbn [NewSubSpans] in H. unfold bind at 1 in H.
    destruct (NewSubSpan dt s w) as [[[f s1] w1] |] eqn:E; [| discriminate H].
    cbn [fst snd] in H.
    destruct (NewSubSpan_inv dt s w f s1 w1 Hid E)
      as [inc [k0 [w0 [Hc [Es1 _]]]]].
    destruct Hc as [[C _] | [_ [-> [r [Hr ->]]]]]; [contradiction |].
    destruct (NewSpanID_spec _ _ _ _ Hr) as [_ [Rr _]].
    pose proof (lor_one_odd r ltac:(destruct Rr; lia)) as Hodd.
    destruct Hwf as [Rid Hwf].
    destruct (NewSubSpans_started dts s1 w1)
      as [kids1 [s2 [w2 [H1 [_ [_ [H4 [H5 H6]]]]]]]].
    + rewrite Es1. exact Hid.
    + rewrite Es1. apply walkStep_nonzero. exact Hodd.
    + rewrite Es1. exact Hodd.
    + unfold bind in H. rewrite H1 in H. unfold ret in H.
      cbn [fst snd] in H. injection H as <- <- <-.
      rewrite Es1 in H4, H5, H6.
      cbn [afterSubSpan spanInc kidSpan GetSpanID ro] in H4, H5, H6.
      destruct (walk_last_stride (Z.lor 1 r) (GetSpanID s)
                  (length (dt :: dts)) Hodd Rid ltac:(lia))
        as [m [Hm [Hlast Hnext]]].
      cbn [length walk] in Hlast. rewrite last_cons in Hlast.
      split; [| split].
      * right. exists m. split; [lia |].
        unfold strideOf. unfold GetSpanID in *.
        rewrite H4, H5, H6. split; [exact Hlast | exact Hnext].
      * unfold wf, GetSpanID in *. rewrite H4.
        split; [exact Rid |]. rewrite H5, H6.
        assert (Rlast : isU64 (List.last
                  (walk (Z.lor 1 r)
                     (walkStep (Z.lor 1 r) (spanID (ro s))) (length dts))
                  (walkStep (Z.lor 1 r) (spanID (ro s))))).
        { rewrite Hlast. apply wrap64_range. }
        split; [exact Rlast |].
        split; [apply lor_one_range; exact Rr |].
        split; [intros _; exact Hodd |].
        assert (Hwf2 : wf s2).
        { clear - H1 Hwf Rid Es1 Hodd Rr.
          revert s1 w1 kids1 s2 w2 H1 Es1.
          intros s1 w1 kids1 s2 w2 H1 Es1.
          assert (Hwf1 : wf s1).
          { rewrite Es1. unfold wf, afterSubSpan, GetSpanID. cbn.
            destruct Hwf as [_ [_ [_ Hd]]].
            split; [exact Rid |]. split; [apply walkStep_range |].
            split; [apply lor_one_range; exact Rr |].
            split; [intros _; exact Hodd |].
            intros Hse. specialize (Hd Hse).
            destruct (details s); [| contradiction].
            destruct (IsZero (end_ s)); discriminate. }
          clear Es1. revert s1 w1 kids1 s2 w2 H1 Hwf1.
          induction dts as [| dt0 dts IH]; intros s1 w1 kids1 s2 w2 H1 Hwf1.
          - injection H1 as <- <- <-. exact Hwf1.
          - cbn [NewSubSpans] in H1. unfold bind at 1 in H1.
            destruct (NewSubSpan dt0 s1 w1) as [[[f s3] w3] |] eqn:E3;
              [| discriminate H1].
            unfold bind in H1. cbn [fst snd] in H1.
            destruct (NewSubSpans dts s3 w3) as [[[k4 s4] w4] |] eqn:E4;
              [| discriminate H1].
            unfold ret in H1. cbn [fst snd] in H1. injection H1 as <- <- <-.
            eapply IH; [exact E4 |].
            eapply (call_wf (CNewSubSpan dt0) s1 w1 (RetFactory f));
              [exact Hwf1 |].
            cbn [call]. unfold bind. rewrite E3. reflexivity. }
        destruct Hwf2 as [_ [_ [_ [_ Hd2]]]]. exact Hd2.
      * exact H4.
Qed.


Lemma NewTraceID_shape (oldTraceID : string) (w : World) (one two : Z)
    (w1 w' : World) :
  NewSpanID 0 w = Some (one, w1) -> NewSpanID 0 w1 = Some (two, w') ->
  exists a b,
    NewTraceID oldTraceID w = Some (HexSpanID a +:+ HexSpanID b, w').
Proof.
  intros H1 H2. unfold NewTraceID, bind. rewrite H1, H2.
  destruct (Z.of_nat (String.length oldTraceID) =? 32);
    eexists _, _; reflexivity.
Qed.

Lemma validTraceID_rendered (a b : Z) :
  validTraceID (HexSpanID a +:+ HexSpanID b) = true.
Proof.
  unfold validTraceID. rewrite length_append, !HexSpanID_length.
  apply andb_true_iff. split; [reflexivity |].
  apply (allChars_impl isLowerHex); [apply isLowerHex_isHex |].
  rewrite allChars_append, !HexSpanID_lower. reflexivity.
Qed.

(** [NewTrace] on an empty factory returns a live, well-formed root span:
    the trace ID it draws is always one that [Import] accepts. *)
Lemma NewTrace_live (dt : N) (s : Span) (w : World) :
  GetSpanID s = 0 -> supplies 3 w -> 0 < clock w ->
  exists sp w',
    NewTrace dt s w = Some (sp, w') /\ live sp /\ wf sp /\
    kidSpan sp = 0 /\ ch sp = ch s /\ proj (ro sp) = proj (ro s) /\
    validTraceID (GetTraceID sp) = true /\
    start sp = clock w + Z.of_N dt /\ clock w' = start sp /\
    chans w' = chans w /\
    exists d, details sp = Some d /\ ChildSpanCount d = 0 /\
              DisplayName d = None.
Proof.
  intros Hid Hs Hc.
  destruct (NewSpanID_returns 2 w Hs) as [one [w1 [H1 Hs1]]].
  destruct (NewSpanID_returns 1 w1 Hs1) as [two [w2 [H2 Hs2]]].
  destruct (NewSpanID_returns 0 w2 Hs2) as [id [w3 [H3 _]]].
  destruct (NewTraceID_shape (GetTraceID s) w one two w1 w2 H1 H2)
    as [a [b Ht]].
  destruct (NewSpanID_spec _ _ _ _ H1) as [_ [_ [C1 [_ [Q1 _]]]]].
  destruct (NewSpanID_spec _ _ _ _ H2) as [_ [_ [C2 [_ [Q2 _]]]]].
  destruct (NewSpanID_spec _ _ _ _ H3) as [Nid [Rid [C3 [_ [Q3 _]]]]].
  assert (Hnow : clock w3 + Z.of_N dt <> 0) by lia.
  unfold NewTrace, bind. rewrite Ht, Hid, H3.
  unfold ROSpan_Import. rewrite validTraceID_rendered.
  apply Z.eqb_neq in Nid as Nid'. rewrite Nid'. cbn [negb andb].
  unfold time_Now, ret, initDetails, newSpan, IsZero. cbn.
  apply Z.eqb_neq in Hnow as Hnow'. rewrite Hnow'. cbn.
  eexists _, _. split; [reflexivity |].
  unfold live, wf, GetSpanID, GetTraceID, isU64. cbn.
  split; [auto |].
  split; [repeat split; try lia; try apply Rid; try contradiction;
          intros _; discriminate |].
  split; [reflexivity |]. split; [reflexivity |]. split; [reflexivity |].
  split; [apply validTraceID_rendered |].
  split; [lia |]. split; [reflexivity |]. split; [congruence |].
  eexists. repeat split.
Qed.



(** [NewSubSpan] leaves the parent who it is; a parent without details
    stays without. *)
Lemma NewSubSpans_frame (dts : list N) :
  forall s w kids s' w',
    NewSubSpans dts s w = Some (kids, s', w') ->
    ro s' = ro s /\ ch s' = ch s /\ start s' = start s /\
    end_ s' = end_ s /\ parent s' = parent s /\
    (details s = None -> details s' = None).
Proof.
  induction dts as [| dt dts IH]; intros s w kids s' w' H.
  - injection H as <- <- <-. auto 10.
  - cbn [NewSubSpans] in H. unfold bind at 1 in H.
    destruct (NewSubSpan dt s w) as [[[f s1] w1] |] eqn:E; [| discriminate H].
    unfold bind in H. cbn [fst snd] in H.
    destruct (NewSubSpans dts s1 w1) as [[[k2 s2] w2] |] eqn:E2;
      [| discriminate H].
    unfold ret in H. cbn [fst snd] in H. injection H as <- <- <-.
    destruct (IH s1 w1 k2 s2 w2 E2) as [A1 [A2 [A3 [A4 [A5 A6]]]]].
    assert (Hs1 : ro s1 = ro s /\ ch s1 = ch s /\ start s1 = start s /\
                  end_ s1 = end_ s /\ parent s1 = parent s /\
                  (details s = None -> details s1 = None)).
    { destruct (Z.eq_dec (GetSpanID s) 0) as [Hid | Hid].
      - rewrite (NewSubSpan_empty dt s w Hid) in E.
        injection E as <- <- <-. auto 10.
      - destruct (NewSubSpan_inv dt s w f s1 w1 Hid E)
          as [inc [k0 [w0 [_ [-> _]]]]].
        cbn [afterSubSpan ro ch start end_ parent details].
        repeat (split; [reflexivity |]). intros ->. reflexivity. }
    destruct Hs1 as [B1 [B2 [B3 [B4 [B5 B6]]]]].
    rewrite A1, A2, A3, A4, A5. auto 10.
Qed.

Lemma walkStep_one (k : Z) :
  0 < k -> k + 1 < 2 ^ 64 -> walkStep 1 k = k + 1.
Proof.
  intros H0 H1. unfold walkStep.
  rewrite (wrap64_small (k + 1)) by (unfold isU64; lia).
  destruct (k + 1 =? 0) eqn:E; [| reflexivity].
  apply Z.eqb_eq in E. lia.
Qed.

(** With the stride 1 the walk counts up, as long as it stays below
    2^64. *)
Lemma walk_by_one (n : nat) :
  forall k, 0 < k -> k + Z.of_nat n < 2 ^ 64 ->
            List.last (walk 1 k n) k = k + Z.of_nat n.
Proof.
  induction n as [| n IH]; intros k H0 H1.
  - cbn [walk List.last Z.of_nat]. lia.
  - cbn [walk]. rewrite last_cons. rewrite walkStep_one by lia.
    rewrite IH by lia. lia.
Qed.

(** * Further properties of the package *)

(** ** Where span IDs come from *)

Lemma NewSpanID_crypto (oldSpanID : Z) (n : nat) (w : World) :
  (S n <= goodReads (crand w))%nat ->
  exists v rest,
    crand w = Some v :: rest /\ wrap64 v <> 0 /\
    (n <= goodReads rest)%nat /\
    NewSpanID oldSpanID w = Some (wrap64 v, afterRead rest w).
Proof.
  intros Hc.
  destruct (crand w) as [| [v |] rest] eqn:Ec; cbn [goodReads] in Hc;
    try lia.
  destruct (wrap64 v =? 0) eqn:Ev; [lia |]. apply Z.eqb_neq in Ev.
  exists v, rest. split; [reflexivity |]. split; [exact Ev |].
  split; [lia |].
  unfold NewSpanID, bind, crand_Read, ret. rewrite Ec. cbn.
  rewrite NewSpanID_loop_done by exact Ev. reflexivity.
Qed.



Lemma NewTraceID_neq (oldTraceID : string) (w : World) (t : string)
    (w' : World) :
  NewTraceID oldTraceID w = Some (t, w') -> t <> oldTraceID.
Proof.
  unfold NewTraceID, bind. intros H.
  destruct (NewSpanID 0 w) as [[one w1] |] eqn:E1; [| discriminate H].
  destruct (NewSpanID 0 w1) as [[two w2] |] eqn:E2; [| discriminate H].
  destruct (NewSpanID_spec _ _ _ _ E1) as [N1 [R1 _]].
  destruct (Z.of_nat (String.length oldTraceID) =? 32) eqn:El.
  - unfold ret in H. injection H as <- _. intros Heq.
    set (a := wrap64 (one + fst (ParseUint16 (substring 0 16 oldTraceID))))
      in *.
    match type of Heq with
    | HexSpanID a +:+ HexSpanID ?b = _ => set (b' := b) in *
    end.
    assert (Ra : isU64 a) by apply wrap64_range.
    assert (Rb : isU64 b').
    { unfold b'. destruct (_ && _); apply wrap64_range. }
    destruct (traceID_halves a b' Ra Rb) as [Ha _].
    rewrite Heq in Ha. unfold a in Ha.
    set (hi := fst (ParseUint16 (substring 0 16 oldTraceID))) in Ha.
    assert (Rhi : isU64 hi) by apply ParseUint16_range.
    rewrite <- (wrap64_small hi Rhi) in Ha at 1.
    apply wrap64_eq_iff in Ha.
    replace (hi - (one + hi)) with (- one) in Ha by lia.
    destruct Ha as [q Hq]. unfold isU64 in R1. nia.
  - unfold ret in H. injection H as <- _. intros Heq.
    apply Z.eqb_neq in El. apply El.
    rewrite <- Heq, length_append, !HexSpanID_length. reflexivity.
Qed.

(** [NewTraceID] returns, given random sources that let [NewSpanID] return
    twice, and what it returns is never the trace ID it was given, be that
    a valid trace ID or any other string. *)
Theorem NewTraceID_differs (oldTraceID : string) (w : World) :
  supplies 2 w ->
  exists t w', NewTraceID oldTraceID w = Some (t, w') /\ t <> oldTraceID.
Proof.
  intros Hs.
  destruct (NewSpanID_returns 1 w Hs) as [one [w1 [H1 Hs1]]].
  destruct (NewSpanID_returns 0 w1 Hs1) as [two [w2 [H2 _]]].
  destruct (NewTraceID_shape oldTraceID w one two w1 w2 H1 H2) as [a [b Ht]].
  eexists _, _. split; [exact Ht |].
  apply (NewTraceID_neq oldTraceID w _ w2 Ht).
Qed.

(** ** Root spans, imported spans and their children *)

(** [Finish] on a live span whose queue is not closed, by what it gives
    back and by what becomes of the span. *)
Lemma Finish_returns (dt : N) (s : Span) (w : World) (d : Ct2Span) :
  live s -> details s = Some d -> queueClosed (ch s) w = false ->
  exists s' w',
    Finish dt s w = Some (clock w + Z.of_N dt - start s, s', w') /\
    end_ s' = clock w + Z.of_N dt /\ start s' = start s /\
    ro s' = ro s /\ ch s' = ch s /\
    clock w' = clock w + Z.of_N dt /\ logged w' = logged w /\
    (receiverParked (ch s) w = false -> hasRoom (ch s) w = false ->
     chans w' = chans w /\ dropped w' = dropped w + 1).
Proof.
  intros Hl Hd Hopen.
  pose proof (live_not_refused s true Hl) as R.
  assert (Hsend : forall sp : Span,
    ch sp = ch s ->
    exists w',
      bind (trySend (ch sp) sp)
        (fun sent => bind (if sent then ret tt else spanDropped)
                       (fun _ => ret (end_ sp - start sp, sp)))
        (tick dt w) = Some (end_ sp - start sp, sp, w') /\
      clock w' = clock w + Z.of_N dt /\ logged w' = logged w /\
      (receiverParked (ch s) w = false -> hasRoom (ch s) w = false ->
       chans w' = chans w /\ dropped w' = dropped w + 1)).
  { intros sp Hsp. rewrite <- Hsp in *.
    destruct (Finish_tail dt sp w Hopen) as [w' [E [C [L [_ [_ D]]]]]].
    exists w'. auto. }
  unfold Finish, bind at 1. rewrite (logIfEmpty_allows s true w R).
  cbn iota beta. rewrite Hd. unfold bind at 1.
  destruct (DisplayName d) as [n |] eqn:Dn.
  - unfold ret at 1. cbn iota beta. unfold bind at 1, time_Now.
    cbn iota beta. rewrite Hd.
    match goal with
    | |- context [trySend (ch ?sp) ?sp] =>
        destruct (Hsend sp) as [w' Hw']; [reflexivity |];
        exists sp, w'
    end.
    cbn [end_ start ro ch] in *.
    destruct Hw' as [E Hw']. split; [exact E |]. auto.
  - unfold bind at 1, os_Args0, SetDisplayName. unfold bind at 1.
    rewrite (logIfEmpty_allows s true w R). cbn iota beta. rewrite Hd.
    unfold ret at 1. cbn iota beta. unfold bind at 1, time_Now.
    cbn iota beta. cbn [details withDetails].
    match goal with
    | |- context [trySend (ch ?sp) ?sp] =>
        destruct (Hsend sp) as [w' Hw']; [reflexivity |];
        exists sp, w'
    end.
    cbn [end_ start ro ch withDetails] in *.
    destruct Hw' as [E Hw']. split; [exact E |]. auto.
Qed.

(** [NewTrace] ignores the span its receiver holds: given a cryptographic
    source that delivers, it returns on any factory a live span that keeps
    the receiver's project and queue and has no parent, whose trace ID is
    valid and is not the receiver's, and whose details hold its span ID
    and start time and nothing else.  Nothing is logged. *)
Theorem NewTrace_root (dt : N) (s : Span) (w : World) :
  (3 <= goodReads (crand w))%nat -> 0 < clock w ->
  exists sp w',
    NewTrace dt s w = Some (sp, w') /\
    live sp /\ wf sp /\ parent sp = None /\ kidSpan sp = 0 /\
    ch sp = ch s /\ proj (ro sp) = proj (ro s) /\
    validTraceID (GetTraceID sp) = true /\ GetTraceID sp <> GetTraceID s /\
    start sp = clock w + Z.of_N dt /\ clock w' = start sp /\
    logged w' = logged w /\ chans w' = chans w /\
    details sp =
    Some (mkCt2Span "" (HexSpanID (GetSpanID sp)) "" None
            (TimeAsString (start sp)) "" "" None None false 0).
Proof.
  intros Hs Hc.
  destruct (NewSpanID_crypto 0 2 w Hs) as [v1 [r1 [E1 [N1 [G1 H1]]]]].
  destruct (NewSpanID_crypto 0 1 (afterRead r1 w) G1)
    as [v2 [r2 [E2 [N2 [G2 H2]]]]].
  destruct (NewSpanID_crypto (GetSpanID s) 0 (afterRead r2 (afterRead r1 w))
              G2) as [v3 [r3 [E3 [N3 [_ H3]]]]].
  destruct (NewTraceID_shape (GetTraceID s) w _ _ _ _ H1 H2) as [a [b Ht]].
  pose proof (NewTraceID_neq _ _ _ _ Ht) as Hneq.
  assert (Hnow : clock w + Z.of_N dt <> 0) by lia.
  unfold NewTrace, bind. rewrite Ht, H3.
  unfold ROSpan_Import. rewrite validTraceID_rendered.
  apply Z.eqb_neq in N3 as N3'. rewrite N3'. cbn [negb andb].
  unfold time_Now, ret, initDetails, newSpan, IsZero. cbn.
  apply Z.eqb_neq in Hnow as Hnow'. rewrite Hnow'. cbn.
  eexists _, _. split; [reflexivity |].
  unfold live, wf, GetSpanID, GetTraceID, isU64. cbn.
  split; [auto |].
  split.
  { pose proof (wrap64_range v3) as [R0 R1].
    split; [lia |]. split; [lia |]. split; [lia |].
    split; [intros C; contradiction |]. intros _. discriminate. }
  split; [reflexivity |]. split; [reflexivity |]. split; [reflexivity |].
  split; [reflexivity |].
  split; [apply validTraceID_rendered |].
  split; [exact Hneq |].
  repeat split.
Qed.

(** A handler's first two steps.  [NewSpan] on the empty factory of a
    registrar starts a trace: it returns a live root span and leaves the
    factory as it was.  [NewSpan] on that root then returns a live child in
    the root's trace, with another span ID, on the registrar's project and
    queue, naming the root as its parent in the same process; and the
    root's child count is 1. *)
Theorem NewSpan_root_then_child (dt1 dt2 : N) (r : Registrar) (w : World) :
  (4 <= goodReads (crand w))%nat -> 0 < clock w ->
  exists root w1 kid root' w2 dr dk,
    NewSpan dt1 (Registrar_NewFactory r) w =
    Some (FSpan root, Registrar_NewFactory r, w1) /\
    live root /\
    NewSpan dt2 root w1 = Some (FSpan kid, root', w2) /\
    live kid /\ proj (ro kid) = reg_proj r /\ ch kid = reg_queue r /\
    GetTraceID kid = GetTraceID root /\ GetSpanID kid <> GetSpanID root /\
    parent kid = Some root' /\ GetSpanID root' = GetSpanID root /\
    start root <= start kid /\
    details root' = Some dr /\ ChildSpanCount dr = 1 /\
    details kid = Some dk /\
    ParentSpanId dk = HexSpanID (GetSpanID root) /\
    SameProcessAsParentSpan dk = true.
Proof.
  intros Hs Hc.
  destruct (NewSpanID_crypto 0 3 w Hs) as [v1 [r1 [E1 [N1 [G1 H1]]]]].
  destruct (NewSpanID_crypto 0 2 (afterRead r1 w) G1)
    as [v2 [r2 [E2 [N2 [G2 H2]]]]].
  destruct (NewSpanID_crypto 0 1 (afterRead r2 (afterRead r1 w)) G2)
    as [v3 [r3 [E3 [N3 [G3 H3]]]]].
  set (w3 := afterRead r3 (afterRead r2 (afterRead r1 w))) in *.
  destruct (NewSpanID_crypto 0 0 (tick dt1 w3) G3)
    as [v4 [r4 [E4 [N4 [_ H4]]]]].
  destruct (NewTraceID_shape "" w _ _ _ _ H1 H2) as [a [b Ht]].
  assert (Hnow : clock w + Z.of_N dt1 <> 0) by lia.
  apply Z.eqb_neq in N3 as N3'. apply Z.eqb_neq in Hnow as Hnow'.
  assert (Hroot : NewSpan dt1 (Registrar_NewFactory r) w =
    Some (FSpan
            (mkSpan (mkROSpan (reg_proj r) (HexSpanID a +:+ HexSpanID b)
                       (wrap64 v3))
               (reg_queue r) (clock w + Z.of_N dt1) 0 None
               (Some (mkCt2Span "" (HexSpanID (wrap64 v3)) "" None
                        (TimeAsString (clock w + Z.of_N dt1)) "" "" None
                        None false 0)) 0 0),
          Registrar_NewFactory r, tick dt1 w3)).
  { unfold NewSpan, Registrar_NewFactory, newSpan, NewROSpan, GetSpanID.
    cbn [ro spanID]. change (0 =? 0) with true. cbv iota.
    unfold bind at 1. unfold NewTrace, bind, GetTraceID, GetSpanID.
    cbn [ro traceID spanID]. rewrite Ht, H3.
    unfold ROSpan_Import. rewrite validTraceID_rendered. rewrite N3'.
    cbn [negb andb]. unfold time_Now, ret, initDetails, newSpan, IsZero.
    cbn. rewrite Hnow'. cbn. reflexivity. }
  rewrite Hroot.
  set (root := mkSpan _ _ _ _ _ _ _ _) in *.
  assert (Hid : GetSpanID root <> 0) by exact N3.
  pose proof (NewSubSpan_first dt2 root (tick dt1 w3) (wrap64 v4) _ Hid
                eq_refl H4) as Hkid.
  assert (Hodd : Z.odd (Z.lor 1 (wrap64 v4)) = true).
  { apply lor_one_odd. apply wrap64_range. }
  eexists _, _, _, _, _, _, _. split; [reflexivity |].
  split; [unfold live, root, GetSpanID; cbn; auto |].
  split.
  { unfold NewSpan. apply Z.eqb_neq in Hid. rewrite Hid. exact Hkid. }
  subst w3.
  cbn [childOf afterSubSpan ro ch start details parent proj traceID
       GetTraceID GetSpanID SetSpanID spanID root end_
       ParentSpanId SameProcessAsParentSpan ChildSpanCount tick clock
       afterRead].
  unfold IsZero. change (0 =? 0) with true. rewrite Hnow'.
  cbn [negb]. cbv iota.
  split.
  { unfold live, GetSpanID. cbn.
    split; [apply walkStep_nonzero; exact Hodd |]. split; [lia | reflexivity]. }
  split; [reflexivity |]. split; [reflexivity |]. split; [reflexivity |].
  split.
  { pose proof (child_differs (Z.lor 1 (wrap64 v4)) (wrap64 v3) 0 Hodd
                  (wrap64_range v3) ltac:(lia)
                  ltac:(unfold nextStride;
                        destruct (wrap64 (wrap64 v3 + (0 + 1)
                                          * Z.lor 1 (wrap64 v4)) =? 0);
                        lia)) as Hd.
    rewrite Z.mul_0_l, Z.add_0_r, (wrap64_small _ (wrap64_range v3)) in Hd.
    exact Hd. }
  split; [reflexivity |]. split; [reflexivity |]. split; [lia |].
  split; [reflexivity |]. split; [reflexivity |].
  split; [reflexivity |]. split; reflexivity.
Qed.

(** A span imported from elsewhere has no start, no end and no details,
    and reports the duration of a span not yet finished.  [NewSubSpan]
    still works on it: the child is live, belongs to the imported trace,
    names the imported span ID as its parent and is marked as not of the
    same process; the imported span stays without details.  [Finish] on the
    imported span is refused with a zero duration. *)
Theorem Import_then_NewSubSpan (s : Span) (t : string) (id : Z)
    (imp : Span) (dt dt2 : N) (w : World) :
  Import s t id = Some imp -> isU64 id -> supplies 1 w -> 0 < clock w ->
  id <> 0 /\ ro imp = mkROSpan (proj (ro s)) t id /\ ch imp = ch s /\
  start imp = 0 /\ end_ imp = 0 /\ details imp = None /\
  GetDuration imp = -1000000000 /\
  exists kid imp' w' d,
    NewSubSpan dt imp w = Some (FSpan kid, imp', w') /\
    live kid /\ GetTraceID kid = t /\ GetSpanID kid <> id /\
    ch kid = ch s /\ details imp' = None /\ ro imp' = ro imp /\
    details kid = Some d /\ ParentSpanId d = HexSpanID id /\
    SameProcessAsParentSpan d = false /\
    Finish dt2 imp' w' =
    Some (0, imp',
          addLog LFail "Disallowed method called on Import()ed spans.Factory"
            w').
Proof.
  unfold Import, ROSpan_Import. intros Hi Rid Hs Hc.
  destruct (validTraceID t && negb (id =? 0)) eqn:Hv; [| discriminate Hi].
  injection Hi as <-.
  apply andb_true_iff in Hv as [_ Hn]. apply negb_true_iff in Hn.
  apply Z.eqb_neq in Hn as Hn'.
  split; [exact Hn' |]. split; [reflexivity |]. split; [reflexivity |].
  split; [reflexivity |]. split; [reflexivity |]. split; [reflexivity |].
  split; [reflexivity |].
  destruct (NewSpanID_returns 0 w Hs) as [r [w1 [Hr _]]].
  destruct (NewSpanID_spec _ _ _ _ Hr) as [_ [Rr [C1 _]]].
  assert (Hodd : Z.odd (Z.lor 1 r) = true)
    by (apply lor_one_odd; destruct Rr; lia).
  rewrite (NewSubSpan_first dt (newSpan (mkROSpan (proj (ro s)) t id) (ch s))
             w r w1 Hn' eq_refl Hr).
  eexists _, _, _, _. split; [reflexivity |].
  cbn [childOf afterSubSpan newSpan ro ch start details parent proj traceID
       GetTraceID GetSpanID SetSpanID spanID end_ ParentSpanId
       SameProcessAsParentSpan tick clock].
  split.
  { unfold live, GetSpanID. cbn.
    split; [apply walkStep_nonzero; exact Hodd |]. split; [lia | reflexivity]. }
  split; [reflexivity |].
  split.
  { pose proof (child_differs (Z.lor 1 r) id 0 Hodd Rid ltac:(lia)
                  ltac:(unfold nextStride;
                        destruct (wrap64 (id + (0 + 1) * Z.lor 1 r) =? 0);
                        lia)) as Hd.
    rewrite Z.mul_0_l, Z.add_0_r, (wrap64_small _ Rid) in Hd. exact Hd. }
  split; [reflexivity |]. split; [reflexivity |]. split; [reflexivity |].
  split; [reflexivity |]. split; [reflexivity |]. split; [reflexivity |].
  unfold Finish, bind, logIfEmpty, GetSpanID, IsZero. cbn. rewrite Hn.
  reflexivity.
Qed.

(** [GetDuration] is minus one second until the span is finished; after
    [Finish] it is the duration [Finish] returned, which is not negative
    for a clock that does not run backwards, and [GetStart] is as
    before. *)
Theorem GetDuration_after_Finish (dt : N) (s : Span) (w : World)
    (d : Ct2Span) :
  live s -> details s = Some d -> queueClosed (ch s) w = false ->
  0 < start s <= clock w ->
  GetDuration s = -1000000000 /\
  exists dur s' w',
    Finish dt s w = Some (dur, s', w') /\
    GetDuration s' = dur /\ 0 <= dur /\ GetStart s' = GetStart s.
Proof.
  intros Hl Hd Ho Hc.
  split.
  { destruct Hl as [_ [_ He]]. unfold GetDuration, IsZero. rewrite He.
    reflexivity. }
  destruct (Finish_returns dt s w d Hl Hd Ho)
    as [s' [w' [H [He [Hs _]]]]].
  eexists _, s', w'. split; [exact H |].
  unfold GetDuration, GetStart, IsZero. rewrite He, Hs.
  assert (Hnz : clock w + Z.of_N dt <> 0) by lia.
  apply Z.eqb_neq in Hnz. rewrite Hnz.
  split; [reflexivity |]. split; [lia | reflexivity].
Qed.

(** ** Attributes and status on a live span *)

Lemma withDetails_same (s : Span) (d : Ct2Span) :
  details s = Some d -> withDetails s d = s.
Proof. destruct s. cbn. intros ->. reflexivity. Qed.

Lemma sameButAttributes_refl (d : Ct2Span) : sameButAttributes d d.
Proof. unfold sameButAttributes. tauto. Qed.

Lemma attrsOf_withAttribute (s : Span) (d : Ct2Span) (key : string)
    (av : AttributeValue) :
  exists d1,
    withAttribute s d key av = withDetails s d1 /\
    attrsOf d1 = <[key := av]> (attrsOf d) /\ sameButAttributes d d1.
Proof.
  eexists. split; [reflexivity |]. split; [reflexivity |].
  unfold sameButAttributes. cbn. tauto.
Qed.

(** [AddAttribute] on a live span, with a key that is not empty and a value
    of a type the switch knows, returns a nil error and logs nothing; the
    attribute map then holds the value under the key, replacing what was
    there, every other key is as before, and no other field of the details
    has changed. *)
Theorem AddAttribute_lookup (key : string) (val : Value)
    (av : AttributeValue) (s : Span) (d : Ct2Span) (w : World) :
  live s -> details s = Some d -> key <> "" ->
  convert val false = Attr av ->
  exists d',
    AddAttribute key val s w = Some (None, withDetails s d', w) /\
    attrsOf d' !! key = Some av /\
    (forall k, k <> key -> attrsOf d' !! k = attrsOf d !! k) /\
    sameButAttributes d d'.
Proof.
  intros Hl Hd Hk Hv.
  destruct (attrsOf_withAttribute s d key av) as [d1 [E1 [A1 S1]]].
  exists d1. split.
  - unfold AddAttribute, bind.
    rewrite (logIfEmpty_allows s true w (live_not_refused s true Hl)).
    cbn iota beta. unfold addAttribute.
    apply String.eqb_neq in Hk. rewrite Hk, Hv, Hd.
    unfold ret. rewrite <- E1. reflexivity.
  - rewrite A1. split; [apply lookup_insert_eq |].
    split; [| exact S1].
    intros k Hne. apply lookup_insert_ne. congruence.
Qed.

Lemma AddPairs_loop_attributes (pairs : list Value) :
  forall s d w,
    details s = Some d ->
    exists d' w' lines,
      AddPairs_loop pairs s w = Some (withDetails s d', w') /\
      (forall k, attrsOf d' !! k = pairValue k pairs (attrsOf d !! k)) /\
      sameButAttributes d d' /\
      clock w' = clock w /\ chans w' = chans w /\ dropped w' = dropped w /\
      logged w' = (logged w ++ lines)%list /\
      Forall (fun l => fst l = LFail) lines /\
      (2 * length lines <= length pairs + 1)%nat.
Proof.
  induction pairs as [| x | x y rest IH] using pairs_ind; intros s d w Hd.
  - exists d, w, []. rewrite (withDetails_same s d Hd).
    split; [reflexivity |]. split; [reflexivity |].
    split; [apply sameButAttributes_refl |].
    rewrite app_nil_r. repeat split; [constructor | cbn; lia].
  - eexists d, _, [_]. rewrite (withDetails_same s d Hd).
    split; [apply AddPairs_loop_single |].
    split; [intros k; destruct x; reflexivity |].
    split; [apply sameButAttributes_refl |].
    cbn. repeat split; [constructor; [reflexivity | constructor] | lia].
  - assert (Hlog : forall msg,
      exists d' w' lines,
        AddPairs_loop rest s (addLog LFail msg w) =
        Some (withDetails s d', w') /\
        (forall k, attrsOf d' !! k = pairValue k rest (attrsOf d !! k)) /\
        sameButAttributes d d' /\
        clock w' = clock w /\ chans w' = chans w /\
        dropped w' = dropped w /\
        logged w' = (logged w ++ lines)%list /\
        Forall (fun l => fst l = LFail) lines /\
        (2 * length lines <= length (x :: y :: rest) + 1)%nat).
    { intros msg.
      destruct (IH s d (addLog LFail msg w) Hd)
        as [d' [w' [lines [H1 [H2 [H3 [H4 [H5 [H6 [H7 [H8 H9]]]]]]]]]]].
      exists d', w', ((LFail, msg) :: lines).
      split; [exact H1 |]. split; [exact H2 |]. split; [exact H3 |].
      split; [exact H4 |]. split; [exact H5 |]. split; [exact H6 |].
      split; [rewrite H7; cbn; rewrite <- app_assoc; reflexivity |].
      split; [constructor; [reflexivity | exact H8] |].
      cbn [length] in *. lia. }
    assert (Hskip :
      exists d' w' lines,
        AddPairs_loop rest s w = Some (withDetails s d', w') /\
        (forall k, attrsOf d' !! k = pairValue k rest (attrsOf d !! k)) /\
        sameButAttributes d d' /\
        clock w' = clock w /\ chans w' = chans w /\
        dropped w' = dropped w /\
        logged w' = (logged w ++ lines)%list /\
        Forall (fun l => fst l = LFail) lines /\
        (2 * length lines <= length (x :: y :: rest) + 1)%nat).
    { destruct (IH s d w Hd)
        as [d' [w' [lines [H1 [H2 [H3 [H4 [H5 [H6 [H7 [H8 H9]]]]]]]]]]].
      exists d', w', lines. repeat (split; [assumption |]).
      cbn [length] in *. lia. }
    destruct x as [| key | | | | | |];
      try (rewrite AddPairs_loop_nonstring by (intros k; discriminate);
           apply Hlog).
    rewrite (AddPairs_loop_pair key y rest s d w Hd).
    cbn [pairValue].
    destruct (String.eqb key "") eqn:Ek.
    + cbn [negb andb]. apply Hlog.
    + cbn [negb andb].
      destruct (convert y true) as [| | av] eqn:Ec.
      * destruct Hskip as [d' [w' [lines [H1 [H2 H3]]]]].
        exists d', w', lines. split; [exact H1 |]. split; [| exact H3].
        intros k. rewrite H2. destruct (String.eqb key k); reflexivity.
      * destruct (Hlog "Error adding attribute to Span")
          as [d' [w' [lines [H1 [H2 H3]]]]].
        exists d', w', lines. split; [exact H1 |]. split; [| exact H3].
        intros k. rewrite H2. destruct (String.eqb key k); reflexivity.
      * destruct (attrsOf_withAttribute s d key av) as [d1 [E1 [A1 S1]]].
        rewrite E1.
        destruct (IH (withDetails s d1) d1 w eq_refl)
          as [d' [w' [lines [H1 [H2 [H3 [H4 [H5 [H6 [H7 [H8 H9]]]]]]]]]]].
        exists d', w', lines. split; [exact H1 |].
        split.
        { intros k. rewrite H2, A1.
          destruct (String.eqb key k) eqn:Ekk.
          - apply String.eqb_eq in Ekk. subst k.
            rewrite lookup_insert_eq. reflexivity.
          - apply String.eqb_neq in Ekk.
            rewrite lookup_insert_ne by exact Ekk. reflexivity. }
        split.
        { unfold sameButAttributes in *.
          destruct S1 as [? [? [? [? [? [? [? [? [? ?]]]]]]]]].
          destruct H3 as [? [? [? [? [? [? [? [? [? ?]]]]]]]]].
          repeat split; congruence. }
        repeat (split; [assumption |]). cbn [length] in *. lia.
Qed.

(** [AddPairs] on a live span never fails, whatever it is given.  Under
    each key the attribute map then holds the value of the last pair with
    that key whose value was neither dropped as zero nor refused, and what
    it held before if there is no such pair: a zero value does not erase an
    attribute.  No other field of the details changes; the log grows by
    failure lines only, at most one per pair and one for an unpaired
    argument, and the clock, the channels and the drop counter stay as
    they are. *)
Theorem AddPairs_attributes (pairs : list Value) (s : Span) (d : Ct2Span)
    (w : World) :
  live s -> details s = Some d ->
  exists d' w' lines,
    AddPairs pairs s w = Some (withDetails s d', w') /\
    (forall k, attrsOf d' !! k = pairValue k pairs (attrsOf d !! k)) /\
    sameButAttributes d d' /\
    clock w' = clock w /\ chans w' = chans w /\ dropped w' = dropped w /\
    logged w' = (logged w ++ lines)%list /\
    Forall (fun l => fst l = LFail) lines /\
    (2 * length lines <= length pairs + 1)%nat.
Proof.
  intros Hl Hd. rewrite (AddPairs_live pairs s w Hl).
  apply AddPairs_loop_attributes. exact Hd.
Qed.

(** [SetStatusCode] and [SetStatusMessage] on a live span each keep what
    the other has set, so the two can be called in either order: the span
    then has the status made of the code and the message, and nothing else
    has changed.  [SetStatusCode] alone keeps the message the span had,
    which is empty where no status was set. *)
Theorem SetStatus_either_order (code : Z) (msg : string) (s : Span)
    (d : Ct2Span) (w : World) :
  live s -> details s = Some d ->
  (let* s1 := SetStatusCode code s in SetStatusMessage msg s1) w =
  Some (withStatus s d (mkStatus code msg), w) /\
  (let* s1 := SetStatusMessage msg s in SetStatusCode code s1) w =
  Some (withStatus s d (mkStatus code msg), w) /\
  SetStatusCode code s w =
  Some (withStatus s d
          (mkStatus code
             (match StatusOf d with Some o => Message o | None => "" end)),
        w).
Proof.
  intros Hl Hd.
  pose proof (live_not_refused s true Hl) as R.
  assert (R' : forall d1, refused (withDetails s d1) true = false).
  { intros d1. exact R. }
  unfold SetStatusCode, SetStatusMessage, bind.
  rewrite (logIfEmpty_allows s true w R). cbn iota beta. rewrite Hd.
  unfold ret, withStatus.
  split; [| split].
  - rewrite (logIfEmpty_allows _ true w (R' _)). cbn.
    destruct (StatusOf d); reflexivity.
  - rewrite (logIfEmpty_allows _ true w (R' _)). cbn.
    destruct (StatusOf d); reflexivity.
  - destruct (StatusOf d); reflexivity.
Qed.

Lemma AddPairs_loop_sources (pairs : list Value) :
  forall s w s' w',
    AddPairs_loop pairs s w = Some (s', w') ->
    crand w' = crand w /\ mrand w' = mrand w.
Proof.
  induction pairs as [| x | x y rest IH] using pairs_ind;
    intros s w s' w' E.
  - injection E as _ <-. tauto.
  - rewrite AddPairs_loop_single in E. injection E as _ <-. cbn. tauto.
  - destruct x as [| key | | | | | |];
      try (rewrite AddPairs_loop_nonstring in E by (intros k; discriminate);
           apply IH in E; cbn in E; exact E).
    cbn [AddPairs_loop] in E. unfold bind at 1 in E.
    unfold addAttribute in E.
    destruct (String.eqb key "").
    { unfold ret at 1 in E. cbn iota beta in E.
      unfold bind, lager in E. cbn [fst snd] in E.
      apply IH in E. cbn in E. exact E. }
    destruct (convert y true).
    + unfold ret at 1 in E. cbn iota beta in E.
      unfold bind, ret in E. cbn [fst snd] in E.
      apply IH in E. exact E.
    + unfold ret at 1 in E. cbn iota beta in E.
      unfold bind, lager in E. cbn [fst snd] in E.
      apply IH in E. cbn in E. exact E.
    + destruct (details s); [| discriminate E].
      unfold ret at 1 in E. cbn iota beta in E.
      unfold bind, ret in E. cbn [fst snd] in E.
      apply IH in E. exact E.
Qed.

Lemma sameIdentity_refl (d : Ct2Span) :
  Name d = Name d /\ SpanId d = SpanId d /\
  ParentSpanId d = ParentSpanId d /\ StartTime d = StartTime d /\
  EndTime d = EndTime d /\
  SameProcessAsParentSpan d = SameProcessAsParentSpan d /\
  ChildSpanCount d = ChildSpanCount d.
Proof. tauto. Qed.

(** No mutator, let through or refused, touches what identifies a span or
    what times it: on any span that has details, after any of the nine
    mutators the span has its IDs, channel, start, end, parent and walker
    as before, its details still name the same span, parent, start time,
    end time and child count, and the clock, the channels, the drop counter
    and the random sources are as they were. *)
Theorem mutators_keep_identity (c : Call) (s : Span) (d : Ct2Span)
    (w : World) (r : Ret) (s' : Span) (w' : World) :
  isMutator c = true -> details s = Some d ->
  call c s w = Some (r, s', w') ->
  (ro s' = ro s /\ ch s' = ch s /\ start s' = start s /\
   end_ s' = end_ s /\ parent s' = parent s /\ spanInc s' = spanInc s /\
   kidSpan s' = kidSpan s) /\
  (clock w' = clock w /\ chans w' = chans w /\ dropped w' = dropped w /\
   crand w' = crand w /\ mrand w' = mrand w) /\
  exists d',
    details s' = Some d' /\
    Name d' = Name d /\ SpanId d' = SpanId d /\
    ParentSpanId d' = ParentSpanId d /\ StartTime d' = StartTime d /\
    EndTime d' = EndTime d /\
    SameProcessAsParentSpan d' = SameProcessAsParentSpan d /\
    ChildSpanCount d' = ChildSpanCount d.
Proof.
  intros Hm Hd H.
  assert (Hsame : forall wx,
            (wx = w \/ wx = addLog LFail (refusalLine s) w) ->
            (ro s = ro s /\ ch s = ch s /\ start s = start s /\
             end_ s = end_ s /\ parent s = parent s /\
             spanInc s = spanInc s /\ kidSpan s = kidSpan s) /\
            (clock wx = clock w /\ chans wx = chans w /\
             dropped wx = dropped w /\ crand wx = crand w /\
             mrand wx = mrand w) /\
            exists d',
              details s = Some d' /\
              Name d' = Name d /\ SpanId d' = SpanId d /\
              ParentSpanId d' = ParentSpanId d /\
              StartTime d' = StartTime d /\ EndTime d' = EndTime d /\
              SameProcessAsParentSpan d' = SameProcessAsParentSpan d /\
              ChildSpanCount d' = ChildSpanCount d).
  { intros wx Hw. split; [tauto |].
    split; [destruct Hw as [-> | ->]; cbn; tauto |].
    exists d. split; [exact Hd | apply sameIdentity_refl]. }
  destruct c; try discriminate Hm; cbn [call] in H;
    unfold returning, SetIsServer, SetIsClient, SetIsPublisher,
      SetIsSubscriber, setSpanKind, SetDisplayName, AddAttribute, AddPairs,
      SetStatusCode, SetStatusMessage, withStatus, bind in H;
    destruct (logIfEmpty s true w) as [[b w1] |] eqn:L;
    try discriminate H; apply logIfEmpty_inv in L as [-> ->];
    destruct (refused s true) eqn:R; cbn iota beta in H;
    try (unfold ret in H; injection H as <- <- <-; apply Hsame; tauto);
    try (rewrite Hd in H; unfold ret in H; injection H as <- <- <-;
         split; [cbn; tauto |]; split; [tauto |];
         eexists; split; [reflexivity | cbn; tauto]).
  - unfold addAttribute, ret in H.
    destruct (String.eqb key "");
      [injection H as <- <- <-; apply Hsame; tauto |].
    destruct (convert val false);
      try (injection H as <- <- <-; apply Hsame; tauto).
    rewrite Hd in H. injection H as <- <- <-.
    split; [cbn; tauto |]. split; [tauto |].
    eexists. split; [reflexivity | cbn; tauto].
  - destruct (AddPairs_loop_attributes pairs s d w Hd)
      as [d' [w2 [lines [E [_ [S [C1 [C2 [C3 [C4 _]]]]]]]]]].
    rewrite E in H. unfold ret in H. injection H as <- <- <-.
    split; [cbn; tauto |].
    split.
    { split; [exact C1 |]. split; [exact C2 |]. split; [exact C3 |].
      apply (AddPairs_loop_sources pairs s w _ _ E). }
    exists d'. split; [reflexivity |].
    unfold sameButAttributes in S. tauto.
Qed.

(** ** The batch writer, pass after pass *)

Lemma batchLimit_pos (maxSpans : Z) : 0 < batchLimit maxSpans.
Proof. unfold batchLimit. lia. Qed.

Lemma writerInv_mid (maxSpans : Z) (t : Writer) :
  writerInv maxSpans t <->
  writerMid maxSpans t /\
  Z.of_nat (length (batch t)) < batchLimit maxSpans.
Proof.
  unfold writerInv, writerMid. split.
  - intros [H1 [H2 [H3 [H4 [H5 H6]]]]].
    split; [| exact H2].
    split; [exact H1 |]. split; [lia |].
    split; [exact H3 |]. split; [exact H4 |]. split; [exact H5 | exact H6].
  - intros [[H1 [_ [H3 [H4 [H5 H6]]]]] H2].
    split; [exact H1 |]. split; [exact H2 |].
    split; [exact H3 |]. split; [exact H4 |]. split; [exact H5 | exact H6].
Qed.

Lemma failLines_app (l l' : list (Level * string)) :
  failLines (l ++ l') = (failLines l + failLines l')%nat.
Proof. unfold failLines. rewrite List.filter_app, length_app. reflexivity. Qed.

Lemma failOutcomes_app (l l' : list string) :
  failOutcomes (l ++ l') = (failOutcomes l + failOutcomes l')%nat.
Proof.
  unfold failOutcomes. rewrite List.filter_app, length_app. reflexivity.
Qed.

Lemma newWriter_inv (maxSpans : Z) : writerInv maxSpans newWriter.
Proof.
  unfold writerInv, newWriter. cbn.
  split; [discriminate |]. split; [apply batchLimit_pos |].
  split; [constructor |]. split; [reflexivity |].
  split; [reflexivity |]. intros [].
Qed.

Ltac fields :=
  cbn [batch timerMade timeoutOn written replied created recorded traced
       done].

Ltac fields_all :=
  cbn [batch timerMade timeoutOn written replied created recorded traced
       done] in *.

Ltac fields_in H :=
  cbn [batch timerMade timeoutOn written replied created recorded traced
       done] in H.

Lemma writerMid_trace (maxSpans : Z) (msg : string) (t : Writer) :
  msg <> "Span batch empty after timeout?!" ->
  writerMid maxSpans t -> writerMid maxSpans (trace msg LTrace t).
Proof.
  unfold writerMid, trace. intros Hm [H1 [H2 [H3 [H4 [H5 H6]]]]]. fields.
  split; [exact H1 |]. split; [exact H2 |]. split; [exact H3 |].
  split; [exact H4 |].
  split; [rewrite failLines_app, <- H5; cbn; lia |].
  intros Hin. apply List.in_app_or in Hin as [Hin | [Hin | []]].
  - exact (H6 Hin).
  - injection Hin as E. exact (Hm E).
Qed.

Lemma writerMid_reply (maxSpans : Z) (c : nat) (sp : Span) (t : Writer) :
  writerMid maxSpans t -> writerMid maxSpans (reply c sp t).
Proof. clear TimeAsString. unfold writerMid, reply. cbn. tauto. Qed.

Lemma writerMid_armTimer (maxSpans : Z) (t : Writer) :
  writerMid maxSpans t -> writerMid maxSpans (armTimer t).
Proof.
  clear TimeAsString. unfold armTimer. intros H.
  destruct (negb (timeoutOn t) && (0 <? length (batch t))%nat) eqn:E;
    [| exact H].
  apply andb_true_iff in E as [_ E]. apply Nat.ltb_lt in E.
  apply writerMid_trace; [discriminate |].
  destruct H as [H1 [H2 [H3 [H4 [H5 H6]]]]].
  unfold writerMid. fields.
  split; [| tauto].
  intros _. split; [| reflexivity].
  intros C. rewrite C in E. cbn in E. lia.
Qed.

Lemma armTimer_batch (t : Writer) :
  batch (armTimer t) = batch t /\ written (armTimer t) = written t /\
  replied (armTimer t) = replied t /\ done (armTimer t) = done t /\
  created (armTimer t) = created t /\ recorded (armTimer t) = recorded t.
Proof.
  unfold armTimer.
  destruct (negb (timeoutOn t) && (0 <? length (batch t))%nat);
    cbn; tauto.
Qed.

Lemma flush_inv (maxSpans : Z) (path : string) (rpc : Rpc)
    (replySpan : option Span) (t : Writer) :
  writerMid maxSpans t ->
  writerInv maxSpans (flush path rpc replySpan t) /\
  batch (flush path rpc replySpan t) = [].
Proof.
  clear TimeAsString. intros [H1 [H2 [H3 [H4 [H5 H6]]]]].
  assert (Hre : forall t0,
            writerInv maxSpans t0 /\ batch t0 = [] ->
            writerInv maxSpans
              (match replySpan with
               | Some sp => match ch sp with
                            | Some c => reply c sp t0
                            | None => t0
                            end
               | None => t0
               end) /\
            batch (match replySpan with
                   | Some sp => match ch sp with
                                | Some c => reply c sp t0
                                | None => t0
                                end
                   | None => t0
                   end) = []).
  { intros t0 [Hi Hb]. destruct replySpan as [sp |]; [| auto].
    destruct (ch sp) as [c |]; [| auto].
    split; [| exact Hb]. unfold writerInv, reply in *. cbn. tauto. }
  unfold flush. apply Hre.
  destruct t as [b tm tmo wr rp cr rc tr dn]. fields. fields_in H1.
  fields_in H2. fields_in H3. fields_in H4. fields_in H5. fields_in H6.
  pose proof (batchLimit_pos maxSpans) as Hp.
  destruct b as [| x b].
  - split; [| reflexivity]. unfold writerInv, trace. fields.
    split.
    { intros E. destruct (H1 E) as [C _]. contradiction. }
    split; [cbn [length]; lia |]. split; [exact H3 |]. split; [exact H4 |].
    split; [rewrite failLines_app, <- H5; cbn; lia |].
    intros Hin. apply List.in_app_or in Hin as [Hin | [Hin | []]].
    + exact (H6 Hin).
    + discriminate Hin.
  - split; [| destruct rpc; reflexivity].
    assert (Hw : Forall
                   (fun b0 : string * list Ct2Span =>
                      0 < Z.of_nat (length (snd b0)) <= batchLimit maxSpans)
                   (wr ++ [(path, x :: b)])).
    { apply List.Forall_app. split; [exact H3 |].
      constructor; [| constructor]. cbn [snd length] in *. lia. }
    destruct rpc; unfold writerInv, trace; fields; cbn [length];
      (split; [discriminate |]); (split; [lia |]);
      (split; [exact Hw |]);
      (split; [rewrite !length_app; cbn; lia |]);
      (split;
       [rewrite ?failLines_app, failOutcomes_app, <- H5; cbn; lia |]);
      intros Hin;
      repeat (apply List.in_app_or in Hin as [Hin | [Hin | []]];
              [| discriminate Hin]);
      exact (H6 Hin).
Qed.

Lemma tail_inv (maxSpans : Z) (path : string) (rpc : Rpc) (full : bool)
    (replySpan : option Span) (t : Writer) :
  writerMid maxSpans t ->
  writerInv maxSpans
    (if negb full && (Z.of_nat (length (batch t)) <? maxSpans)
     then trace "Span batch waiting for more spans" LTrace t
     else flush path rpc replySpan t).
Proof.
  intros H.
  destruct (negb full && (Z.of_nat (length (batch t)) <? maxSpans)) eqn:E.
  - apply andb_true_iff in E as [_ E]. apply Z.ltb_lt in E.
    apply writerInv_mid. split.
    + apply writerMid_trace; [discriminate | exact H].
    + unfold trace, batchLimit. fields. lia.
  - apply flush_inv. exact H.
Qed.

Lemma writeSpans_pass_inv (queue : nat) (path : string) (maxSpans : Z)
    (ev : Event) (rpc : Rpc) (t t' : Writer) :
  writerInv maxSpans t ->
  writeSpans_pass queue path maxSpans ev rpc t = Some t' ->
  writerInv maxSpans t'.
Proof.
  clear TimeAsString. intros Hi H. unfold writeSpans_pass in H.
  destruct (done t); [injection H as <-; exact Hi |].
  apply writerInv_mid in Hi as [Hm Hlt].
  apply writerMid_armTimer in Hm.
  destruct (armTimer_batch t) as [Eb _]. rewrite <- Eb in Hlt.
  set (t0 := armTimer t) in *. cbv zeta in H.
  destruct ev as [sp n | |].
  - set (t1 := mkWriter (batch t0) (timerMade t0) (timeoutOn t0) (written t0)
                 (replied t0) (created t0) (recorded t0 ++ [n]) (traced t0)
                 (done t0)) in *.
    assert (Hm1 : writerMid maxSpans t1) by exact Hm.
    assert (Hflush : forall rs,
              writerInv maxSpans
                (if negb true &&
                    (Z.of_nat (length (batch (trace "Flush span batch"
                                                LTrace t1))) <? maxSpans)
                 then trace "Span batch waiting for more spans" LTrace
                        (trace "Flush span batch" LTrace t1)
                 else flush path rpc rs (trace "Flush span batch" LTrace t1))).
    { intros rs. apply tail_inv.
      apply writerMid_trace; [discriminate | exact Hm1]. }
    destruct (GetSpanID sp =? 0).
    + destruct (ch sp) as [c |].
      * destruct (negb (c =? queue)%nat).
        -- destruct (spanInc sp =? 1); injection H as <-.
           ++ apply writerInv_mid. split; [| exact Hlt].
              apply writerMid_reply. exact Hm1.
           ++ exact (Hflush (Some sp)).
        -- injection H as <-. exact (Hflush None).
      * injection H as <-. exact (Hflush None).
    + destruct (details sp) as [d |]; [| discriminate H].
      destruct (DisplayName d) as [nm |]; [| discriminate H].
      match type of H with
      | Some ?x = Some _ =>
          enough (Hx : writerInv maxSpans x);
          [injection H as <-; exact Hx |]
      end.
      refine (tail_inv maxSpans path rpc false None _ _).
      destruct Hm1 as [H1 [H2 [H3 [H4 [H5 H6]]]]].
      unfold writerMid, trace. clear Hflush. subst t1. fields_all.
      split.
      { intros E. split; [| exact (proj2 (H1 E))].
        intros C. apply app_eq_nil in C as [_ C]. discriminate C. }
      split.
      { rewrite length_app. cbn [length]. lia. }
      split; [exact H3 |]. split; [exact H4 |].
      split; [rewrite failLines_app, <- H5; cbn; lia |].
      intros Hin. apply List.in_app_or in Hin as [Hin | [Hin | []]].
      * exact (H6 Hin).
      * discriminate Hin.
  - injection H as <-. apply writerInv_mid. split; [exact Hm | exact Hlt].
  - destruct (timeoutOn t0) eqn:Et.
    + destruct Hm as [H1 [H2 [H3 [H4 [H5 H6]]]]].
      destruct (H1 Et) as [Hne Htm].
      set (t1 := trace "Span batch timed out" LTrace
                   (mkWriter (batch t0) (timerMade t0) false (written t0)
                      (replied t0) (created t0) (recorded t0) (traced t0)
                      (done t0))) in *.
      assert (Hm1 : writerMid maxSpans t1).
      { apply writerMid_trace; [discriminate |].
        unfold writerMid. fields.
        split; [discriminate |]. tauto. }
      change (batch t1) with (batch t0) in H.
      destruct (batch t0) as [| x b] eqn:Eb0; [contradiction |].
      injection H as <-.
      pose proof (tail_inv maxSpans path rpc true None t1 Hm1) as Ht.
      exact Ht.
    + injection H as <-. apply writerInv_mid. split; [exact Hm | exact Hlt].
Qed.

Lemma writeSpans_inv (queue : nat) (path : string) (maxSpans : Z)
    (evs : list (Event * Rpc)) :
  forall t t',
    writerInv maxSpans t ->
    writeSpans queue path maxSpans evs t = Some t' ->
    writerInv maxSpans t'.
Proof.
  induction evs as [| [ev rpc] evs IH]; intros t t' Hi H.
  - injection H as <-. exact Hi.
  - cbn [writeSpans] in H.
    destruct (writeSpans_pass queue path maxSpans ev rpc t) as [t1 |] eqn:E;
      [| discriminate H].
    apply (IH t1 t'); [| exact H].
    apply (writeSpans_pass_inv queue path maxSpans ev rpc t t1 Hi E).
Qed.

Lemma flush_fields (path : string) (rpc : Rpc) (replySpan : option Span)
    (t : Writer) :
  replied (flush path rpc replySpan t) =
  (replied t ++
   match replySpan with
   | Some sp => match ch sp with
                | Some c => [(c, sp)]
                | None => []
                end
   | None => []
   end)%list /\
  done (flush path rpc replySpan t) = done t /\
  batch (flush path rpc replySpan t) = [].
Proof.
  destruct t as [b tm tmo wr rp cr rc tr dn].
  destruct b as [| x b];
    [| destruct rpc];
    (destruct replySpan as [sp |]; [destruct (ch sp) as [c |] eqn:Ec |]);
    unfold flush; fields; rewrite ?Ec; unfold trace, reply; fields;
    rewrite ?app_nil_r; auto.
Qed.

(** One pass of a writer that has not returned: whom it answers, whether it
    returns, and what becomes of the batch when it reads a sentinel or
    finds the queue closed. *)
(** Name the writer a pass returns without reducing it. *)
Ltac take_result H :=
  match type of H with
  | Some ?x = Some ?y =>
      let H' := fresh in
      injection H as H'; change (x = y) in H'; rewrite <- H'; clear H'
  end.

Ltac take_as H x :=
  match type of H with
  | Some _ = Some ?y =>
      let H' := fresh in
      injection H as H'; change (x = y) in H'; rewrite <- H'; clear H'
  end.

Lemma writeSpans_pass_facts (queue : nat) (path : string) (maxSpans : Z)
    (ev : Event) (rpc : Rpc) (t t' : Writer) :
  done t = false ->
  writeSpans_pass queue path maxSpans ev rpc t = Some t' ->
  replied t' = (replied t ++ replies queue [(ev, rpc)])%list /\
  done t' = match ev with QueueClosed => true | _ => false end /\
  match ev with
  | QueueClosed => batch t' = batch t /\ written t' = written t
  | Received sp _ =>
      GetSpanID sp = 0 ->
      if asksReply queue sp && (spanInc sp =? 1)
      then batch t' = batch t /\ written t' = written t
      else batch t' = []
  | TimedOut => True
  end.
Proof.
  intros Hd H. unfold writeSpans_pass in H. rewrite Hd in H.
  destruct (armTimer_batch t) as [Eb [Ew [Er [Ed _]]]]. rewrite Hd in Ed.
  set (t0 := armTimer t) in *. cbv zeta in H.
  destruct ev as [sp n | |].
  - set (t1 := mkWriter (batch t0) (timerMade t0) (timeoutOn t0) (written t0)
                 (replied t0) (created t0) (recorded t0 ++ [n]) (traced t0)
                 (done t0)) in *.
    cbn [replies]. unfold asksReply.
    destruct (GetSpanID sp =? 0) eqn:Eid; cbn [andb].
    + destruct (ch sp) as [c |] eqn:Ec.
      * destruct (negb (c =? queue)%nat) eqn:Eq; cbn [andb].
        -- destruct (spanInc sp =? 1) eqn:Ei.
           ++ injection H as <-. unfold reply, t1. fields.
              rewrite Er, Eb, Ew. cbn [andb]. auto.
           ++ take_as H (flush path rpc (Some sp) (trace "Flush span batch" LTrace t1)).
              destruct (flush_fields path rpc (Some sp)
                          (trace "Flush span batch" LTrace t1))
                as [F1 [F2 F3]].
              rewrite F1, F2, F3, Ec. unfold trace, t1. fields.
              rewrite Er. cbn [andb]. auto.
        -- take_as H (flush path rpc None (trace "Flush span batch" LTrace t1)).
           destruct (flush_fields path rpc None
                       (trace "Flush span batch" LTrace t1))
             as [F1 [F2 F3]].
           rewrite F1, F2, F3. unfold trace, t1. fields.
           rewrite Er. cbn [andb]. auto.
      * take_as H (flush path rpc None (trace "Flush span batch" LTrace t1)).
        destruct (flush_fields path rpc None
                    (trace "Flush span batch" LTrace t1))
          as [F1 [F2 F3]].
        rewrite F1, F2, F3. unfold trace, t1. fields.
        rewrite Er. cbn [andb]. auto.
    + destruct (details sp) as [d |]; [| discriminate H].
      destruct (DisplayName d) as [nm |]; [| discriminate H].
      apply Z.eqb_neq in Eid.
      match type of H with
      | Some (if ?c then ?a else ?b) = Some _ =>
          assert (Hr : replied (if c then a else b) = replied t0 /\
                       done (if c then a else b) = false);
          [destruct c;
           [unfold trace, t1; fields; auto
           | match goal with
             | |- context [flush ?p ?r ?rs ?tt] =>
                 destruct (flush_fields p r rs tt) as [F1 [F2 _]];
                 rewrite F1, F2; unfold trace, t1; fields;
                 rewrite app_nil_r; auto
             end]
          |]
      end.
      take_result H. destruct Hr as [R1 R2].
      rewrite R1, R2, Er, app_nil_r.
      split; [reflexivity |]. split; [reflexivity |].
      intros C. contradiction.
  - injection H as <-. fields. cbn [replies]. rewrite app_nil_r. auto.
  - cbn [replies]. rewrite app_nil_r.
    destruct (timeoutOn t0).
    + set (t1 := trace "Span batch timed out" LTrace
                   (mkWriter (batch t0) (timerMade t0) false (written t0)
                      (replied t0) (created t0) (recorded t0) (traced t0)
                      (done t0))) in *.
      change (batch t1) with (batch t0) in H.
      destruct (batch t0) as [| x b].
      * injection H as <-. unfold t1, trace. fields. auto.
      * take_as H (flush path rpc None t1).
        destruct (flush_fields path rpc None t1) as [F1 [F2 _]].
        rewrite F1, F2. unfold t1, trace. fields.
        rewrite app_nil_r. auto.
    + injection H as <-. auto.
Qed.

Lemma writeSpans_app (queue : nat) (path : string) (maxSpans : Z)
    (evs1 evs2 : list (Event * Rpc)) :
  forall t,
    writeSpans queue path maxSpans (evs1 ++ evs2) t =
    match writeSpans queue path maxSpans evs1 t with
    | Some t1 => writeSpans queue path maxSpans evs2 t1
    | None => None
    end.
Proof.
  induction evs1 as [| [ev rpc] evs1 IH]; intros t; [reflexivity |].
  cbn [writeSpans app].
  destruct (writeSpans_pass queue path maxSpans ev rpc t); [apply IH |].
  reflexivity.
Qed.

Lemma writeSpans_replied (queue : nat) (path : string) (maxSpans : Z)
    (evs : list (Event * Rpc)) :
  forall t t',
    done t = false ->
    writeSpans queue path maxSpans evs t = Some t' ->
    replied t' = (replied t ++ replies queue evs)%list /\
    (staysOpen evs = true -> done t' = false).
Proof.
  induction evs as [| [ev rpc] evs IH]; intros t t' Hd H.
  - injection H as <-. cbn. rewrite app_nil_r. auto.
  - cbn [writeSpans] in H.
    destruct (writeSpans_pass queue path maxSpans ev rpc t) as [t1 |] eqn:E;
      [| discriminate H].
    destruct (writeSpans_pass_facts _ _ _ _ _ _ _ Hd E) as [R [D _]].
    destruct ev as [sp n | |].
    + destruct (IH t1 t' D H) as [R' D'].
      split; [| exact D'].
      rewrite R', R, <- app_assoc. f_equal.
      cbn [replies]. destruct (asksReply queue sp); [| reflexivity].
      destruct (ch sp); reflexivity.
    + rewrite (writeSpans_done _ _ _ _ _ D) in H. injection H as <-.
      split; [exact R |]. intros C. discriminate C.
    + destruct (IH t1 t' D H) as [R' D'].
      split; [| exact D'].
      rewrite R', R, <- app_assoc. reflexivity.
Qed.

Lemma appended_app (path : string) (evs1 evs2 : list (Event * Rpc)) :
  staysOpen evs1 = true ->
  appended path (evs1 ++ evs2) =
  (appended path evs1 ++ appended path evs2)%list.
Proof.
  induction evs1 as [| [ev rpc] evs1 IH]; intros H; [reflexivity |].
  cbn [staysOpen forallb fst] in H. apply andb_true_iff in H as [H1 H2].
  specialize (IH H2). cbn [app appended].
  destruct ev as [sp n | |]; [| discriminate H1 | exact IH].
  destruct (GetSpanID sp =? 0); [exact IH |].
  destruct (details sp); [| exact IH].
  rewrite IH. reflexivity.
Qed.

(** However the queue, the timer and the backend behave, no write of a
    writer is empty and none holds more spans than the batch size (more than
    one span, where the batch size is below one), and the batch the writer
    is filling stays below that size from pass to pass. *)
Theorem writeSpans_batch_bound (queue : nat) (path : string) (maxSpans : Z)
    (evs : list (Event * Rpc)) :
  Forall sendable evs ->
  exists t,
    writeSpans queue path maxSpans evs newWriter = Some t /\
    Forall (fun b => 0 < Z.of_nat (length (snd b)) <= batchLimit maxSpans)
      (written t) /\
    Z.of_nat (length (batch t)) < batchLimit maxSpans.
Proof.
  intros Hs.
  destruct (writeSpans_taken queue path maxSpans evs Hs newWriter eq_refl)
    as [t [H _]].
  pose proof (writeSpans_inv queue path maxSpans evs newWriter t
                (newWriter_inv maxSpans) H) as [_ [H2 [H3 _]]].
  exists t. auto.
Qed.

(** The timer of a writer runs only while its batch holds spans, so a
    timeout never finds the batch empty: the line the loop traces for
    that case is never written. *)
Theorem writeSpans_timer (queue : nat) (path : string) (maxSpans : Z)
    (evs : list (Event * Rpc)) :
  Forall sendable evs ->
  exists t,
    writeSpans queue path maxSpans evs newWriter = Some t /\
    (timeoutOn t = true -> batch t <> [] /\ timerMade t = true) /\
    ~ List.In (LTrace, "Span batch empty after timeout?!") (traced t).
Proof.
  intros Hs.
  destruct (writeSpans_taken queue path maxSpans evs Hs newWriter eq_refl)
    as [t [H _]].
  pose proof (writeSpans_inv queue path maxSpans evs newWriter t
                (newWriter_inv maxSpans) H) as [H1 [_ [_ [_ [_ H6]]]]].
  exists t. auto.
Qed.

(** Every write is counted once by [spanCreated], and the failures logged
    are as many as the writes counted as failed. *)
Theorem writeSpans_accounting (queue : nat) (path : string) (maxSpans : Z)
    (evs : list (Event * Rpc)) :
  Forall sendable evs ->
  exists t,
    writeSpans queue path maxSpans evs newWriter = Some t /\
    length (created t) = length (written t) /\
    failLines (traced t) = failOutcomes (created t).
Proof.
  intros Hs.
  destruct (writeSpans_taken queue path maxSpans evs Hs newWriter eq_refl)
    as [t [H _]].
  pose proof (writeSpans_inv queue path maxSpans evs newWriter t
                (newWriter_inv maxSpans) H) as [_ [_ [_ [H4 [H5 _]]]]].
  exists t. auto.
Qed.

(** A writer answers every sentinel that asks for it, once, on the
    sentinel's channel and in the order read, and nothing else.  When it
    has just read the sentinel of [WaitForIdleRunners], its batch is empty
    and all the spans it read before are in the writes it has made; the
    sentinel of [WaitForRunnerRead], whose [spanInc] is 1, is answered
    without a write, the batch staying as it was. *)
Theorem writeSpans_answers_sentinels (queue : nat) (path : string)
    (maxSpans : Z) (evs : list (Event * Rpc)) :
  Forall sendable evs ->
  exists t,
    writeSpans queue path maxSpans evs newWriter = Some t /\
    replied t = replies queue evs /\
    (forall evs1 sp n rpc,
       evs = (evs1 ++ [(Received sp n, rpc)])%list ->
       staysOpen evs1 = true -> GetSpanID sp = 0 ->
       exists t1,
         writeSpans queue path maxSpans evs1 newWriter = Some t1 /\
         if asksReply queue sp && (spanInc sp =? 1)
         then batch t = batch t1 /\ written t = written t1
         else batch t = [] /\
              concat (map snd (written t)) = appended path evs1).
Proof.
  intros Hs.
  destruct (writeSpans_taken queue path maxSpans evs Hs newWriter eq_refl)
    as [t [H [A _]]].
  exists t. split; [exact H |].
  split; [apply (writeSpans_replied queue path maxSpans evs newWriter t
                   eq_refl H) |].
  intros evs1 sp n rpc -> Ho Hid.
  rewrite writeSpans_app in H.
  destruct (writeSpans queue path maxSpans evs1 newWriter) as [t1 |] eqn:E1;
    [| discriminate H].
  exists t1. split; [reflexivity |].
  destruct (writeSpans_replied queue path maxSpans evs1 newWriter t1
              eq_refl E1) as [_ D1].
  specialize (D1 Ho). cbn [writeSpans] in H.
  destruct (writeSpans_pass queue path maxSpans (Received sp n) rpc t1)
    as [t2 |] eqn:E2; [| discriminate H].
  injection H as ->.
  destruct (writeSpans_pass_facts _ _ _ _ _ _ _ D1 E2) as [_ [_ F]].
  specialize (F Hid).
  destruct (asksReply queue sp && (spanInc sp =? 1)); [exact F |].
  split; [exact F |].
  unfold taken in A. rewrite F, app_nil_r in A. rewrite A.
  rewrite (appended_app path evs1 _ Ho). cbn [appended].
  apply Z.eqb_eq in Hid. rewrite Hid. cbn. apply app_nil_r.
Qed.

(** When a writer finds the queue closed it returns at once: the spans
    still in its batch are not written, no sentinel is answered, and
    whatever comes after is not looked at. *)
Theorem writeSpans_queue_closed (queue : nat) (path : string)
    (maxSpans : Z) (evs1 evs2 : list (Event * Rpc)) (rpc : Rpc) :
  Forall sendable evs1 -> staysOpen evs1 = true ->
  exists t1 t,
    writeSpans queue path maxSpans evs1 newWriter = Some t1 /\
    writeSpans queue path maxSpans (evs1 ++ (QueueClosed, rpc) :: evs2)
      newWriter = Some t /\
    done t1 = false /\ done t = true /\
    written t = written t1 /\ batch t = batch t1 /\
    replied t = replied t1.
Proof.
  intros Hs Ho.
  destruct (writeSpans_taken queue path maxSpans evs1 Hs newWriter eq_refl)
    as [t1 [H1 _]].
  destruct (writeSpans_replied queue path maxSpans evs1 newWriter t1
              eq_refl H1) as [_ D1].
  specialize (D1 Ho).
  destruct (writeSpans_pass_taken queue path maxSpans QueueClosed rpc t1
              I D1) as [t [E [_ [Dt _]]]].
  destruct (writeSpans_pass_facts _ _ _ _ _ _ _ D1 E) as [R [_ [B W]]].
  exists t1, t. split; [exact H1 |].
  split.
  { rewrite writeSpans_app, H1. cbn [writeSpans]. rewrite E.
    apply writeSpans_done. exact Dt. }
  split; [exact D1 |]. split; [exact Dt |]. split; [exact W |].
  split; [exact B |]. rewrite R. cbn [replies]. apply app_nil_r.
Qed.

(** ** Shutting down *)




(** ** Configuration from the environment *)

Lemma decN_acc (n : nat) :
  forall x acc, decN n x acc = decN n x "" +:+ acc.
Proof.
  induction n as [| n IH]; intros x acc; [reflexivity |].
  cbn [decN]. rewrite IH. rewrite (IH _ (String _ "")).
  rewrite append_assoc. reflexivity.
Qed.

Lemma decimalValue_append (s t : string) :
  forall v, decimalValue (s +:+ t) v =
            match decimalValue s v with
            | Some v' => decimalValue t v'
            | None => None
            end.
Proof.
  induction s as [| c s IH]; intros v; [reflexivity |].
  rewrite append_cons. cbn [decimalValue].
  destruct (isDigit c); [apply IH | reflexivity].
Qed.

Lemma decimalValue_digit (d v : Z) :
  0 <= d < 10 ->
  decimalValue (String (ascii_of_N (Z.to_N (48 + d))) "") v =
  Some (10 * v + d).
Proof.
  intros Hd.
  assert (d = 0 \/ d = 1 \/ d = 2 \/ d = 3 \/ d = 4 \/ d = 5 \/ d = 6 \/
          d = 7 \/ d = 8 \/ d = 9) as H by lia.
  repeat (destruct H as [-> | H]; [reflexivity |]). subst d. reflexivity.
Qed.

Lemma decimalValue_decN (n : nat) :
  forall x v, 0 <= x ->
              decimalValue (decN n x "") v =
              Some (v * 10 ^ Z.of_nat n + x mod 10 ^ Z.of_nat n).
Proof.
  induction n as [| n IH]; intros x v Hx.
  - cbn. rewrite Z.mod_1_r. f_equal. lia.
  - cbn [decN]. rewrite decN_acc, decimalValue_append.
    rewrite IH by (apply Z.div_pos; lia).
    rewrite decimalValue_digit by (apply Z.mod_pos_bound; lia).
    f_equal. rewrite Nat2Z.inj_succ, Z.pow_succ_r by lia.
    rewrite Z.rem_mul_r; [lia | lia | apply Z.pow_pos_nonneg; lia].
Qed.

Lemma decN_nonempty (n : nat) (x : Z) : decN (S n) x "" <> "".
Proof.
  cbn [decN]. rewrite decN_acc. intros H.
  apply (f_equal String.length) in H. rewrite length_append in H.
  cbn in H. lia.
Qed.

Lemma isDigit_unsigned (c : ascii) :
  isDigit c = true -> Ascii.eqb c "+" = false /\ Ascii.eqb c "-" = false.
Proof.
  destruct c as [[] [] [] [] [] [] [] []]; intros H;
    try discriminate H; split; reflexivity.
Qed.

Lemma ParseInt10_32_unsigned (s : string) (v : Z) :
  s <> "" -> decimalValue s 0 = Some v ->
  ParseInt10_32 s = if v <? 2 ^ 31 then Some v else None.
Proof.
  intros Hs Hv. destruct s as [| c rest]; [contradiction |].
  unfold ParseInt10_32.
  assert (Hc : isDigit c = true).
  { cbn [decimalValue] in Hv. destruct (isDigit c); [reflexivity |].
    discriminate Hv. }
  destruct (isDigit_unsigned c Hc) as [-> ->]. cbn [orb].
  rewrite Hv. reflexivity.
Qed.

Lemma ParseInt10_32_negative (s : string) (v : Z) :
  s <> "" -> decimalValue s 0 = Some v ->
  ParseInt10_32 ("-" +:+ s) = if v <=? 2 ^ 31 then Some (- v) else None.
Proof.
  intros Hs Hv. destruct s as [| c rest]; [contradiction |].
  change ("-" +:+ String c rest) with (String "-" (String c rest)).
  unfold ParseInt10_32. change (Ascii.eqb "-" "-") with true.
  rewrite orb_true_r. rewrite Hv. reflexivity.
Qed.

Lemma decimalValue_nonneg (t : string) :
  forall a v, decimalValue t a = Some v -> 0 <= a -> 0 <= v.
Proof.
  induction t as [| c t IH]; intros a v H Ha.
  - injection H as <-. exact Ha.
  - cbn [decimalValue] in H. destruct (isDigit c) eqn:Ec; [| discriminate H].
    apply IH in H; [exact H |].
    unfold isDigit in Ec. apply andb_true_iff in Ec as [E1 _].
    apply Z.leb_le in E1. lia.
Qed.

Lemma ParseInt10_32_range (s : string) (v : Z) :
  ParseInt10_32 s = Some v -> - 2 ^ 31 <= v < 2 ^ 31.
Proof.
  unfold ParseInt10_32. destruct s as [| c rest]; [discriminate |].
  intros H.
  match type of H with
  | match ?ds with _ => _ end = _ => destruct ds as [| c' r'] eqn:Eds
  end; [discriminate H |].
  destruct (decimalValue (String c' r') 0) as [n |] eqn:En;
    [| discriminate H].
  pose proof (decimalValue_nonneg _ _ _ En ltac:(lia)) as Hn.
  destruct (Ascii.eqb c "-").
  - destruct (n <=? 2 ^ 31) eqn:E; [| discriminate H].
    apply Z.leb_le in E. injection H as <-. lia.
  - destruct (n <? 2 ^ 31) eqn:E; [| discriminate H].
    apply Z.ltb_lt in E. injection H as <-. lia.
Qed.

(** [EnvInteger] ends the process when it is given no variable name.  It
    returns the default for a variable that is not set or is empty.  What it
    returns otherwise fits 32 bits: a number written in decimal digits,
    with leading zeros or a minus sign if one likes, is read back as
    written, and one too large for 32 bits ends the process. *)
Theorem EnvInteger_reads (tacit : Z) (envvar : string)
    (env : gmap string string) :
  EnvInteger tacit "" env =
  Exit "Empty environment variable name passed to EnvInteger()" /\
  (envvar <> "" -> env !! envvar = None \/ env !! envvar = Some "" ->
   EnvInteger tacit envvar env = Returned tacit) /\
  (forall v,
     EnvInteger tacit envvar env = Returned v ->
     v = tacit \/ - 2 ^ 31 <= v < 2 ^ 31) /\
  (forall k n,
     envvar <> "" -> 0 <= n < 10 ^ Z.of_nat (S k) ->
     (env !! envvar = Some (decN (S k) n "") ->
      EnvInteger tacit envvar env =
      if n <? 2 ^ 31 then Returned n else Exit "Invalid integer value") /\
     (env !! envvar = Some ("-" +:+ decN (S k) n "") ->
      EnvInteger tacit envvar env =
      if n <=? 2 ^ 31 then Returned (- n) else Exit "Invalid integer value")).
Proof.
  split; [reflexivity |]. split; [| split].
  - intros Hn H. unfold EnvInteger. apply String.eqb_neq in Hn. rewrite Hn.
    destruct H as [-> | ->]; reflexivity.
  - intros v H. unfold EnvInteger in H.
    destruct (String.eqb envvar ""); [discriminate H |].
    destruct (String.eqb _ ""); [injection H as <-; left; reflexivity |].
    destruct (ParseInt10_32 _) as [i |] eqn:E; [| discriminate H].
    injection H as <-. right. apply (ParseInt10_32_range _ _ E).
  - intros k n Hn Hr. apply String.eqb_neq in Hn.
    assert (Hv : decimalValue (decN (S k) n "") 0 = Some n).
    { rewrite decimalValue_decN by lia. f_equal.
      rewrite Z.mod_small by lia. lia. }
    pose proof (decN_nonempty k n) as Hne.
    split; intros E; unfold EnvInteger; rewrite Hn, E.
    + apply String.eqb_neq in Hne as Hne'. rewrite Hne'.
      rewrite (ParseInt10_32_unsigned _ n Hne Hv).
      destruct (n <? 2 ^ 31); reflexivity.
    + change (String.eqb ("-" +:+ decN (S k) n "") "") with false.
      cbv iota.
      rewrite (ParseInt10_32_negative _ n Hne Hv).
      destruct (n <=? 2 ^ 31); reflexivity.
Qed.

End Registrar.

(** * The properties at work on the sample spans *)

Lemma sampleLive_wf : wf sampleLive.
Proof.
  unfold wf, isU64. vm_compute.
  repeat split; try discriminate; try contradiction;
    try (intros _ H; discriminate H).
Qed.

Lemma sampleFinished_wf : wf sampleFinished.
Proof.
  unfold wf, isU64. vm_compute.
  repeat split; try discriminate; try contradiction;
    try (intros _ H; discriminate H).
Qed.

Lemma sampleWrapped_wf : wf sampleWrapped.
Proof.
  unfold wf, isU64. vm_compute.
  repeat split; try discriminate; try contradiction;
    try (intros [H | H]; contradiction).
Qed.

Lemma sampleLive_live : live sampleLive.
Proof. unfold live. vm_compute. repeat split; discriminate. Qed.

(** Three sub-spans of the sample span have three different IDs. *)
Lemma NewSubSpans_distinct_witness :
  exists kids s' w',
    NewSubSpans sampleZulu [1; 1; 1]%N sampleLive sampleWorld =
    Some (kids, s', w') /\
    length kids = 3%nat /\ List.NoDup (map factoryID kids).
Proof.
  destruct (NewSubSpans_distinct sampleZulu [1; 1; 1]%N sampleLive sampleWorld)
    as [kids [s' [w' [inc [H [L [_ [D _]]]]]]]].
  - exact sampleLive_wf.
  - vm_compute. discriminate.
  - vm_compute. reflexivity.
  - intros _. left. vm_compute. lia.
  - exists kids, s', w'. auto.
Defined.

(** A sub-span, then [Finish], then another sub-span: the count is 1. *)
Lemma childSpanCount_counts_witness :
  exists h s' w' d',
    calls sampleZulu [CNewSubSpan 1; CFinish 1; CNewSubSpan 1] sampleLive
      sampleWorld = Some (h, s', w') /\
    details s' = Some d' /\ ChildSpanCount d' = 1.
Proof.
  destruct (calls sampleZulu [CNewSubSpan 1; CFinish 1; CNewSubSpan 1]
              sampleLive sampleWorld) as [[[h s'] w'] |] eqn:E;
    [| vm_compute in E; discriminate E].
  destruct (childSpanCount_counts sampleZulu
              [CNewSubSpan 1; CFinish 1; CNewSubSpan 1] sampleLive sampleWorld
              h s' w' sampleDetails eq_refl
              ltac:(unfold isInt64; cbn; lia) E)
    as [d' [D [_ [C _]]]].
  exists h, s', w', d'. split; [reflexivity |]. split; [exact D |].
  rewrite C by (vm_compute; reflexivity).
  vm_compute in E. injection E as <- _ _. reflexivity.
Defined.

(** [Finish] on the sample span, with room in the queue; and on an
    unbuffered queue with a runner waiting, which is handed the span. *)
Lemma Finish_live_witness :
  (exists w',
     Finish sampleZulu 1 sampleLive sampleWorld =
     Some (51,
           mkSpan sampleRO (Some O) 100 151 None
             (Some (mkCt2Span "" "0000000000000005" "" (Some "server")
                      "2006-01-02T15:04:05Z" "2006-01-02T15:04:05Z" "" None
                      None false 0)) 0 0, w') /\
     dropped w' = 0) /\
  (exists s' w',
     Finish sampleZulu 1 sampleLive unbufferedWorld = Some (51, s', w') /\
     chans w' = {[ O := mkChan [] 0 false 0 [s'] ]} /\ dropped w' = 0).
Proof.
  split.
  - destruct (proj2 (Finish_live sampleZulu 1 sampleLive sampleWorld
                       sampleDetails sampleLive_live eq_refl) eq_refl)
      as [w' [H [_ [_ [_ [R _]]]]]].
    exists w'. split; [exact H |].
    apply (R O (mkChan [] 4 false 0 []));
      [reflexivity | reflexivity | reflexivity |].
    vm_compute. lia.
  - destruct (proj2 (Finish_live sampleZulu 1 sampleLive unbufferedWorld
                       sampleDetails sampleLive_live eq_refl) eq_refl)
      as [w' [H [_ [_ [R _]]]]].
    eexists _, w'. split; [exact H |].
    destruct (R O (mkChan [] 0 false 1 []) eq_refl eq_refl ltac:(cbn; lia))
      as [C D].
    split; [| exact D]. rewrite C. vm_compute. reflexivity.
Defined.

(** C3, the claim as stated.  An unbuffered queue has no free capacity,
    yet with a runner blocked receiving from it the span is handed over and
    nothing is counted as dropped.  And once the queue has been closed,
    [Finish] on a live span does not return: the send panics. *)
Lemma Finish_handed_over_or_panics :
  live sampleLive /\
  hasRoom (ch sampleLive) unbufferedWorld = false /\
  (exists s' w',
     Finish sampleZulu 1 sampleLive unbufferedWorld = Some (51, s', w') /\
     chans w' = {[ O := mkChan [] 0 false 0 [s'] ]} /\
     dropped w' = dropped unbufferedWorld) /\
  queueClosed (ch sampleLive) haltedWorld = true /\
  Finish sampleZulu 1 sampleLive haltedWorld = None.
Proof.
  split; [exact sampleLive_live |]. split; [reflexivity |].
  split; [| split; vm_compute; reflexivity].
  eexists _, _. split; [vm_compute; reflexivity |].
  split; vm_compute; reflexivity.
Qed.

(** The closed queue of that world is what [Halt] leaves. *)
Lemma haltedWorld_reachable :
  Halt sampleRegistrar sampleWorld =
  Some (mkRegistrar "proj" 0 None, haltedWorld).
Proof. vm_compute. reflexivity. Qed.

(** A writer that reads a finished span, then a sentinel. *)
Lemma writeSpans_witness :
  exists t,
    writeSpans O (registrarPath "proj") 10
      [(Received sampleFinished 0, RpcOk); (Received sampleSentinel 0, RpcOk)]
      newWriter = Some t /\
    map Name (taken t) =
    ["projects/proj/traces/0123456789abcdef0123456789abcdef/spans/0000000000000005"].
Proof.
  destruct (writeSpans_never_writes_sentinels O "proj" 10
              [(Received sampleFinished 0, RpcOk);
               (Received sampleSentinel 0, RpcOk)])
    as [t [H [A _]]].
  - constructor; [| constructor; [| constructor]].
    + intros _. eexists _, _. split; reflexivity.
    + intros C. exfalso. apply C. reflexivity.
  - exists t. split; [exact H |]. rewrite A. vm_compute. reflexivity.
Defined.

(** The first sub-span of the sample span. *)
Lemma NewSubSpan_child_witness :
  exists kid P' w',
    NewSubSpan sampleZulu 1 sampleLive sampleWorld = Some (FSpan kid, P', w') /\
    GetSpanID kid <> GetSpanID sampleLive /\ start kid = 151.
Proof.
  destruct (NewSubSpan_child sampleZulu 1 sampleLive sampleWorld)
    as [kid [P' [w' [d [H [_ [_ [_ [D [S _]]]]]]]]]].
  - exact sampleLive_wf.
  - vm_compute. discriminate.
  - left. reflexivity.
  - vm_compute. discriminate.
  - intros _. left. vm_compute. lia.
  - exists kid, P', w'. auto.
Defined.

(** C5, the claim as stated.  A parent whose walker has gone round the
    64-bit space hands its own span ID to the next child. *)
Lemma NewSubSpan_repeats_parent_ID :
  wf sampleWrapped /\ GetSpanID sampleWrapped <> 0 /\
  exists kid P' w',
    NewSubSpan sampleZulu 1 sampleWrapped sampleWorld =
    Some (FSpan kid, P', w') /\
    GetSpanID kid = GetSpanID sampleWrapped.
Proof.
  split; [exact sampleWrapped_wf |]. split; [vm_compute; discriminate |].
  eexists _, _, _. split; [vm_compute; reflexivity | reflexivity].
Qed.

Lemma sampleImported_first :
  NewSubSpan sampleZulu 0 sampleImported sampleWorld =
  Some (FSpan (childOf sampleZulu (afterSubSpan sampleImported 1 1) 1 150),
        afterSubSpan sampleImported 1 1,
        tick 0 (mkWorld 150 "server" [Some 9; Some 11] [3; 5] false []
                  {[ O := mkChan [] 4 false 0 [] ]} 0)).
Proof.
  rewrite (NewSubSpan_first sampleZulu 0 sampleImported sampleWorld 1
             (mkWorld 150 "server" [Some 9; Some 11] [3; 5] false []
                {[ O := mkChan [] 4 false 0 [] ]} 0)).
  - reflexivity.
  - vm_compute. discriminate.
  - reflexivity.
  - reflexivity.
Qed.

(** That parent is the imported sample span after 2^64 - 2 sub-spans, the
    stride drawn being 1: the first child gets the ID 1, the zero being
    skipped, and the IDs then count up to 2^64 - 2. *)
Lemma sampleWrapped_reachable :
  exists dts kids w',
    Z.of_nat (length dts) = 2 ^ 64 - 2 /\
    NewSubSpans sampleZulu dts sampleImported sampleWorld =
    Some (kids, sampleWrapped, w').
Proof.
  assert (Hn : exists n : nat, Z.of_nat n = 2 ^ 64 - 3).
  { exists (Z.to_nat (2 ^ 64 - 3)). apply Z2Nat.id. lia. }
  destruct Hn as [n Hn].
  set (s1 := afterSubSpan sampleImported 1 1).
  destruct (NewSubSpans_started sampleZulu (List.repeat 0%N n) s1
              (tick 0 (mkWorld 150 "server" [Some 9; Some 11] [3; 5] false []
                         {[ O := mkChan [] 4 false 0 [] ]} 0)))
    as [kids [s' [w' [H [_ [_ [_ [Hinc Hkid]]]]]]]].
  - vm_compute. discriminate.
  - vm_compute. discriminate.
  - reflexivity.
  - destruct (NewSubSpans_frame sampleZulu _ _ _ _ _ _ H)
      as [A1 [A2 [A3 [A4 [A5 A6]]]]].
    exists (0%N :: List.repeat 0%N n),
      (FSpan (childOf sampleZulu s1 1 150) :: kids), w'.
    split.
    + cbn [length]. rewrite List.repeat_length. lia.
    + cbn [NewSubSpans]. unfold bind at 1. rewrite sampleImported_first.
      cbn iota beta. unfold bind. cbn [fst snd]. fold s1. rewrite H.
      unfold ret. cbn [fst snd]. do 3 f_equal.
      change (spanInc s1) with 1 in Hinc, Hkid.
      change (kidSpan s1) with 1 in Hkid.
      rewrite List.repeat_length, walk_by_one in Hkid by lia.
      specialize (A6 eq_refl).
      destruct s' as [r0 c0 st0 e0 p0 d0 i0 k0]. cbn in *. subst.
      unfold sampleWrapped. f_equal. lia.
Qed.

(** A second [Finish] on the finished sample span. *)
Lemma Finish_again_witness :
  exists w',
    Finish sampleZulu 1 sampleFinished sampleWorld =
    Some (0, sampleFinished, w') /\
    chans w' = chans sampleWorld.
Proof.
  destruct (Finish_again sampleZulu 1 sampleFinished sampleWorld)
    as [w' [H [_ [C _]]]].
  - exact sampleFinished_wf.
  - vm_compute. discriminate.
  - exists w'. auto.
Defined.

(** A trace ID drawn with no previous one. *)
Lemma NewTraceID_witness :
  exists t w',
    NewTraceID "" sampleWorld = Some (t, w') /\ String.length t = 32%nat.
Proof.
  destruct (NewTraceID_32_hex_nonzero "" sampleWorld)
    as [one [two [w1 [w' [t [_ [_ [H [L _]]]]]]]]].
  - left. vm_compute. lia.
  - exists t, w'. auto.
Defined.

(** The call of scenario S6 on the sample span. *)
Lemma AddPairs_zero_skip_witness :
  AddPairs
    [VString "a"; VInt 0; VString "b"; VBool false;
     VString "c"; VString ""; VString "d"; VString "x"]
    sampleLive sampleWorld =
  Some (mkSpan sampleRO (Some O) 100 0 None
          (Some (mkCt2Span "" "0000000000000005" "" None
                   "2006-01-02T15:04:05Z" "" ""
                   (Some {[ "c" := mkAV (Some "") 0 false;
                            "d" := mkAV (Some "x") 0 false ]})
                   None false 0)) 0 0,
        sampleWorld).
Proof.
  destruct (AddPairs_zero_skip sampleLive sampleDetails sampleWorld
              sampleLive_live eq_refl) as [_ [_ [_ [_ [_ [_ H]]]]]].
  rewrite H. vm_compute. reflexivity.
Defined.

(** C8, the claim as stated.  A pair with a zero value is not skipped in
    silence when its key is the empty string, nor when the zero is of a
    numeric type other than [int] and [int64]: each logs a failure. *)
Lemma AddPairs_zero_logged :
  live sampleLive /\
  AddPairs [VString ""; VInt 0] sampleLive sampleWorld =
  Some (sampleLive,
        addLog LFail "Error adding attribute to Span" sampleWorld) /\
  AddPairs [VString "n"; VOther "float64"] sampleLive sampleWorld =
  Some (sampleLive,
        addLog LFail "Error adding attribute to Span" sampleWorld).
Proof.
  split; [exact sampleLive_live |]. split; vm_compute; reflexivity.
Qed.

(** [SetIsServer] on the finished sample span. *)
Lemma mutators_refuse_finished_witness :
  call sampleZulu CSetIsServer sampleFinished sampleWorld =
  Some (RetReceiver, sampleFinished,
        addLog LFail "Disallowed method called on Finish()ed spans.Factory"
          sampleWorld).
Proof.
  apply (mutators_refuse_finished sampleZulu CSetIsServer sampleFinished
           sampleWorld eq_refl sampleFinished_wf).
  left. vm_compute. discriminate.
Defined.

(** C9, the claim as stated.  [AddAttribute] is among the mutators that
    refuse a finished span, but what it returns is a nil error, not the
    receiver. *)
Lemma AddAttribute_returns_no_receiver :
  isMutator (CAddAttribute "k" (VString "v")) = true /\
  wf sampleFinished /\ end_ sampleFinished <> 0 /\
  call sampleZulu (CAddAttribute "k" (VString "v")) sampleFinished
    sampleWorld =
  Some (RetError None, sampleFinished,
        addLog LFail "Disallowed method called on Finish()ed spans.Factory"
          sampleWorld) /\
  RetError None <> RetReceiver.
Proof.
  split; [reflexivity |]. split; [exact sampleFinished_wf |].
  split; [vm_compute; discriminate |].
  split; [vm_compute; reflexivity | discriminate].
Qed.

(** [AddAttribute] with an empty key and a nil value, on the finished
    sample span. *)
Lemma AddAttribute_refused_witness :
  AddAttribute "" VNil sampleFinished sampleWorld =
  Some (None, sampleFinished,
        addLog LFail "Disallowed method called on Finish()ed spans.Factory"
          sampleWorld).
Proof.
  destruct (AddAttribute_refused_nil_error "" VNil sampleFinished
              sampleWorld sampleFinished_wf) as [H _].
  apply H. right. right. vm_compute. discriminate.
Defined.

(** * The further properties at work *)



(** A new trace ID drawn from the sample span's own. *)
Lemma NewTraceID_differs_witness :
  exists t w',
    NewTraceID "0123456789abcdef0123456789abcdef" sampleWorld =
    Some (t, w') /\
    t <> "0123456789abcdef0123456789abcdef".
Proof.
  apply (NewTraceID_differs "0123456789abcdef0123456789abcdef" sampleWorld).
  left. vm_compute. lia.
Defined.

(** [NewTrace] on the live sample span. *)
Lemma NewTrace_root_witness :
  exists sp w',
    NewTrace sampleZulu 1 sampleLive sampleWorld = Some (sp, w') /\
    live sp /\ parent sp = None /\
    GetTraceID sp <> GetTraceID sampleLive.
Proof.
  destruct (NewTrace_root sampleZulu 1 sampleLive sampleWorld)
    as [sp [w' [H [L [_ [P [_ [_ [_ [_ [T _]]]]]]]]]]].
  - vm_compute. lia.
  - vm_compute. reflexivity.
  - exists sp, w'. auto.
Defined.

(** A root span and its first child, from the factory of the sample
    registrar. *)
Lemma NewSpan_root_then_child_witness :
  exists root w1 kid root' w2,
    NewSpan sampleZulu 1 (Registrar_NewFactory sampleRegistrar)
      (mkWorld 150 "server" [Some 1; Some 9; Some 11; Some 13] [3; 5] false
         [] {[ O := mkChan [] 4 false 0 [] ]} 0) =
    Some (FSpan root, Registrar_NewFactory sampleRegistrar, w1) /\
    NewSpan sampleZulu 1 root w1 = Some (FSpan kid, root', w2) /\
    GetTraceID kid = GetTraceID root /\ GetSpanID kid <> GetSpanID root.
Proof.
  destruct (NewSpan_root_then_child sampleZulu 1 1 sampleRegistrar
              (mkWorld 150 "server" [Some 1; Some 9; Some 11; Some 13]
                 [3; 5] false [] {[ O := mkChan [] 4 false 0 [] ]} 0))
    as [root [w1 [kid [root' [w2 [dr [dk [H1 [_ [H2 [_ [_ [_ [T [D _]]]]]]]]]]]]]]].
  - vm_compute. lia.
  - vm_compute. reflexivity.
  - exists root, w1, kid, root', w2. auto.
Defined.

(** The sample span as imported from its trace ID and span ID, and a
    sub-span of it. *)
Lemma Import_then_NewSubSpan_witness :
  exists kid imp' w' d,
    NewSubSpan sampleZulu 1
      (newSpan sampleRO (Some O)) sampleWorld = Some (FSpan kid, imp', w') /\
    details kid = Some d /\ SameProcessAsParentSpan d = false.
Proof.
  destruct (Import_then_NewSubSpan sampleZulu (NewFactory "proj" O)
              "0123456789abcdef0123456789abcdef" 5
              (newSpan sampleRO (Some O)) 1 1 sampleWorld)
    as (_ & _ & _ & _ & _ & _ & _ & kid & imp' & w' & d & H & _ & _ & _ &
        _ & _ & _ & D & _ & S & _).
  - vm_compute. reflexivity.
  - unfold isU64. lia.
  - left. vm_compute. lia.
  - vm_compute. reflexivity.
  - exists kid, imp', w', d. auto.
Defined.

(** The duration of the sample span, before and after [Finish]. *)
Lemma GetDuration_after_Finish_witness :
  GetDuration sampleLive = -1000000000 /\
  exists dur s' w',
    Finish sampleZulu 1 sampleLive sampleWorld = Some (dur, s', w') /\
    GetDuration s' = dur /\ 0 <= dur.
Proof.
  destruct (GetDuration_after_Finish sampleZulu 1 sampleLive sampleWorld
              sampleDetails sampleLive_live eq_refl eq_refl)
    as [H [dur [s' [w' [F [G [P _]]]]]]].
  - vm_compute. split; [reflexivity | discriminate].
  - split; [exact H |]. exists dur, s', w'. auto.
Defined.

(** An attribute set on the sample span. *)
Lemma AddAttribute_lookup_witness :
  exists d',
    AddAttribute "user" (VString "ada") sampleLive sampleWorld =
    Some (None, withDetails sampleLive d', sampleWorld) /\
    attrsOf d' !! "user" = Some (mkAV (Some "ada") 0 false).
Proof.
  destruct (AddAttribute_lookup "user" (VString "ada")
              (mkAV (Some "ada") 0 false) sampleLive sampleDetails
              sampleWorld sampleLive_live eq_refl)
    as [d' [H [L _]]].
  - discriminate.
  - reflexivity.
  - exists d'. auto.
Defined.

(** A zero that comes after a value does not erase it. *)
Lemma AddPairs_attributes_witness :
  exists d' w',
    AddPairs [VString "n"; VInt 5; VString "n"; VInt 0] sampleLive
      sampleWorld = Some (withDetails sampleLive d', w') /\
    attrsOf d' !! "n" = Some (mkAV None 5 false) /\
    logged w' = logged sampleWorld.
Proof.
  destruct (AddPairs_attributes [VString "n"; VInt 5; VString "n"; VInt 0]
              sampleLive sampleDetails sampleWorld sampleLive_live eq_refl)
    as [d' [w' [lines [H [L [_ [_ [_ [_ [G _]]]]]]]]]].
  exists d', w'. split; [exact H |]. split; [rewrite L; reflexivity |].
  assert (E : AddPairs [VString "n"; VInt 5; VString "n"; VInt 0] sampleLive
                sampleWorld =
              Some (withDetails sampleLive
                      (mkCt2Span "" "0000000000000005" "" None
                         "2006-01-02T15:04:05Z" "" ""
                         (Some {[ "n" := mkAV None 5 false ]})
                         None false 0), sampleWorld))
    by (vm_compute; reflexivity).
  rewrite E in H. injection H as _ <-. reflexivity.
Defined.

(** A status set code first and message first. *)
Lemma SetStatus_either_order_witness :
  (let* s1 := SetStatusCode 5 sampleLive in SetStatusMessage "gone" s1)
    sampleWorld =
  (let* s1 := SetStatusMessage "gone" sampleLive in SetStatusCode 5 s1)
    sampleWorld.
Proof.
  destruct (SetStatus_either_order 5 "gone" sampleLive sampleDetails
              sampleWorld sampleLive_live eq_refl) as [H1 [H2 _]].
  rewrite H1, H2. reflexivity.
Defined.

(** [SetDisplayName] on the sample span leaves its span ID in place. *)
Lemma mutators_keep_identity_witness :
  exists r s' w' d',
    call sampleZulu (CSetDisplayName "handler") sampleLive sampleWorld =
    Some (r, s', w') /\
    details s' = Some d' /\ SpanId d' = "0000000000000005" /\
    start s' = 100.
Proof.
  destruct (call sampleZulu (CSetDisplayName "handler") sampleLive
              sampleWorld) as [[[r s'] w'] |] eqn:E;
    [| vm_compute in E; discriminate E].
  destruct (mutators_keep_identity sampleZulu (CSetDisplayName "handler")
              sampleLive sampleDetails sampleWorld r s' w' eq_refl eq_refl E)
    as [[_ [_ [S _]]] [_ [d' [D [_ [I _]]]]]].
  exists r, s', w', d'. auto.
Defined.

(** A writer with batch size 1 that reads the finished sample span
    twice: two writes of one span. *)
Lemma writeSpans_batch_bound_witness :
  exists t,
    writeSpans O (registrarPath "proj") 1
      [(Received sampleFinished 1, RpcOk); (Received sampleFinished 0, RpcOk)]
      newWriter = Some t /\
    map (fun b => length (snd b)) (written t) = [1%nat; 1%nat] /\
    batch t = [].
Proof.
  destruct (writeSpans_batch_bound O (registrarPath "proj") 1
              [(Received sampleFinished 1, RpcOk);
               (Received sampleFinished 0, RpcOk)])
    as [t [H _]].
  - constructor; [| constructor; [| constructor]];
      intros _; eexists _, _; split; reflexivity.
  - exists t. split; [exact H |].
    vm_compute in H. injection H as <-. split; reflexivity.
Defined.

(** A span, then the timer: the batch is written and the timer is idle. *)
Lemma writeSpans_timer_witness :
  exists t,
    writeSpans O (registrarPath "proj") 10
      [(Received sampleFinished 0, RpcOk); (TimedOut, RpcOk)]
      newWriter = Some t /\
    timeoutOn t = false /\ length (written t) = 1%nat.
Proof.
  destruct (writeSpans_timer O (registrarPath "proj") 10
              [(Received sampleFinished 0, RpcOk); (TimedOut, RpcOk)])
    as [t [H _]].
  - constructor; [| constructor; [| constructor]].
    + intros _. eexists _, _. split; reflexivity.
    + exact I.
  - exists t. split; [exact H |].
    vm_compute in H. injection H as <-. split; reflexivity.
Defined.

(** Two writes, the second failing. *)
Lemma writeSpans_accounting_witness :
  exists t,
    writeSpans O (registrarPath "proj") 1
      [(Received sampleFinished 1, RpcOk);
       (Received sampleFinished 0, RpcFail)]
      newWriter = Some t /\
    created t = ["ok"; "fail"] /\ failLines (traced t) = 1%nat.
Proof.
  destruct (writeSpans_accounting O (registrarPath "proj") 1
              [(Received sampleFinished 1, RpcOk);
               (Received sampleFinished 0, RpcFail)])
    as [t [H _]].
  - constructor; [| constructor; [| constructor]];
      intros _; eexists _, _; split; reflexivity.
  - exists t. split; [exact H |].
    vm_compute in H. injection H as <-. split; reflexivity.
Defined.

(** A span, then the sentinel of [WaitForIdleRunners]: the span is
    written and the sentinel answered. *)
Lemma writeSpans_answers_sentinels_witness :
  exists t,
    writeSpans O (registrarPath "proj") 10
      [(Received sampleFinished 0, RpcOk); (Received sampleSentinel 0, RpcOk)]
      newWriter = Some t /\
    replied t = [(1%nat, sampleSentinel)] /\ batch t = [].
Proof.
  destruct (writeSpans_answers_sentinels O (registrarPath "proj") 10
              [(Received sampleFinished 0, RpcOk);
               (Received sampleSentinel 0, RpcOk)])
    as [t [H [R F]]].
  - constructor; [| constructor; [| constructor]].
    + intros _. eexists _, _. split; reflexivity.
    + intros C. exfalso. apply C. reflexivity.
  - exists t. split; [exact H |]. split; [exact R |].
    destruct (F [(Received sampleFinished 0, RpcOk)] sampleSentinel 0 RpcOk
                eq_refl eq_refl eq_refl) as [t1 [_ [B _]]].
    exact B.
Defined.

(** A span in the batch when the queue closes is not written. *)
Lemma writeSpans_queue_closed_witness :
  exists t,
    writeSpans O (registrarPath "proj") 10
      [(Received sampleFinished 0, RpcOk); (QueueClosed, RpcOk);
       (TimedOut, RpcOk)]
      newWriter = Some t /\
    done t = true /\ written t = [] /\ length (batch t) = 1%nat.
Proof.
  destruct (writeSpans_queue_closed O (registrarPath "proj") 10
              [(Received sampleFinished 0, RpcOk)] [(TimedOut, RpcOk)] RpcOk)
    as [t1 [t [H1 [H [_ [D [W [B _]]]]]]]].
  - constructor; [| constructor].
    intros _. eexists _, _. split; reflexivity.
  - reflexivity.
  - exists t. split; [exact H |]. split; [exact D |].
    rewrite W, B. vm_compute in H1. injection H1 as <-.
    split; reflexivity.
Defined.


(** The batch size of the registrar, by default and as configured. *)
Lemma EnvInteger_reads_witness :
  EnvInteger 10000 "SPAN_BATCH_SIZE" ∅ = Returned 10000 /\
  EnvInteger 10000 "SPAN_BATCH_SIZE" {[ "SPAN_BATCH_SIZE" := "0250" ]} =
  Returned 250.
Proof.
  split.
  - destruct (EnvInteger_reads 10000 "SPAN_BATCH_SIZE" ∅) as [_ [H _]].
    apply H; [discriminate | left; reflexivity].
  - destruct (EnvInteger_reads 10000 "SPAN_BATCH_SIZE"
                {[ "SPAN_BATCH_SIZE" := "0250" ]}) as [_ [_ [_ H]]].
    destruct (H 3%nat 250) as [H1 _]; [discriminate | lia |].
    apply H1. reflexivity.
Defined.

(** * Package config: properties *)

Module config_properties.
Import config.

Lemma Split_nonempty (sep : ascii) (s : string) : Split sep s <> [].
Proof.
  destruct s as [| c s]; [discriminate |]. cbn [Split].
  destruct (Ascii.eqb c sep); [discriminate |].
  destruct (Split sep s); discriminate.
Qed.

Lemma Split_app (sep : ascii) (r : string) :
  forall p, Split sep (p +:+ String sep r) = (Split sep p ++ Split sep r)%list.
Proof.
  induction p as [| c p IH].
  - rewrite append_nil_l. cbn [Split]. rewrite Ascii.eqb_refl. reflexivity.
  - rewrite append_cons. cbn [Split]. rewrite IH.
    destruct (Ascii.eqb c sep); [reflexivity |].
    pose proof (Split_nonempty sep p) as Hn.
    destruct (Split sep p) as [| q qs]; [contradiction | reflexivity].
Qed.

Lemma Join_cons (p : string) (ps : list string) (sep : string) :
  ps <> [] -> Join (p :: ps) sep = p +:+ sep +:+ Join ps sep.
Proof. destruct ps; [contradiction | reflexivity]. Qed.

Lemma Join_Split (sep : ascii) (s : string) :
  Join (Split sep s) (String sep "") = s.
Proof.
  induction s as [| c s IH]; [reflexivity |]. cbn [Split].
  pose proof (Split_nonempty sep s) as Hn.
  destruct (Ascii.eqb c sep) eqn:E.
  - apply Ascii.eqb_eq in E. subst c.
    rewrite Join_cons by exact Hn. rewrite IH. reflexivity.
  - destruct (Split sep s) as [| q qs]; [contradiction |].
    destruct qs as [| q' qs].
    + cbn in *. rewrite IH. reflexivity.
    + rewrite Join_cons by discriminate. rewrite Join_cons in IH by discriminate.
      rewrite append_cons, IH. reflexivity.
Qed.

Lemma Join_app (l1 l2 : list string) (sep : string) :
  l1 <> [] -> l2 <> [] ->
  Join (l1 ++ l2) sep = Join l1 sep +:+ sep +:+ Join l2 sep.
Proof.
  intros H1 H2. induction l1 as [| p l1 IH]; [contradiction |].
  destruct l1 as [| q l1].
  - cbn [app]. apply Join_cons. exact H2.
  - change ((p :: q :: l1) ++ l2)%list with (p :: ((q :: l1) ++ l2))%list.
    rewrite Join_cons by discriminate. rewrite IH by discriminate.
    rewrite (Join_cons p (q :: l1)) by discriminate.
    rewrite !append_assoc. reflexivity.
Qed.

Lemma sliceFrom_app (a b : string) :
  sliceFrom (String.length a) (a +:+ b) = Some b.
Proof.
  unfold sliceFrom. rewrite length_append.
  replace (String.length a <=? String.length a + String.length b)%nat
    with true by (symmetry; apply Nat.leb_le; lia).
  replace (String.length a + String.length b - String.length a)%nat
    with (String.length b) by lia.
  f_equal. apply substring_skip_append.
Qed.

Section SubSystem.

Variable path : string.
Variable subs : gmap string string.

Lemma loop_none (k : nat) :
  (forall e, (1 <= e <= k)%nat -> valueOf subs (prefixAt path e) = "") ->
  subSystem_loop path (Split "/" path) subs (S k) = Some ("", "").
Proof.
  induction k as [| k IH]; intros H; [reflexivity |].
  cbn [subSystem_loop]. fold (prefixAt path (S k)).
  rewrite (H (S k)) by lia. cbn [String.eqb negb].
  apply IH. intros e He. apply H. lia.
Qed.

Lemma loop_found (k e : nat) :
  (1 <= e <= k)%nat -> valueOf subs (prefixAt path e) <> "" ->
  (forall e', (e < e' <= k)%nat -> valueOf subs (prefixAt path e') = "") ->
  subSystem_loop path (Split "/" path) subs (S k) = resultAt path subs e.
Proof.
  induction k as [| k IH]; intros He Hv Hn; [lia |].
  cbn [subSystem_loop]. fold (prefixAt path (S k)).
  destruct (Nat.eq_dec e (S k)) as [-> | Hne].
  - apply String.eqb_neq in Hv. rewrite Hv. cbn [negb]. reflexivity.
  - rewrite (Hn (S k)) by lia. cbn [String.eqb negb].
    apply IH; [lia | exact Hv |]. intros e' He'. apply Hn. lia.
Qed.

Lemma search (k : nat) :
  (forall e, (1 <= e <= k)%nat -> valueOf subs (prefixAt path e) = "") \/
  exists e, (1 <= e <= k)%nat /\ valueOf subs (prefixAt path e) <> "" /\
            forall e', (e < e' <= k)%nat -> valueOf subs (prefixAt path e') = "".
Proof.
  induction k as [| k [IH | [e [He [Hv Hn]]]]].
  - left. intros e He. lia.
  - destruct (String.eqb (valueOf subs (prefixAt path (S k))) "") eqn:E.
    + apply String.eqb_eq in E. left. intros e He.
      destruct (Nat.eq_dec e (S k)) as [-> | Hne]; [exact E |].
      apply IH. lia.
    + apply String.eqb_neq in E. right. exists (S k).
      split; [lia |]. split; [exact E |]. intros e' He'. lia.
  - destruct (String.eqb (valueOf subs (prefixAt path (S k))) "") eqn:E.
    + apply String.eqb_eq in E. right. exists e.
      split; [lia |]. split; [exact Hv |]. intros e' He'.
      destruct (Nat.eq_dec e' (S k)) as [-> | Hne]; [exact E |].
      apply Hn. lia.
    + apply String.eqb_neq in E. right. exists (S k).
      split; [lia |]. split; [exact E |]. intros e' He'. lia.
Qed.

(** The prefixes the loop tries are the prefixes of the path that end in
    a slash. *)
Lemma prefixAt_split (e : nat) :
  (1 <= e < length (Split "/" path))%nat ->
  path = prefixAt path e +:+ Join (skipn e (Split "/" path)) "/".
Proof.
  intros He. unfold prefixAt.
  rewrite <- (Join_Split "/" path) at 1.
  rewrite <- (List.firstn_skipn e (Split "/" path)) at 1.
  rewrite Join_app.
  - rewrite !append_assoc. reflexivity.
  - intros C. apply (f_equal (@length string)) in C.
    rewrite List.firstn_length_le in C by lia. cbn in C. lia.
  - intros C. apply List.skipn_all_iff in C. lia.
Qed.

Lemma prefixAt_of (p r : string) :
  path = p +:+ "/" +:+ r ->
  exists e, (1 <= e < length (Split "/" path))%nat /\ prefixAt path e = p +:+ "/".
Proof.
  intros E. exists (length (Split "/" p)).
  assert (Hs : Split "/" path = (Split "/" p ++ Split "/" r)%list).
  { rewrite E. apply Split_app. }
  pose proof (Split_nonempty "/" p) as Hp.
  pose proof (Split_nonempty "/" r) as Hr.
  split.
  - rewrite Hs, length_app.
    destruct (Split "/" p); [contradiction |].
    destruct (Split "/" r); [contradiction |]. cbn. lia.
  - unfold prefixAt. rewrite Hs.
    rewrite List.firstn_app, Nat.sub_diag, List.firstn_all. cbn [firstn].
    rewrite app_nil_r, Join_Split. reflexivity.
Qed.

Lemma prefixAt_longer (e e' : nat) :
  (1 <= e < e')%nat -> (e' < length (Split "/" path))%nat ->
  (String.length (prefixAt path e) < String.length (prefixAt path e'))%nat.
Proof.
  intros He He'. unfold prefixAt.
  set (l := Split "/" path) in *.
  assert (E : firstn e' l = (firstn e l ++ skipn e (firstn e' l))%list).
  { rewrite <- (List.firstn_skipn e (firstn e' l)) at 1.
    rewrite List.firstn_firstn. f_equal. f_equal. lia. }
  rewrite E, Join_app.
  - rewrite !length_append. cbn. lia.
  - intros C. apply (f_equal (@length string)) in C.
    rewrite List.firstn_length_le in C by lia. cbn in C. lia.
  - intros C. apply List.skipn_all_iff in C.
    rewrite List.firstn_length_le in C by lia. lia.
Qed.

End SubSystem.


Lemma append_inv_head (a x y : string) : a +:+ x = a +:+ y -> x = y.
Proof.
  induction a as [| c a IH]; [exact (fun H => H) |].
  rewrite !append_cons. intros H. injection H as H. exact (IH H).
Qed.

Lemma HasPrefix_slash (r : string) :
  HasPrefix r "/" =
  match r with
  | String c _ => Ascii.eqb c "/"
  | EmptyString => false
  end.
Proof.
  destruct r as [| c r]; [reflexivity |].
  unfold HasPrefix. cbn [String.length Nat.leb substring andb].
  destruct r; cbn [substring String.eqb];
    destruct (Ascii.eqb c "/"); reflexivity.
Qed.

(** What the loop returns when it stops at the prefix [p/] of the path. *)
Lemma resultAt_prefix (path : string) (subs : gmap string string)
    (e : nat) (p r : string) :
  path = p +:+ "/" +:+ r -> prefixAt path e = p +:+ "/" ->
  resultAt path subs e =
  match r with
  | EmptyString => None
  | _ => Some (valueOf subs (p +:+ "/"),
               if HasPrefix r "/" then r else "/" +:+ r)
  end.
Proof.
  intros E Hp. unfold resultAt. rewrite Hp.
  replace (sliceFrom (String.length (p +:+ "/")) path) with (Some r)
    by (rewrite E at 1; rewrite <- append_assoc, sliceFrom_app; reflexivity).
  rewrite HasPrefix_slash. destruct r; reflexivity.
Qed.

Lemma prefix_length_inj (a b x y : string) :
  a +:+ x = b +:+ y -> String.length a = String.length b -> a = b.
Proof.
  revert b. induction a as [| c a IH]; intros [| d b] H L;
    try reflexivity; try discriminate.
  rewrite !append_cons in H. injection H as -> H. f_equal.
  apply IH; [exact H | cbn in L; lia].
Qed.

(** Among the prefixes of a path that end in a slash, the index grows with
    the length. *)
Lemma prefixAt_order (path : string) (e e' : nat) :
  (1 <= e < length (Split "/" path))%nat ->
  (1 <= e' < length (Split "/" path))%nat ->
  (String.length (prefixAt path e) < String.length (prefixAt path e'))%nat ->
  (e < e')%nat.
Proof.
  intros He He' L.
  destruct (Nat.lt_ge_cases e e') as [Hlt | Hge]; [exact Hlt |].
  destruct (Nat.eq_dec e e') as [-> | Hne]; [lia |].
  pose proof (prefixAt_longer path e' e ltac:(lia) ltac:(lia)). lia.
Qed.

(** [subSystem] answers with the longest prefix of the path that ends in a
    slash and is mapped to a subsystem name: given such a prefix [p/], none
    longer, and something left after it, the result is the name mapped to
    [p/] and the rest of the path, with a slash put before it unless it
    starts with one. *)
Theorem subSystem_longest_prefix (path : string) (subs : gmap string string)
    (p r : string) :
  path = p +:+ "/" +:+ r ->
  valueOf subs (p +:+ "/") <> "" ->
  (forall p' r', path = p' +:+ "/" +:+ r' ->
                 (String.length p < String.length p')%nat ->
                 valueOf subs (p' +:+ "/") = "") ->
  r <> "" ->
  subSystem path subs =
  Some (valueOf subs (p +:+ "/"), if HasPrefix r "/" then r else "/" +:+ r).
Proof.
  intros E Hv Hmax Hr.
  destruct (prefixAt_of path p r E) as [e [He Hp]].
  unfold subSystem.
  destruct (length (Split "/" path)) as [| k] eqn:Hlen; [lia |].
  rewrite (loop_found path subs k e).
  - rewrite (resultAt_prefix path subs e p r E Hp).
    destruct r; [contradiction | reflexivity].
  - lia.
  - rewrite Hp. exact Hv.
  - intros e' He'.
    pose proof (prefixAt_split path e' ltac:(lia)) as E'.
    pose proof (prefixAt_longer path e e' ltac:(lia) ltac:(lia)) as L.
    remember (prefixAt path e') as q eqn:Hq.
    unfold prefixAt in Hq.
    set (p' := Join (firstn e' (Split "/" path)) "/") in Hq.
    subst q. rewrite append_assoc in E'.
    apply (Hmax p' _ E').
    rewrite Hp, !length_append in L. cbn in L. lia.
Qed.

(** [subSystem] panics on exactly one kind of path: one that ends in a
    slash and is itself mapped to a subsystem name, so that nothing is left
    for [suff[0]] to read. *)
Theorem subSystem_panics (path : string) (subs : gmap string string) :
  subSystem path subs = None <->
  (exists p, path = p +:+ "/") /\ valueOf subs path <> "".
Proof.
  unfold subSystem.
  destruct (length (Split "/" path)) as [| k] eqn:Hlen.
  { pose proof (Split_nonempty "/" path) as Hn.
    destruct (Split "/" path); [contradiction | discriminate]. }
  split.
  - intros H.
    destruct (search path subs k) as [Hnone | [e [He [Hv Hn]]]].
    + rewrite (loop_none path subs k Hnone) in H. discriminate.
    + rewrite (loop_found path subs k e He Hv Hn) in H.
      pose proof (prefixAt_split path e ltac:(lia)) as E.
      set (p := Join (firstn e (Split "/" path)) "/") in *.
      assert (Hp : prefixAt path e = p +:+ "/") by reflexivity.
      rewrite Hp, append_assoc in E.
      rewrite (resultAt_prefix path subs e p _ E Hp) in H.
      destruct (Join (skipn e (Split "/" path)) "/") as [| c r] eqn:Hj;
        [| discriminate].
      change ("/" +:+ "") with "/" in E.
      split; [exists p; exact E |].
      rewrite E, <- Hp. exact Hv.
  - intros [[p Hp] Hv].
    assert (E : path = p +:+ "/" +:+ "").
    { rewrite Hp. rewrite append_nil_r. reflexivity. }
    destruct (prefixAt_of path p "" E) as [e [He He']].
    rewrite (loop_found path subs k e).
    + rewrite (resultAt_prefix path subs e p "" E He'). reflexivity.
    + lia.
    + rewrite He', <- Hp. exact Hv.
    + intros e' He2.
      pose proof (prefixAt_split path e' ltac:(lia)) as E'.
      pose proof (prefixAt_longer path e e' ltac:(lia) ltac:(lia)) as L.
      apply (f_equal String.length) in E'.
      rewrite length_append in E'. rewrite He', <- Hp in L. lia.
Qed.

(** [subSystem] returns the pair of empty strings exactly when no prefix
    of the path that ends in a slash is mapped to a subsystem name. *)
Theorem subSystem_no_match (path : string) (subs : gmap string string) :
  subSystem path subs = Some ("", "") <->
  forall p r, path = p +:+ "/" +:+ r -> valueOf subs (p +:+ "/") = "".
Proof.
  unfold subSystem.
  destruct (length (Split "/" path)) as [| k] eqn:Hlen.
  { pose proof (Split_nonempty "/" path) as Hn.
    destruct (Split "/" path); [contradiction | discriminate]. }
  split.
  - intros H p r E.
    destruct (search path subs k) as [Hnone | [e [He [Hv Hn]]]].
    + destruct (prefixAt_of path p r E) as [e [He Hp]].
      rewrite <- Hp. apply Hnone. lia.
    + rewrite (loop_found path subs k e He Hv Hn) in H.
      pose proof (prefixAt_split path e ltac:(lia)) as E'.
      set (q := Join (firstn e (Split "/" path)) "/") in *.
      assert (Hq : prefixAt path e = q +:+ "/") by reflexivity.
      rewrite Hq, append_assoc in E'.
      rewrite (resultAt_prefix path subs e q _ E' Hq) in H.
      destruct (Join (skipn e (Split "/" path)) "/") as [| c t];
        [discriminate |].
      injection H as H _. rewrite <- Hq in H. contradiction.
  - intros H. apply loop_none. intros e He.
    pose proof (prefixAt_split path e ltac:(lia)) as E.
    set (q := Join (firstn e (Split "/" path)) "/") in *.
    assert (Hq : prefixAt path e = q +:+ "/") by reflexivity.
    rewrite Hq in *. rewrite append_assoc in E.
    exact (H q _ E).
Qed.


(** ** The prefixes that cover the configured ones *)

Lemma Split_length_app (p r : string) :
  length (Split "/" (p +:+ "/" +:+ r)) =
  (length (Split "/" p) + length (Split "/" r))%nat.
Proof.
  change (p +:+ "/" +:+ r) with (p +:+ String "/" r).
  rewrite Split_app, length_app. reflexivity.
Qed.

Lemma Split_length_pos (s : string) : (1 <= length (Split "/" s))%nat.
Proof.
  pose proof (Split_nonempty "/" s) as H.
  destruct (Split "/" s); [contradiction | cbn; lia].
Qed.

Lemma prefixAt_at (path p r : string) :
  path = p +:+ "/" +:+ r ->
  prefixAt path (length (Split "/" p)) = p +:+ "/".
Proof.
  intros E. unfold prefixAt.
  assert (Hs : Split "/" path = (Split "/" p ++ Split "/" r)%list).
  { rewrite E. apply Split_app. }
  rewrite Hs, List.firstn_app, Nat.sub_diag, List.firstn_all. cbn [firstn].
  rewrite app_nil_r, Join_Split. reflexivity.
Qed.

Lemma shorterKey_true (pref : string) (m : gmap string string) (k : nat) :
  shorterKey (Split "/" pref) m (S k) = true <->
  exists e, (1 <= e <= k)%nat /\ m !! prefixAt pref e <> None.
Proof.
  induction k as [| k IH].
  - split; [discriminate | intros [e [He _]]; lia].
  - cbn [shorterKey]. fold (prefixAt pref (S k)).
    destruct (m !! prefixAt pref (S k)) as [v |] eqn:Hm.
    + split; [intros _ | reflexivity].
      exists (S k). split; [lia |]. rewrite Hm. discriminate.
    + rewrite IH. split.
      * intros [e [He Hv]]. exists e. split; [lia | exact Hv].
      * intros [e [He Hv]]. exists e. split; [| exact Hv].
        destruct (Nat.eq_dec e (S k)) as [-> | Hne]; [| lia].
        rewrite Hm in Hv. contradiction.
Qed.

(** The prefixes the loop of [uniqueKeyPrefixes] tries are those that end
    at a slash with another slash further on. *)
Lemma prefixAt_inner (pref : string) (e : nat) :
  (1 <= e)%nat -> (e + 2 <= length (Split "/" pref))%nat ->
  exists p r1 r2,
    pref = p +:+ "/" +:+ r1 +:+ "/" +:+ r2 /\ prefixAt pref e = p +:+ "/".
Proof.
  intros He1 He2.
  pose proof (prefixAt_split pref e ltac:(lia)) as E.
  destruct (skipn e (Split "/" pref)) as [| a [| b l]] eqn:Hs.
  - apply (f_equal (@length string)) in Hs.
    rewrite List.length_skipn in Hs. cbn in Hs. lia.
  - apply (f_equal (@length string)) in Hs.
    rewrite List.length_skipn in Hs. cbn in Hs. lia.
  - rewrite Join_cons in E by discriminate.
    exists (Join (firstn e (Split "/" pref)) "/"), a, (Join (b :: l) "/").
    split; [| reflexivity].
    rewrite E at 1. unfold prefixAt. rewrite append_assoc. reflexivity.
Qed.

Lemma prefixAt_inner_of (pref p r1 r2 : string) :
  pref = p +:+ "/" +:+ r1 +:+ "/" +:+ r2 ->
  exists e, (1 <= e)%nat /\ (e + 2 <= length (Split "/" pref))%nat /\
            prefixAt pref e = p +:+ "/".
Proof.
  intros E. exists (length (Split "/" p)).
  split; [apply Split_length_pos |]. split.
  - rewrite E, !Split_length_app.
    pose proof (Split_length_pos r1). pose proof (Split_length_pos r2). lia.
  - apply (prefixAt_at pref p (r1 +:+ "/" +:+ r2) E).
Qed.

Lemma kept_iff (m : gmap string string) (pref : string) :
  shorterKey (Split "/" pref) m (length (Split "/" pref) - 1) = false <->
  forall p r1 r2,
    pref = p +:+ "/" +:+ r1 +:+ "/" +:+ r2 -> m !! (p +:+ "/") = None.
Proof.
  pose proof (Split_length_pos pref) as Hpos.
  destruct (length (Split "/" pref) - 1)%nat as [| k] eqn:Hk.
  - split; [| reflexivity]. intros _ p r1 r2 E.
    destruct (prefixAt_inner_of pref p r1 r2 E) as [e [He1 [He2 _]]]. lia.
  - split.
    + intros H p r1 r2 E.
      destruct (prefixAt_inner_of pref p r1 r2 E) as [e [He1 [He2 Hp]]].
      destruct (m !! (p +:+ "/")) as [v |] eqn:Hm; [| reflexivity].
      assert (T : shorterKey (Split "/" pref) m (S k) = true).
      { apply shorterKey_true. exists e. split; [lia |].
        rewrite Hp, Hm. discriminate. }
      rewrite T in H. discriminate.
    + intros H.
      destruct (shorterKey (Split "/" pref) m (S k)) eqn:T; [| reflexivity].
      apply shorterKey_true in T as [e [He Hv]].
      destruct (prefixAt_inner pref e ltac:(lia) ltac:(lia))
        as [p [r1 [r2 [E Hp]]]].
      rewrite Hp, (H p r1 r2 E) in Hv. contradiction.
Qed.

(** A string that ends in [c], cut in two: the cut is at the end, or the
    second part ends in [c]. *)
Lemma append_last_inv (c : ascii) (b : string) :
  forall s t, s +:+ String c "" = b +:+ t ->
  t = "" \/ exists t', t = t' +:+ String c "" /\ s = b +:+ t'.
Proof.
  induction b as [| d b IH]; intros s t E.
  - right. exists s. rewrite append_nil_l in *. split; [symmetry; exact E |].
    reflexivity.
  - destruct s as [| e s].
    + rewrite append_nil_l, append_cons in E. injection E as _ E.
      left. destruct b; [| discriminate]. rewrite append_nil_l in E.
      symmetry. exact E.
    + rewrite !append_cons in E. injection E as -> E.
      destruct (IH s t E) as [-> | [t' [-> ->]]]; [left; reflexivity |].
      right. exists t'. split; reflexivity.
Qed.

(** The shorter prefixes of a key that ends in a slash are the ones the
    loop of [uniqueKeyPrefixes] tries. *)
Lemma inner_slash (q p : string) :
  (exists r1 r2, q +:+ "/" = p +:+ "/" +:+ r1 +:+ "/" +:+ r2) <->
  exists r, q = p +:+ "/" +:+ r.
Proof.
  split.
  - intros [r1 [r2 E]].
    destruct (append_last_inv "/" p q _ E) as [C | [t' [Ht ->]]];
      [discriminate |].
    destruct t' as [| c t'].
    + rewrite append_nil_l in Ht. injection Ht as Ht.
      destruct r1; discriminate.
    + rewrite append_cons in Ht. injection Ht as <- _.
      exists t'. reflexivity.
  - intros [r ->]. exists r, "".
    rewrite !append_assoc. reflexivity.
Qed.

(** [uniqueKeyPrefixes] keeps a key exactly when no key of the map is a
    prefix of it that ends at a slash and has another slash after it.  For
    a key that ends in a slash, as the keys are expected to, that is: when
    none of its shorter prefixes that end in a slash is a key.  The order of
    the range decides the order of the result only. *)
Theorem uniqueKeyPrefixes_kept (m : gmap string string)
    (order : list string) (u q : string) :
  (In u (uniqueKeyPrefixes m order) <->
   In u order /\
   forall p r1 r2,
     u = p +:+ "/" +:+ r1 +:+ "/" +:+ r2 -> m !! (p +:+ "/") = None) /\
  (In (q +:+ "/") (uniqueKeyPrefixes m order) <->
   In (q +:+ "/") order /\
   forall p r, q = p +:+ "/" +:+ r -> m !! (p +:+ "/") = None).
Proof.
  assert (G : forall v,
             In v (uniqueKeyPrefixes m order) <->
             In v order /\
             forall p r1 r2,
               v = p +:+ "/" +:+ r1 +:+ "/" +:+ r2 ->
               m !! (p +:+ "/") = None).
  { intros v. unfold uniqueKeyPrefixes. rewrite List.filter_In.
    rewrite negb_true_iff, kept_iff. reflexivity. }
  split; [apply G |]. rewrite G. split.
  - intros [I H]. split; [exact I |]. intros p r E.
    destruct (proj2 (inner_slash q p) (ex_intro _ r E)) as [r1 [r2 E']].
    exact (H p r1 r2 E').
  - intros [I H]. split; [exact I |]. intros p r1 r2 E.
    destruct (proj1 (inner_slash q p) (ex_intro _ r1 (ex_intro _ r2 E)))
      as [r E'].
    exact (H p r E').
Qed.

Lemma uniqueKeyPrefixes_cover_aux (m : gmap string string)
    (order : list string) :
  (forall k, m !! k <> None -> In k order) ->
  forall n k, (String.length k < n)%nat -> m !! k <> None ->
  exists u r, In u (uniqueKeyPrefixes m order) /\ k = u +:+ r.
Proof.
  intros Hord. induction n as [| n IH]; intros k Hn Hk; [lia |].
  destruct (shorterKey (Split "/" k) m (length (Split "/" k) - 1)) eqn:T.
  - destruct (length (Split "/" k) - 1)%nat as [| j] eqn:Hj;
      [discriminate |].
    apply shorterKey_true in T as [e [He Hv]].
    destruct (prefixAt_inner k e ltac:(lia) ltac:(lia))
      as [p [r1 [r2 [E Hp]]]].
    rewrite Hp in Hv.
    destruct (IH (p +:+ "/")) as [u [r [Hu Hr]]].
    + rewrite E in Hn. rewrite !length_append in *. cbn in *. lia.
    + exact Hv.
    + exists u, (r +:+ r1 +:+ "/" +:+ r2). split; [exact Hu |].
      rewrite E at 1. rewrite <- (append_assoc p "/"), Hr.
      rewrite append_assoc. reflexivity.
  - exists k, "". split; [| rewrite append_nil_r; reflexivity].
    unfold uniqueKeyPrefixes. apply List.filter_In.
    split; [apply Hord; exact Hk |]. rewrite T. reflexivity.
Qed.

(** Whatever the order of the range, every key of the map starts with one
    of the prefixes [uniqueKeyPrefixes] returns. *)
Theorem uniqueKeyPrefixes_cover (m : gmap string string)
    (order : list string) (k : string) :
  (forall k', m !! k' <> None -> In k' order) ->
  m !! k <> None ->
  exists u r, In u (uniqueKeyPrefixes m order) /\ k = u +:+ r.
Proof.
  intros Hord Hk.
  exact (uniqueKeyPrefixes_cover_aux m order Hord (S (String.length k)) k
           ltac:(lia) Hk).
Qed.


(** ** Names fit for Prometheus *)

Lemma replaceRuns_allowed (s : string) :
  forall b, allChars allowed (replaceRuns s b) = true.
Proof.
  induction s as [| c s IH]; intros b; [reflexivity |].
  cbn [replaceRuns]. destruct (allowed c) eqn:Hc.
  - cbn [allChars]. rewrite Hc, IH. reflexivity.
  - destruct b; [apply IH |]. cbn [allChars]. rewrite IH. reflexivity.
Qed.

Lemma replaceRuns_nonempty (s : string) :
  s <> "" -> replaceRuns s false <> "".
Proof.
  destruct s as [| c s]; [contradiction |]. intros _.
  cbn [replaceRuns]. destruct (allowed c); discriminate.
Qed.

(** ** Suffix rules *)

Lemma substring_zero_zero (s : string) : substring 0 0 s = "".
Proof. destruct s; reflexivity. Qed.

Lemma substring_split (s : string) :
  forall n, (n <= String.length s)%nat ->
  s = substring 0 n s +:+ substring n (String.length s - n) s.
Proof.
  induction s as [| c s IH]; intros n Hn.
  - cbn in Hn. replace n with 0%nat by lia. reflexivity.
  - destruct n as [| n].
    + rewrite substring_zero_zero, append_nil_l, Nat.sub_0_r.
      symmetry. apply substring_whole.
    + cbn [String.length] in *. cbn [substring Nat.sub].
      rewrite append_cons. f_equal. apply IH. lia.
Qed.

Lemma HasSuffix_app (stem k : string) : HasSuffix (stem +:+ k) k = true.
Proof.
  unfold HasSuffix. rewrite length_append.
  replace (String.length stem + String.length k - String.length k)%nat
    with (String.length stem) by lia.
  rewrite substring_skip_append, String.eqb_refl.
  replace (String.length k <=? String.length stem + String.length k)%nat
    with true by (symmetry; apply Nat.leb_le; lia).
  reflexivity.
Qed.

Lemma HasSuffix_spec (name k : string) :
  HasSuffix name k = true ->
  (String.length k <= String.length name)%nat /\
  substring (String.length name - String.length k) (String.length k) name
  = k.
Proof.
  unfold HasSuffix. intros H. apply andb_true_iff in H as [H1 H2].
  split; [apply Nat.leb_le; exact H1 | apply String.eqb_eq; exact H2].
Qed.

Lemma HasSuffix_stem (name k : string) :
  HasSuffix name k = true ->
  name = substring 0 (String.length name - String.length k) name +:+ k.
Proof.
  intros H. apply HasSuffix_spec in H as [H1 H2].
  rewrite (substring_split name (String.length name - String.length k))
    at 1 by lia.
  f_equal.
  replace (String.length name - (String.length name - String.length k))%nat
    with (String.length k) by lia.
  exact H2.
Qed.

Lemma stem_app (stem k : string) :
  substring 0 (String.length (stem +:+ k) - String.length k) (stem +:+ k)
  = stem.
Proof.
  rewrite length_append.
  replace (String.length stem + String.length k - String.length k)%nat
    with (String.length stem) by lia.
  apply substring_zero_append.
Qed.

(** Two suffixes of one name that are as long as one another are the same
    string. *)
Lemma HasSuffix_same_length (name k k' : string) :
  HasSuffix name k = true -> HasSuffix name k' = true ->
  String.length k = String.length k' -> k = k'.
Proof.
  intros H H' L.
  apply HasSuffix_spec in H as [_ H]. apply HasSuffix_spec in H' as [_ H'].
  rewrite <- H, <- H', L. reflexivity.
Qed.

Lemma longestFirst_head (k0 k : string) (ks : list string) :
  longestFirst (k0 :: ks) -> In k (k0 :: ks) ->
  (String.length k <= String.length k0)%nat.
Proof.
  intros S I. apply StronglySorted_inv in S as [_ F].
  destruct I as [-> | I]; [lia |].
  rewrite List.Forall_forall in F. exact (F k I).
Qed.

(** One rule of [computeName], with its keys longest first: the longest key
    that is a suffix of the name is cut off and its replacement put in its
    place, shorter keys that are suffixes too notwithstanding; the name then
    starts with a slash, and the rule panics if nothing is left of it. *)
Theorem replaceSuffix_longest (repl : gmap string string)
    (ks : list string) (stem k : string) :
  longestFirst ks -> In k ks ->
  (forall k', In k' ks -> HasSuffix (stem +:+ k) k' = true ->
              (String.length k' <= String.length k)%nat) ->
  replaceSuffix (stem +:+ k) repl ks = slashFirst (stem +:+ valueOf repl k).
Proof.
  induction ks as [| k0 ks IH]; intros S I M; [contradiction |].
  cbn [replaceSuffix].
  destruct (HasSuffix (stem +:+ k) k0) eqn:H0.
  - assert (E : k0 = k).
    { apply (HasSuffix_same_length (stem +:+ k));
        [exact H0 | apply HasSuffix_app |].
      pose proof (M k0 (or_introl eq_refl) H0).
      pose proof (longestFirst_head k0 k ks S I). lia. }
    subst k0. rewrite stem_app. reflexivity.
  - destruct I as [-> | I].
    { rewrite HasSuffix_app in H0. discriminate. }
    apply IH.
    + apply StronglySorted_inv in S as [S _]. exact S.
    + exact I.
    + intros k' I' H'. apply M; [right; exact I' | exact H'].
Qed.

Lemma slashFirst_Some (name out : string) :
  slashFirst name = Some out -> exists t, out = "/" +:+ t.
Proof.
  destruct name as [| c s]; [discriminate |]. cbn [slashFirst].
  destruct (Ascii.eqb c "/") eqn:E; intros H; injection H as <-.
  - apply Ascii.eqb_eq in E. subst c. exists s. reflexivity.
  - exists (String c s). reflexivity.
Qed.

Lemma slashFirst_None (name : string) : slashFirst name = None <-> name = "".
Proof.
  destruct name; cbn [slashFirst]; split; try reflexivity; discriminate.
Qed.

Lemma replaceSuffix_slash (name : string) (repl : gmap string string)
    (ks : list string) (out : string) :
  replaceSuffix name repl ks = Some out ->
  (exists t, name = "/" +:+ t) -> exists t, out = "/" +:+ t.
Proof.
  induction ks as [| k ks IH]; cbn [replaceSuffix]; intros H Hn.
  - injection H as <-. exact Hn.
  - destruct (HasSuffix name k); [| exact (IH H Hn)].
    exact (slashFirst_Some _ _ H).
Qed.

(** One rule of [computeName] panics exactly when the first of its keys
    that is a suffix of the name is the whole name and is replaced by the
    empty string (or is mapped to nothing). *)
Theorem replaceSuffix_panics (name : string) (repl : gmap string string)
    (ks : list string) :
  replaceSuffix name repl ks = None <->
  exists ks1 ks2,
    ks = (ks1 ++ name :: ks2)%list /\
    (forall k, In k ks1 -> HasSuffix name k = false) /\
    valueOf repl name = "".
Proof.
  induction ks as [| k ks IH]; cbn [replaceSuffix].
  - split; [discriminate |]. intros [ks1 [ks2 [E _]]].
    destruct ks1; discriminate.
  - destruct (HasSuffix name k) eqn:Hk.
    + rewrite slashFirst_None. split.
      * intros E.
        assert (L : String.length
                      (substring 0 (String.length name - String.length k)
                         name +:+ valueOf repl k) = 0%nat)
          by (rewrite E; reflexivity).
        rewrite length_append in L.
        pose proof (HasSuffix_stem name k Hk) as Hs.
        destruct (substring 0 (String.length name - String.length k) name)
          as [| c s]; [| cbn in L; lia].
        rewrite append_nil_l in Hs. subst k.
        exists [], ks. split; [reflexivity |].
        split; [intros k [] |].
        destruct (valueOf repl name); [reflexivity | cbn in L; lia].
      * intros [ks1 [ks2 [E [Hno Hv]]]].
        destruct ks1 as [| k1 ks1].
        -- cbn [app] in E. injection E as -> _.
           rewrite Nat.sub_diag, substring_zero_zero, Hv. reflexivity.
        -- cbn [app] in E. injection E as -> _.
           rewrite (Hno k1 (or_introl eq_refl)) in Hk. discriminate.
    + rewrite IH. split.
      * intros [ks1 [ks2 [E [Hno Hv]]]].
        exists (k :: ks1), ks2. split; [rewrite E; reflexivity |].
        split; [| exact Hv].
        intros k' [<- | I]; [exact Hk | exact (Hno k' I)].
      * intros [ks1 [ks2 [E [Hno Hv]]]].
        destruct ks1 as [| k1 ks1].
        -- cbn [app] in E. injection E as -> _.
           assert (T : HasSuffix name name = true)
             by apply (HasSuffix_app "" name).
           rewrite T in Hk. discriminate.
        -- cbn [app] in E. injection E as -> ->.
           exists ks1, ks2. split; [reflexivity |].
           split; [| exact Hv].
           intros k' I. apply Hno. right. exact I.
Qed.


(** ** From a GCP metric to its Prometheus name *)

(** The two ways [subSystem] ends. *)
Lemma subSystem_cases (path : string) (subs : gmap string string) :
  (subSystem path subs = Some ("", "") /\
   forall p r, path = p +:+ "/" +:+ r -> valueOf subs (p +:+ "/") = "") \/
  (exists p r,
     path = p +:+ "/" +:+ r /\ valueOf subs (p +:+ "/") <> "" /\
     subSystem path subs =
     match r with
     | EmptyString => None
     | _ => Some (valueOf subs (p +:+ "/"),
                  if HasPrefix r "/" then r else "/" +:+ r)
     end).
Proof.
  unfold subSystem.
  destruct (length (Split "/" path)) as [| k] eqn:Hlen.
  { pose proof (Split_length_pos path). lia. }
  destruct (search path subs k) as [Hnone | [e [He [Hv Hn]]]].
  - left. split; [apply loop_none; exact Hnone |].
    intros p r E. destruct (prefixAt_of path p r E) as [e [He Hp]].
    rewrite <- Hp. apply Hnone. lia.
  - right.
    pose proof (prefixAt_split path e ltac:(lia)) as E.
    set (p := Join (firstn e (Split "/" path)) "/") in *.
    assert (Hp : prefixAt path e = p +:+ "/") by reflexivity.
    rewrite Hp, append_assoc in E.
    exists p, (Join (skipn e (Split "/" path)) "/").
    split; [exact E |]. split; [rewrite <- Hp; exact Hv |].
    rewrite (loop_found path subs k e He Hv Hn).
    apply (resultAt_prefix path subs e p _ E Hp).
Qed.

Lemma HasPrefix_app (u r : string) : HasPrefix (u +:+ r) u = true.
Proof.
  unfold HasPrefix. rewrite length_append, substring_zero_append.
  rewrite String.eqb_refl.
  replace (String.length u <=? String.length u + String.length r)%nat
    with true by (symmetry; apply Nat.leb_le; lia).
  reflexivity.
Qed.

Lemma HasSuffix_slash (p : string) : HasSuffix (p +:+ "/") "/" = true.
Proof. apply HasSuffix_app. Qed.

Lemma valueOf_present (m : gmap string string) (k : string) :
  valueOf m k <> "" -> m !! k <> None.
Proof. unfold valueOf. destruct (m !! k); [discriminate | contradiction]. Qed.

Lemma replaceSuffix_returns (name : string) (repl : gmap string string)
    (ks : list string) :
  (forall k, In k ks -> valueOf repl k <> "") ->
  exists out, replaceSuffix name repl ks = Some out.
Proof.
  induction ks as [| k ks IH]; intros H; cbn [replaceSuffix].
  - exists name. reflexivity.
  - destruct (HasSuffix name k).
    + destruct (slashFirst
                  (substring 0 (String.length name - String.length k) name
                   +:+ valueOf repl k)) as [out |] eqn:E;
        [exists out; reflexivity |].
      apply slashFirst_None in E.
      apply (f_equal String.length) in E. rewrite length_append in E.
      pose proof (H k (or_introl eq_refl)) as Hv.
      destruct (valueOf repl k); [contradiction | cbn in E; lia].
    + apply IH. intros k' I. apply H. right. exact I.
Qed.

Section MatcherProperties.

Variable TrimSpace : string -> string.
Variable Contains : string -> ascii -> ascii -> bool.

Lemma computeName_rules_keeps (rules : list SuffixConf) :
  forall mm mm',
  computeName_rules TrimSpace Contains mm rules = Some mm' ->
  conf mm' = conf mm /\ MDType mm' = MDType mm /\ SubSys mm' = SubSys mm /\
  Kind mm' = Kind mm /\ Typ mm' = Typ mm /\ Unit mm' = Unit mm /\
  ((exists t, Name mm = "/" +:+ t) -> exists t, Name mm' = "/" +:+ t).
Proof.
  induction rules as [| s rules IH]; intros mm mm' H; cbn in H.
  - injection H as <-. repeat split; auto.
  - destruct (matches TrimSpace Contains mm (For s)); cbn [negb] in H;
      [| exact (IH mm mm' H)].
    destruct (replaceSuffix (Name mm) (Replace s) (keys s)) as [name |] eqn:R;
      [| discriminate].
    destruct (IH _ _ H) as (H1 & H2 & H3 & H4 & H5 & H6 & H7).
    cbn in *. repeat split; auto.
    intros Hn. apply H7. exact (replaceSuffix_slash _ _ _ _ R Hn).
Qed.

Lemma computeName_rules_returns (rules : list SuffixConf) :
  (forall s k, In s rules -> In k (keys s) -> valueOf (Replace s) k <> "") ->
  forall mm, exists mm', computeName_rules TrimSpace Contains mm rules = Some mm'.
Proof.
  induction rules as [| s rules IH]; intros H mm; cbn [computeName_rules].
  - exists mm. reflexivity.
  - assert (H' : forall s' k, In s' rules -> In k (keys s') ->
                              valueOf (Replace s') k <> "").
    { intros s' k I. apply H. right. exact I. }
    destruct (matches TrimSpace Contains mm (For s)); cbn [negb];
      [| exact (IH H' mm)].
    destruct (replaceSuffix_returns (Name mm) (Replace s) (keys s))
      as [out ->].
    + intros k I. exact (H s k (or_introl eq_refl) I).
    + exact (IH H' _).
Qed.

(** What [computeName] leaves in the matcher. *)
Lemma computeName_result (mm mm' : MetricMatcher) :
  computeName TrimSpace Contains mm = Some mm' ->
  conf mm' = conf mm /\
  SubSys mm' = ReplaceAllString (SubSys mm) /\
  exists rest, Name mm' = "/" +:+ rest /\ allChars allowed rest = true.
Proof.
  unfold computeName. intros H.
  destruct (computeName_rules TrimSpace Contains mm (Suffix (conf mm)))
    as [mm1 |] eqn:R; [| discriminate].
  destruct (sliceFrom 1 (Name mm1)) as [rest |]; [| discriminate].
  injection H as <-. cbn.
  destruct (computeName_rules_keeps _ _ _ R) as (H1 & _ & H3 & _).
  split; [exact H1 |]. split; [rewrite H3; reflexivity |].
  exists (ReplaceAllString rest). split; [reflexivity |].
  apply replaceRuns_allowed.
Qed.

Lemma sliceFrom_one (t : string) : sliceFrom 1 ("/" +:+ t) = Some t.
Proof. exact (sliceFrom_app "/" t). Qed.

(** For a metric [MatchMetric] accepts, under a configuration whose system
    name is made of letters, digits and underscores: [Name] starts with a
    slash, [SubSys] is not empty, and [PromName] does not panic; it is the
    system, the subsystem and the name without its slash, joined by
    underscores, and made of letters, digits and underscores only. *)
Theorem MatchMetric_PromName (c : Configuration) (mdType : string)
    (kind typ : ascii) (unit : string) (mm : MetricMatcher) :
  MatchMetric TrimSpace Contains c mdType kind typ unit = Some (Some mm) ->
  allChars allowed (System c) = true ->
  exists rest,
    Name mm = "/" +:+ rest /\
    SubSys mm <> "" /\
    PromName mm = Some (System c +:+ "_" +:+ SubSys mm +:+ "_" +:+ rest) /\
    allChars allowed (System c +:+ "_" +:+ SubSys mm +:+ "_" +:+ rest)
    = true.
Proof.
  unfold MatchMetric. intros H Hsys.
  destruct (subSystem mdType (Subsystem c)) as [[subsys name] |];
    [| discriminate].
  destruct (String.eqb "" subsys) eqn:Hs; [discriminate |].
  apply String.eqb_neq in Hs.
  match type of H with
  | match computeName _ _ ?m with _ => _ end = _ =>
      destruct (computeName TrimSpace Contains m) as [mm1 |] eqn:Hc;
        [| discriminate]
  end.
  injection H as ->.
  destruct (computeName_result _ _ Hc) as (H1 & H2 & rest & H3 & H4).
  cbn in H1, H2. exists rest. split; [exact H3 |]. split.
  - rewrite H2. intros E.
    assert (E' : replaceRuns subsys false = "") by exact E.
    revert E'. apply replaceRuns_nonempty. congruence.
  - unfold PromName. rewrite H3, sliceFrom_one, H1. cbn [System].
    split; [reflexivity |].
    rewrite !allChars_append, Hsys, H4, H2.
    unfold ReplaceAllString. rewrite replaceRuns_allowed. reflexivity.
Qed.

(** [MatchMetric] returns, with a matcher or with nil, for a metric type
    that does not end in a slash under a configuration whose suffix rules
    replace no key by the empty string. *)
Theorem MatchMetric_returns (c : Configuration) (mdType : string)
    (kind typ : ascii) (unit : string) :
  HasSuffix mdType "/" = false ->
  (forall s k, In s (Suffix c) -> In k (keys s) ->
               valueOf (Replace s) k <> "") ->
  exists r, MatchMetric TrimSpace Contains c mdType kind typ unit = Some r.
Proof.
  intros Hty Hrules. unfold MatchMetric.
  destruct (subSystem_cases mdType (Subsystem c))
    as [[-> _] | [p [r [E [Hv ->]]]]].
  - cbn. exists None. reflexivity.
  - destruct r as [| ch r'].
    { rewrite E in Hty. change ("/" +:+ "") with "/" in Hty.
      rewrite HasSuffix_slash in Hty. discriminate. }
    set (name := if HasPrefix (String ch r') "/" then String ch r'
                 else "/" +:+ String ch r').
    assert (Hname : exists t, name = "/" +:+ t).
    { unfold name. rewrite HasPrefix_slash.
      destruct (Ascii.eqb ch "/") eqn:Ec.
      - apply Ascii.eqb_eq in Ec. subst ch. exists r'. reflexivity.
      - exists (String ch r'). reflexivity. }
    replace (String.eqb "" (valueOf (Subsystem c) (p +:+ "/"))) with false
      by (symmetry; apply String.eqb_neq; congruence).
    unfold computeName. cbn [conf Suffix].
    match goal with
    | |- context [computeName_rules _ _ ?m _] =>
        destruct (computeName_rules_returns (Suffix c) Hrules m)
          as [mm1 Hr]
    end.
    rewrite Hr.
    destruct (computeName_rules_keeps _ _ _ Hr) as (_ & _ & _ & _ & _ & _ & Hs).
    destruct (Hs Hname) as [t Ht]. rewrite Ht, sliceFrom_one.
    eexists. reflexivity.
Qed.

(** The type of a metric [MatchMetric] accepts starts with one of the
    prefixes [GcpPrefixes] lists, whatever the order in which the keys were
    ranged over. *)
Theorem MatchMetric_within_GcpPrefixes (c : Configuration)
    (order : list string) (mdType : string) (kind typ : ascii)
    (unit : string) (mm : MetricMatcher) :
  (forall k, Subsystem c !! k <> None -> In k order) ->
  MatchMetric TrimSpace Contains c mdType kind typ unit = Some (Some mm) ->
  exists u, In u (GcpPrefixes c order) /\ HasPrefix mdType u = true.
Proof.
  intros Hord H. unfold MatchMetric in H.
  destruct (subSystem_cases mdType (Subsystem c))
    as [[E _] | [p [r [E [Hv _]]]]].
  - rewrite E in H. cbn in H. discriminate.
  - destruct (uniqueKeyPrefixes_cover_aux (Subsystem c) order Hord
                (S (String.length (p +:+ "/"))) (p +:+ "/") ltac:(lia)
                (valueOf_present _ _ Hv)) as [u [t [Hu Ht]]].
    exists u. split; [exact Hu |].
    rewrite E, <- append_assoc, Ht, append_assoc. apply HasPrefix_app.
Qed.

(** ** Comma-separated lists *)

Lemma compact_spec (n : nat) :
  forall items i o,
  (o <= i)%nat -> (i + n = length items)%nat ->
  firstn (snd (compact TrimSpace items i o n))
         (fst (compact TrimSpace items i o n)) =
  (firstn o items ++
   List.filter nonEmpty (map TrimSpace (skipn i items)))%list.
Proof.
  induction n as [| n IH]; intros items i o Hoi Hlen.
  - cbn [compact fst snd]. rewrite List.skipn_all2 by lia.
    cbn. rewrite app_nil_r. reflexivity.
  - cbn [compact].
    destruct (items !! i) as [v0 |] eqn:Hi.
    2:{ apply lookup_ge_None in Hi. lia. }
    rewrite (drop_S items v0 i Hi). cbn [map List.filter].
    unfold nonEmpty at 1.
    destruct (negb (String.eqb "" (TrimSpace v0))) eqn:Hv.
    + rewrite IH; [| lia | rewrite length_insert; lia].
      rewrite drop_insert_lt by lia.
      assert (Ho : (<[o:=TrimSpace v0]> items) !! o = Some (TrimSpace v0)).
      { apply list_lookup_insert_eq. lia. }
      rewrite (take_S_r _ _ _ Ho), take_insert_ge by lia.
      rewrite <- app_assoc. reflexivity.
    + apply IH; lia.
Qed.

Lemma Split_single (c : ascii) (s : string) :
  ContainsByte s c = false -> Split c s = [s].
Proof.
  induction s as [| d s IH]; [reflexivity |]. cbn [ContainsByte Split].
  intros H. apply orb_false_iff in H as [H1 H2].
  rewrite H1, (IH H2). reflexivity.
Qed.

(** [commaSeparated] with [nilForSingle] false returns the pieces between
    the commas, each trimmed, in order and without the empty ones, whether
    the list has a comma or not: writing the items kept over the ones read
    loses none.  With [nilForSingle] true it returns nil exactly for a list
    without a comma. *)
Theorem commaSeparated_items (str : string) :
  commaSeparated TrimSpace str false =
  Some (List.filter nonEmpty (map TrimSpace (Split "," str))) /\
  (commaSeparated TrimSpace str true = None <->
   ContainsByte str "," = false).
Proof.
  unfold commaSeparated.
  destruct (ContainsByte str ",") eqn:Hc; cbn [negb].
  - pose proof (compact_spec (length (Split "," str)) (Split "," str) 0 0
                  ltac:(lia) ltac:(lia)) as H.
    destruct (compact TrimSpace (Split "," str) 0 0
                (length (Split "," str))) as [items' o].
    cbn [fst snd] in H. rewrite H. cbn [firstn skipn app].
    split; [reflexivity |]. split; discriminate.
  - rewrite (Split_single _ _ Hc). cbn [map List.filter]. unfold nonEmpty.
    split; [| split; reflexivity].
    destruct (String.eqb "" (TrimSpace str)); reflexivity.
Qed.

End MatcherProperties.


(** ** The properties at work on the sample configuration *)

Lemma ContainsByte_app (s t : string) (c : ascii) :
  ContainsByte (s +:+ t) c = ContainsByte s c || ContainsByte t c.
Proof.
  induction s as [| d s IH]; [reflexivity |].
  rewrite append_cons. cbn [ContainsByte]. rewrite IH, orb_assoc.
  reflexivity.
Qed.

(** After the last slash of a path no prefix ends. *)
Lemma last_slash (p r : string) :
  ContainsByte r "/" = false ->
  forall p' r', p +:+ "/" +:+ r = p' +:+ "/" +:+ r' ->
  (String.length p' <= String.length p)%nat.
Proof.
  intros Hr. induction p as [| c p IH]; intros p' r' E.
  - destruct p' as [| c' p']; [cbn; lia |].
    rewrite append_nil_l, append_cons in E.
    change ("/" +:+ r) with (String "/" r) in E. injection E as _ E.
    change ("" +:+ r) with r in E.
    rewrite E, ContainsByte_app in Hr. cbn in Hr.
    rewrite orb_true_r in Hr. discriminate.
  - destruct p' as [| c' p']; [cbn; lia |].
    rewrite !append_cons in E. injection E as _ E.
    specialize (IH p' r' E). cbn. lia.
Qed.

Lemma sampleOrder_complete (k : string) :
  sampleSubsystem !! k <> None -> In k sampleOrder.
Proof.
  unfold sampleSubsystem, sampleOrder. intros H.
  destruct (decide (k = "bigquery.googleapis.com/query/")) as [-> | N1];
    [left; reflexivity |].
  destruct (decide (k = "bigquery.googleapis.com/")) as [-> | N2];
    [right; left; reflexivity |].
  rewrite lookup_insert_ne, lookup_insert_ne, lookup_empty in H by congruence.
  contradiction.
Qed.

Lemma subSystem_longest_prefix_witness :
  subSystem "bigquery.googleapis.com/query/count" sampleSubsystem =
  Some (valueOf sampleSubsystem ("bigquery.googleapis.com/query" +:+ "/"),
        if HasPrefix "count" "/" then "count" else "/" +:+ "count").
Proof.
  apply (subSystem_longest_prefix "bigquery.googleapis.com/query/count"
           sampleSubsystem "bigquery.googleapis.com/query" "count").
  - reflexivity.
  - vm_compute. discriminate.
  - intros p' r' E L. exfalso.
    pose proof (last_slash "bigquery.googleapis.com/query" "count"
                  eq_refl p' r' E) as B.
    lia.
  - discriminate.
Defined.

Lemma subSystem_panics_witness :
  subSystem "bigquery.googleapis.com/" sampleSubsystem = None.
Proof.
  apply (proj2 (subSystem_panics "bigquery.googleapis.com/" sampleSubsystem)).
  split; [exists "bigquery.googleapis.com"; reflexivity |].
  vm_compute. discriminate.
Defined.

Lemma subSystem_no_match_witness :
  valueOf sampleSubsystem ("compute.googleapis.com" +:+ "/") = "".
Proof.
  apply (proj1 (subSystem_no_match "compute.googleapis.com/instance/uptime"
                  sampleSubsystem) eq_refl
           "compute.googleapis.com" "instance/uptime" eq_refl).
Defined.

Lemma no_slash (q p r : string) :
  ContainsByte q "/" = false -> q <> p +:+ "/" +:+ r.
Proof.
  intros H ->. rewrite ContainsByte_app in H. cbn in H.
  rewrite orb_true_r in H. discriminate.
Qed.

Lemma uniqueKeyPrefixes_kept_witness :
  In ("bigquery.googleapis.com" +:+ "/")
     (uniqueKeyPrefixes sampleSubsystem sampleOrder).
Proof.
  apply (proj2 (proj2 (uniqueKeyPrefixes_kept sampleSubsystem sampleOrder
                         "" "bigquery.googleapis.com"))).
  split; [right; left; reflexivity |].
  intros p r E. exfalso.
  exact (no_slash "bigquery.googleapis.com" p r eq_refl E).
Defined.

Lemma uniqueKeyPrefixes_cover_witness :
  exists u r,
    In u (uniqueKeyPrefixes sampleSubsystem sampleOrder) /\
    "bigquery.googleapis.com/query/" = u +:+ r.
Proof.
  apply (uniqueKeyPrefixes_cover sampleSubsystem sampleOrder).
  - exact sampleOrder_complete.
  - vm_compute. discriminate.
Defined.

Lemma replaceSuffix_longest_witness :
  replaceSuffix ("/scan" +:+ "/count") sampleReplace ["/count"; "t"] =
  slashFirst ("/scan" +:+ valueOf sampleReplace "/count").
Proof.
  apply (replaceSuffix_longest sampleReplace ["/count"; "t"] "/scan"
           "/count").
  - unfold longestFirst. repeat constructor.
  - left. reflexivity.
  - intros k' [<- | [<- | []]] _; cbn; lia.
Defined.

Lemma replaceSuffix_panics_witness :
  replaceSuffix "/count" emptyingReplace ["/count"] = None.
Proof.
  apply (proj2 (replaceSuffix_panics "/count" emptyingReplace ["/count"])).
  exists [], []. split; [reflexivity |].
  split; [intros k [] | reflexivity].
Defined.

Lemma commaSeparated_items_witness :
  commaSeparated asciiTrimSpace " 1, By ,,ms " false =
  Some ["1"; "By"; "ms"].
Proof.
  exact (proj1 (commaSeparated_items asciiTrimSpace " 1, By ,,ms ")).
Defined.

Lemma MatchMetric_PromName_witness :
  exists rest,
    Name sampleMatcher = "/" +:+ rest /\
    SubSys sampleMatcher <> "" /\
    PromName sampleMatcher =
    Some (System sampleConfiguration +:+ "_" +:+ SubSys sampleMatcher
          +:+ "_" +:+ rest) /\
    allChars allowed
      (System sampleConfiguration +:+ "_" +:+ SubSys sampleMatcher
       +:+ "_" +:+ rest) = true.
Proof.
  apply (MatchMetric_PromName asciiTrimSpace containsEither
           sampleConfiguration sampleType "C" "I" "1" sampleMatcher).
  - vm_compute. reflexivity.
  - reflexivity.
Defined.

Lemma MatchMetric_returns_witness :
  exists r,
    MatchMetric asciiTrimSpace containsEither sampleConfiguration sampleType
      "C" "I" "1" = Some r.
Proof.
  apply (MatchMetric_returns asciiTrimSpace containsEither
           sampleConfiguration sampleType "C" "I" "1").
  - reflexivity.
  - intros s k [<- | []] [<- | [<- | []]]; vm_compute; discriminate.
Defined.

Lemma MatchMetric_within_GcpPrefixes_witness :
  exists u,
    In u (GcpPrefixes sampleConfiguration sampleOrder) /\
    HasPrefix sampleType u = true.
Proof.
  apply (MatchMetric_within_GcpPrefixes asciiTrimSpace containsEither
           sampleConfiguration sampleOrder sampleType "C" "I" "1"
           sampleMatcher).
  - exact sampleOrder_complete.
  - vm_compute. reflexivity.
Defined.

End config_properties.
